(** * IntelliDocs backend: the document classification and scoring core

    A shallow embedding of the analysis functions of [app/ats_service.py]
    and [app/ai_service.py], and the properties of these functions.

    Conventions of the embedding.
    - A Python [str] is a list of code points ([pystr]).  The tables of
      CPython that depend on the Unicode database ([str.lower],
      [str.isspace], the regex classes [\d], [\w], [\s]) are taken on the
      ASCII plane: a code point above 127 is caseless, is no digit, no word
      character and no white space.  The three non-ASCII characters that
      occur in the patterns of the source (the bullet and the two dashes)
      are of that kind.
    - A Python [float] is a binary64 number, [spec_float] with [prec = 53]
      and [emax = 1024]; every operation rounds as IEEE 754 prescribes.
    - A Python [int] is a [Z].
    - An exception is a value of [res]: [Raise e] is a raised exception.
    - [re] is embedded by a backtracking matcher over the syntax tree of
      each pattern of the source. *)

From Stdlib Require Import ZArith NArith List String Ascii Bool Lia.
From Stdlib Require Import DecimalString.
From Stdlib Require Import Floats.SpecFloat.
From stdpp Require Import base option list gmap strings.
Import ListNotations.

(* ===================================================================== *)
(** * Part I: the embedding                                               *)
(* ===================================================================== *)

(** ** Python strings *)

Module Py.

Definition char := N.
Definition pystr := list char.

Definition ch (a : ascii) : char := N_of_ascii a.

Fixpoint str (s : string) : pystr :=
  match s with
  | EmptyString => []
  | String a s' => ch a :: str s'
  end.

(** The first character of a literal, for writing single characters. *)
Definition c1 (s : string) : char :=
  match s with
  | String a _ => ch a
  | EmptyString => 0%N
  end.

Definition newline : char := 10%N.

Definition is_upper (c : char) : bool := (65 <=? c)%N && (c <=? 90)%N.
Definition is_lower (c : char) : bool := (97 <=? c)%N && (c <=? 122)%N.
Definition is_digit (c : char) : bool := (48 <=? c)%N && (c <=? 57)%N.

Definition lower_char (c : char) : char := if is_upper c then (c + 32)%N else c.
Definition upper_char (c : char) : char := if is_lower c then (c - 32)%N else c.

(** [str.lower()] *)
Definition lower (s : pystr) : pystr := map lower_char s.

(** White space of [str.split()], [str.strip()] and [\s]: TAB, LF, VT, FF,
    CR, FS, GS, RS, US and the space. *)
Definition is_space (c : char) : bool :=
  ((9 <=? c)%N && (c <=? 13)%N) || ((28 <=? c)%N && (c <=? 32)%N).

(** [\w] *)
Definition is_word (c : char) : bool :=
  is_upper c || is_lower c || is_digit c || (c =? 95)%N.

Fixpoint startswith (p s : pystr) : bool :=
  match p, s with
  | [], _ => true
  | a :: p', b :: s' => (a =? b)%N && startswith p' s'
  | _ :: _, [] => false
  end.

(** [p in s] for two strings *)
Fixpoint contains (p s : pystr) : bool :=
  startswith p s ||
  match s with
  | [] => false
  | _ :: s' => contains p s'
  end.

(** [s.split()]: the maximal runs of characters that are not white space.
    [w] is the word being read, last character first. *)
Fixpoint split_acc (w : pystr) (s : pystr) : list pystr :=
  match s with
  | [] => match w with [] => [] | _ => [rev w] end
  | c :: s' =>
      if is_space c
      then match w with [] => split_acc [] s' | _ => rev w :: split_acc [] s' end
      else split_acc (c :: w) s'
  end.

Definition split (s : pystr) : list pystr := split_acc [] s.

Fixpoint lstrip (s : pystr) : pystr :=
  match s with
  | c :: s' => if is_space c then lstrip s' else s
  | [] => []
  end.

Definition rstrip (s : pystr) : pystr := rev (lstrip (rev s)).

(** [s.strip()] *)
Definition strip (s : pystr) : pystr := rstrip (lstrip s).

(** [sep.join(l)] *)
Fixpoint join (sep : pystr) (l : list pystr) : pystr :=
  match l with
  | [] => []
  | [x] => x
  | x :: l' => x ++ sep ++ join sep l'
  end.

(** [s[a:b]] for [0 <= a <= b] *)
Definition slice (s : pystr) (a b : nat) : pystr := take (b - a) (drop a s).

(** [len(x)] *)
Definition len {A} (l : list A) : Z := Z.of_nat (length l).

(** [int(s)] for a string of ASCII digits. *)
Definition int_of_digits (s : pystr) : Z :=
  fold_left (fun acc c => (10 * acc + Z.of_N (c - 48))%Z) s 0%Z.

(** *** Exceptions *)

Inductive exn :=
| ZeroDivisionError (msg : pystr)
| OverflowError (msg : pystr)
| ValueError (msg : pystr)
| TypeError (msg : pystr)
| IndexError (msg : pystr)
| KeyError (msg : pystr)
| AttributeError (msg : pystr)
| OtherError (msg : pystr).

(** [str(e)] *)
Definition exn_str (e : exn) : pystr :=
  match e with
  | ZeroDivisionError m | OverflowError m | ValueError m | TypeError m
  | IndexError m | KeyError m | AttributeError m | OtherError m => m
  end.

Inductive res (A : Type) :=
| Ok (a : A)
| Raise (e : exn).
Arguments Ok {A} a.
Arguments Raise {A} e.

#[global] Instance res_ret : MRet res := fun A a => Ok a.
#[global] Instance res_bind : MBind res := fun A B f m =>
  match m with
  | Ok a => f a
  | Raise e => Raise e
  end.

#[global] Instance res_fmap : FMap res := fun A B f m =>
  match m with
  | Ok a => Ok (f a)
  | Raise e => Raise e
  end.

(** [try: body except Exception as e: handler(e)] *)
Definition try_except {A} (body : res A) (handler : exn -> res A) : res A :=
  match body with
  | Ok a => Ok a
  | Raise e => handler e
  end.

End Py.

(** ** Python numbers: [int] and binary64 [float] *)

Module Num.
Import Py.

Definition prec : Z := 53.
Definition emax : Z := 1024.

(** [float(z)], correctly rounded. *)
Definition of_Z (z : Z) : spec_float := binary_normalize prec emax z 0 false.

Definition fadd : spec_float -> spec_float -> spec_float := SFadd prec emax.
Definition fsub : spec_float -> spec_float -> spec_float := SFsub prec emax.
Definition fmul : spec_float -> spec_float -> spec_float := SFmul prec emax.
Definition fdiv : spec_float -> spec_float -> spec_float := SFdiv prec emax.

Definition is_zero (f : spec_float) : bool :=
  match f with S754_zero _ => true | _ => false end.

Definition is_inf (f : spec_float) : bool :=
  match f with S754_infinity _ => true | _ => false end.

(** A decimal literal [n/d] of the source, such as [0.7]: the binary64
    number nearest to the quotient. *)
Definition literal (n d : Z) : spec_float := fdiv (of_Z n) (of_Z d).

Inductive pynum :=
| PyInt (z : Z)
| PyFloat (f : spec_float).

Definition to_float (x : pynum) : spec_float :=
  match x with
  | PyInt z => of_Z z
  | PyFloat f => f
  end.

Definition py_add (x y : pynum) : pynum :=
  match x, y with
  | PyInt a, PyInt b => PyInt (a + b)
  | _, _ => PyFloat (fadd (to_float x) (to_float y))
  end.

Definition py_sub (x y : pynum) : pynum :=
  match x, y with
  | PyInt a, PyInt b => PyInt (a - b)
  | _, _ => PyFloat (fsub (to_float x) (to_float y))
  end.

Definition py_mul (x y : pynum) : pynum :=
  match x, y with
  | PyInt a, PyInt b => PyInt (a * b)
  | _, _ => PyFloat (fmul (to_float x) (to_float y))
  end.

(** [a / b] for two [int]s: the exact quotient, rounded once. *)
Definition int_truediv (a b : Z) : res spec_float :=
  if (b =? 0)%Z then Raise (ZeroDivisionError (str "division by zero"))
  else if (a =? 0)%Z then Ok (S754_zero (b <? 0)%Z)
  else
    let '(q, e, l) := SFdiv_core_binary prec emax (Z.abs a) 0 (Z.abs b) 0 in
    let r := binary_round_aux prec emax (xorb (a <? 0)%Z (b <? 0)%Z) q e l in
    if is_inf r
    then Raise (OverflowError (str "integer division result too large for a float"))
    else Ok r.

(** [x / y] *)
Definition py_truediv (x y : pynum) : res spec_float :=
  match x, y with
  | PyInt a, PyInt b => int_truediv a b
  | _, _ =>
      if is_zero (to_float y)
      then Raise (ZeroDivisionError (str "float division by zero"))
      else Ok (fdiv (to_float x) (to_float y))
  end.

(** The integer part of a finite binary64 number, towards zero. *)
Definition trunc (s : bool) (m : positive) (e : Z) : Z :=
  let v := match e with
           | Zneg p => Z.shiftr (Zpos m) (Zpos p)
           | _ => Z.shiftl (Zpos m) e
           end in
  if s then (- v)%Z else v.

(** [int(x)] *)
Definition py_int (x : pynum) : res Z :=
  match x with
  | PyInt z => Ok z
  | PyFloat (S754_zero _) => Ok 0%Z
  | PyFloat (S754_finite s m e) => Ok (trunc s m e)
  | PyFloat (S754_infinity _) =>
      Raise (OverflowError (str "cannot convert float infinity to integer"))
  | PyFloat S754_nan =>
      Raise (ValueError (str "cannot convert float NaN to integer"))
  end.

(** [x < y]; an [int] and a [float] compare by value. *)
Definition py_lt (x y : pynum) : bool :=
  match x, y with
  | PyInt a, PyInt b => (a <? b)%Z
  | _, _ => SFltb (to_float x) (to_float y)
  end.

(** [max(x, y)] and [min(x, y)]: the first argument unless the second is
    strictly beyond it. *)
Definition py_max (x y : pynum) : pynum := if py_lt x y then y else x.
Definition py_min (x y : pynum) : pynum := if py_lt y x then y else x.

End Num.

(** ** Regular expressions of the [re] module *)

Module Re.
Import Py.

(** An item of a character class: a character, a range, or one of the
    classes [\d], [\w], [\s]. *)
Inductive citem :=
| CChar (c : char)
| CRange (lo hi : char)
| CDigit
| CWord
| CSpace.

(** [[...]] and, with [cs_neg], [[^...]]. *)
Record charset := Charset { cs_neg : bool; cs_items : list citem }.

(** The syntax of the patterns.  Every quantifier of the source applies to
    one character or one character class; [Rep cs lo hi greedy] is
    [cs{lo,hi}], with [hi = None] for no upper bound and [greedy = false]
    for the lazy form [cs{lo,hi}?]. *)
Inductive regex :=
| Eps
| Chr (cs : charset)
| Seq (r1 r2 : regex)
| Alt (r1 r2 : regex)
| Rep (cs : charset) (lo : nat) (hi : option nat) (greedy : bool)
| Group (i : nat) (r : regex)
| WordB
| EndZ.

(** *** Writing patterns *)

Definition cls (items : list citem) : charset := Charset false items.
Definition ncls (items : list citem) : charset := Charset true items.
Definition one (c : char) : charset := cls [CChar c].
(** [.] under [re.DOTALL] *)
Definition any : charset := ncls [].
Definition digit : charset := cls [CDigit].
Definition space : charset := cls [CSpace].

Fixpoint lit_chars (s : pystr) : regex :=
  match s with
  | [] => Eps
  | [c] => Chr (one c)
  | c :: s' => Seq (Chr (one c)) (lit_chars s')
  end.

(** A literal string. *)
Definition lit (s : string) : regex := lit_chars (str s).

Fixpoint seq (rs : list regex) : regex :=
  match rs with
  | [] => Eps
  | [r] => r
  | r :: rs' => Seq r (seq rs')
  end.

Fixpoint alt (rs : list regex) : regex :=
  match rs with
  | [] => Eps
  | [r] => r
  | r :: rs' => Alt r (alt rs')
  end.

Definition opt (cs : charset) : regex := Rep cs 0 (Some 1%nat) true.
Definition star (cs : charset) : regex := Rep cs 0 None true.
Definition plus (cs : charset) : regex := Rep cs 1 None true.
Definition times (cs : charset) (n : nat) : regex := Rep cs n (Some n) true.
Definition between (cs : charset) (lo hi : nat) : regex := Rep cs lo (Some hi) true.
Definition atleast (cs : charset) (lo : nat) : regex := Rep cs lo None true.

(** *** Matching *)

Definition item_has (i : citem) (c : char) : bool :=
  match i with
  | CChar x => (x =? c)%N
  | CRange lo hi => (lo <=? c)%N && (c <=? hi)%N
  | CDigit => is_digit c
  | CWord => is_word c
  | CSpace => is_space c
  end.

Definition set_has (cs : charset) (c : char) : bool :=
  existsb (fun i => item_has i c) (cs_items cs).

(** Under [re.IGNORECASE] ([ic]) a character is in a class when one of
    its two cases is. *)
Definition cs_match (ic : bool) (cs : charset) (c : char) : bool :=
  xorb (cs_neg cs)
       (set_has cs c || (ic && (set_has cs (lower_char c) || set_has cs (upper_char c)))).

(** The state of a match attempt: the character before the position, the
    text from the position on, the position, and the spans of the groups
    closed so far (the last one set is first). *)
Record mstate := MState {
  ms_prev : option char;
  ms_rest : pystr;
  ms_pos : nat;
  ms_groups : list (nat * (nat * nat))
}.

Definition word_at (o : option char) : bool :=
  match o with
  | Some c => is_word c
  | None => false
  end.

(** [\b] *)
Definition at_boundary (st : mstate) : bool :=
  xorb (word_at (ms_prev st)) (word_at (head (ms_rest st))).

Definition dec_hi (hi : option nat) : option nat :=
  match hi with
  | Some n => Some (pred n)
  | None => None
  end.

Definition hi_allows (hi : option nat) : bool :=
  match hi with
  | Some O => false
  | _ => true
  end.

(** [cs{lo,hi}] followed by the continuation [k]: the greedy form takes the
    longest run first and gives characters back one at a time, the lazy
    form tries the continuation before every further character. *)
Fixpoint rep (ic greedy : bool) (cs : charset) (lo : nat) (hi : option nat)
    (k : mstate -> option mstate) (groups : list (nat * (nat * nat)))
    (pos : nat) (prev : option char) (rest : pystr) {struct rest} : option mstate :=
  let st := MState prev rest pos groups in
  match rest with
  | c :: rest' =>
      if hi_allows hi && cs_match ic cs c then
        if greedy then
          match rep ic greedy cs (pred lo) (dec_hi hi) k groups (S pos) (Some c) rest' with
          | Some r => Some r
          | None => match lo with O => k st | S _ => None end
          end
        else
          match (match lo with O => k st | S _ => None end) with
          | Some r => Some r
          | None => rep ic greedy cs (pred lo) (dec_hi hi) k groups (S pos) (Some c) rest'
          end
      else match lo with O => k st | S _ => None end
  | [] => match lo with O => k st | S _ => None end
  end.

(** [rmatch ic r k st]: match [r] at [st], then [k]; alternatives are
    tried in the order of the pattern and the first success is kept. *)
Fixpoint rmatch (ic : bool) (r : regex) (k : mstate -> option mstate)
    (st : mstate) : option mstate :=
  match r with
  | Eps => k st
  | Chr cs =>
      match ms_rest st with
      | c :: rest' =>
          if cs_match ic cs c
          then k (MState (Some c) rest' (S (ms_pos st)) (ms_groups st))
          else None
      | [] => None
      end
  | Seq r1 r2 => rmatch ic r1 (rmatch ic r2 k) st
  | Alt r1 r2 =>
      match rmatch ic r1 k st with
      | Some x => Some x
      | None => rmatch ic r2 k st
      end
  | Rep cs lo hi greedy =>
      rep ic greedy cs lo hi k (ms_groups st) (ms_pos st) (ms_prev st) (ms_rest st)
  | Group i r' =>
      rmatch ic r'
        (fun st' => k (MState (ms_prev st') (ms_rest st') (ms_pos st')
                         ((i, (ms_pos st, ms_pos st')) :: ms_groups st')))
        st
  | WordB => if at_boundary st then k st else None
  | EndZ => match ms_rest st with [] => k st | _ :: _ => None end
  end.

(** A match object: the span of the whole match and of its groups. *)
Record rmatch_obj := MatchObj {
  m_start : nat;
  m_end : nat;
  m_groups : list (nat * (nat * nat))
}.

(** The leftmost match at or after the position. *)
Fixpoint search_from (ic : bool) (r : regex) (prev : option char) (rest : pystr)
    (pos : nat) {struct rest} : option (rmatch_obj * mstate) :=
  match rmatch ic r Some (MState prev rest pos []) with
  | Some st => Some (MatchObj pos (ms_pos st) (ms_groups st), st)
  | None =>
      match rest with
      | [] => None
      | c :: rest' => search_from ic r (Some c) rest' (S pos)
      end
  end.

(** [re.search(r, text)] *)
Definition search (ic : bool) (r : regex) (text : pystr) : option rmatch_obj :=
  fst <$> search_from ic r None text 0.

(** The successive matches from a position on.  A search resumes where
    the last match ended; after an empty match it resumes one character
    further.  Every round moves on by a character at least, so
    [S (length rest)] rounds reach the end of the text. *)
Fixpoint finditer_from (fuel : nat) (ic : bool) (r : regex) (prev : option char)
    (rest : pystr) (pos : nat) : list rmatch_obj :=
  match fuel with
  | O => []
  | S fuel' =>
      match search_from ic r prev rest pos with
      | None => []
      | Some (m, st) =>
          m ::
          (if (m_end m =? m_start m)%nat
           then match ms_rest st with
                | [] => []
                | c :: rest' => finditer_from fuel' ic r (Some c) rest' (S (ms_pos st))
                end
           else finditer_from fuel' ic r (ms_prev st) (ms_rest st) (ms_pos st))
      end
  end.

(** [re.finditer(r, text)] *)
Definition finditer (ic : bool) (r : regex) (text : pystr) : list rmatch_obj :=
  finditer_from (S (length text)) ic r None text 0.

(** [m.group(0)] *)
Definition group0 (text : pystr) (m : rmatch_obj) : pystr :=
  slice text (m_start m) (m_end m).

Fixpoint span_of (i : nat) (gs : list (nat * (nat * nat))) : option (nat * nat) :=
  match gs with
  | [] => None
  | (j, sp) :: gs' => if (i =? j)%nat then Some sp else span_of i gs'
  end.

(** [m.group(i)] for a group that took part in the match. *)
Definition group (text : pystr) (m : rmatch_obj) (i : nat) : pystr :=
  match span_of i (m_groups m) with
  | Some (a, b) => slice text a b
  | None => []
  end.

(** [re.findall(r, text)] for a pattern without groups. *)
Definition findall (ic : bool) (r : regex) (text : pystr) : list pystr :=
  map (group0 text) (finditer ic r text).

(** The pieces of [text] between the matches [ms], from position [from]. *)
Fixpoint pieces (text : pystr) (from : nat) (ms : list rmatch_obj) : list pystr :=
  match ms with
  | [] => [drop from text]
  | m :: ms' => slice text from (m_start m) :: pieces text (m_end m) ms'
  end.

(** [re.split(r, text)] for a pattern without groups. *)
Definition split (ic : bool) (r : regex) (text : pystr) : list pystr :=
  pieces text 0 (finditer ic r text).

End Re.

(** ** [app/ats_service.py] *)

Module Ats.
Import Py Num Re.

Definition TECH_SKILLS : list (pystr * list pystr) :=
  [ (str "languages",
     map str ["python"; "java"; "javascript"; "typescript"; "c++"; "c#"; "ruby";
              "php"; "swift"; "kotlin"; "go"; "rust"; "scala"]);
    (str "frameworks",
     map str ["react"; "angular"; "vue"; "django"; "flask"; "spring"; "node.js";
              "express"; "fastapi"; "rails"; "laravel"]);
    (str "cloud",
     map str ["aws"; "azure"; "gcp"; "docker"; "kubernetes"; "terraform";
              "jenkins"; "ci/cd"; "devops"]);
    (str "databases",
     map str ["sql"; "mysql"; "postgresql"; "mongodb"; "redis"; "dynamodb";
              "cassandra"; "oracle"]);
    (str "tools",
     map str ["git"; "jira"; "confluence"; "postman"; "swagger"; "linux";
              "agile"; "scrum"]);
    (str "ai_ml",
     map str ["machine learning"; "deep learning"; "nlp"; "tensorflow";
              "pytorch"; "scikit-learn"; "pandas"; "numpy"]) ].

Definition SOFT_SKILLS : list pystr :=
  map str ["leadership"; "communication"; "teamwork"; "problem solving";
           "analytical"; "collaboration"; "project management";
           "time management"; "adaptability"; "critical thinking";
           "creativity"; "attention to detail"].

(** *** The patterns *)

Definition AZ : citem := CRange (c1 "A") (c1 "Z").
Definition az : citem := CRange (c1 "a") (c1 "z").
Definition d09 : citem := CRange (c1 "0") (c1 "9").
Definition dot : charset := one (c1 ".").

(** [\b[A-Za-z0-9._%+-]+@[A-Za-z0-9.-]+\.[A-Z|a-z]{2,}\b] *)
Definition email_re : regex :=
  seq [ WordB;
        plus (cls [AZ; az; d09; CChar (c1 "."); CChar (c1 "_"); CChar (c1 "%");
                   CChar (c1 "+"); CChar (c1 "-")]);
        lit "@";
        plus (cls [AZ; az; d09; CChar (c1 "."); CChar (c1 "-")]);
        lit ".";
        atleast (cls [AZ; CChar (c1 "|"); az]) 2;
        WordB ].

(** [[-.]?] *)
Definition sep_opt : regex := opt (cls [CChar (c1 "-"); CChar (c1 ".")]).

(** [\d{3}[-.]?\d{3}[-.]?\d{4}] *)
Definition phone_digits : regex :=
  seq [times digit 3; sep_opt; times digit 3; sep_opt; times digit 4].

(** [\b\d{3}[-.]?\d{3}[-.]?\d{4}\b] *)
Definition phone_re : regex := seq [WordB; phone_digits; WordB].

(** [\b(\d{3}[-.]?\d{3}[-.]?\d{4})\b] *)
Definition phone_group_re : regex := seq [WordB; Group 1 phone_digits; WordB].

(** [[a-zA-Z0-9-]+] *)
Definition handle : regex := plus (cls [az; AZ; d09; CChar (c1 "-")]).

(** [linkedin\.com/in/([a-zA-Z0-9-]+)] *)
Definition linkedin_re : regex := seq [lit "linkedin.com/in/"; Group 1 handle].

(** [github\.com/([a-zA-Z0-9-]+)] *)
Definition github_re : regex := seq [lit "github.com/"; Group 1 handle].

(** [X\.?] for a letter [X] *)
Definition dotted (s : string) : regex := seq [lit s; opt dot].

(** [['\w\s]*] *)
Definition degree_tail : regex := star (cls [CChar (c1 "'"); CWord; CSpace]).

Definition degree_patterns : list regex :=
  [ (* (Bachelor['\w\s]*|B\.?S\.?|B\.?A\.?|B\.?Tech\.?) *)
    Group 1 (alt [ seq [lit "Bachelor"; degree_tail];
                   seq [dotted "B"; dotted "S"];
                   seq [dotted "B"; dotted "A"];
                   seq [dotted "B"; dotted "Tech"] ]);
    (* (Master['\w\s]*|M\.?S\.?|M\.?A\.?|M\.?Tech\.?|MBA) *)
    Group 1 (alt [ seq [lit "Master"; degree_tail];
                   seq [dotted "M"; dotted "S"];
                   seq [dotted "M"; dotted "A"];
                   seq [dotted "M"; dotted "Tech"];
                   lit "MBA" ]);
    (* (Ph\.?D\.?|Doctorate) *)
    Group 1 (alt [ seq [dotted "Ph"; dotted "D"]; lit "Doctorate" ]) ].

Definition en_dash : char := 8211%N.
Definition em_dash : char := 8212%N.

(** [\b(19|20)(\d{2})\s*[-–—]\s*((19|20)\d{2}|Present|Current)\b] *)
Definition year_pattern : regex :=
  seq [ WordB;
        Group 1 (alt [lit "19"; lit "20"]);
        Group 2 (times digit 2);
        star space;
        Chr (cls [CChar (c1 "-"); CChar en_dash; CChar em_dash]);
        star space;
        Group 3 (alt [ seq [Group 4 (alt [lit "19"; lit "20"]); times digit 2];
                       lit "Present";
                       lit "Current" ]);
        WordB ].

(** [\b[a-z]{3,}\b] *)
Definition token_re : regex := seq [WordB; atleast (cls [az]) 3; WordB].

(** [bool(re.search(...))] *)
Definition found (ic : bool) (r : regex) (text : pystr) : bool :=
  match search ic r text with
  | Some _ => true
  | None => false
  end.

(** The truth value of [None] or a string. *)
Definition truthy (o : option pystr) : bool :=
  match o with
  | Some (_ :: _) => true
  | _ => false
  end.

(** [sum(1 for keyword in keywords if keyword in text_lower)] *)
Definition count_hits (keywords : list pystr) (text_lower : pystr) : Z :=
  len (List.filter (fun keyword => contains keyword text_lower) keywords).

Definition resume_keywords : list pystr :=
  map str ["education"; "experience"; "skills"; "objective"; "summary";
           "certifications"; "projects"; "work history"; "professional experience";
           "bachelor"; "master"; "phd"; "degree"; "university"; "college";
           "resume"; "cv"; "curriculum vitae"].

Definition transcript_keywords : list pystr :=
  map str ["meeting"; "attendees"; "discussion"; "action items"; "agenda";
           "minutes"; "decisions"; "next steps"; "follow-up"; "adjourned";
           "meeting notes"; "participants"; "date:"; "time:"].

Definition detect_document_type (text : pystr) : pystr :=
  let text_lower := lower text in
  let resume_score := count_hits resume_keywords text_lower in
  let transcript_score := count_hits transcript_keywords text_lower in
  let has_email := found false email_re text in
  let has_phone := found false phone_re text in
  let resume_score :=
    if has_email || has_phone then (resume_score + 2)%Z else resume_score in
  if (transcript_score <? resume_score)%Z
  then str "resume"
  else str "transcript".

Record contact_info := ContactInfo {
  email : option pystr;
  phone : option pystr;
  linkedin : option pystr;
  github : option pystr
}.

Definition extract_contact_info (text : pystr) : contact_info :=
  {| email := group0 text <$> search false email_re text;
     phone := group0 text <$> search false phone_group_re text;
     linkedin := group0 text <$> search true linkedin_re text;
     github := group0 text <$> search true github_re text |}.

Record skills := Skills {
  technical : gmap pystr (list pystr);
  soft : list pystr
}.

Definition extract_skills (text : pystr) : skills :=
  let text_lower := lower text in
  let technical :=
    fold_left
      (fun acc '(category, skills_list) =>
         let found := List.filter (fun skill => contains skill text_lower) skills_list in
         match found with
         | [] => acc
         | _ :: _ => <[category := found]> acc
         end)
      TECH_SKILLS (∅ : gmap pystr (list pystr)) in
  {| technical := technical;
     soft := List.filter (fun skill => contains skill text_lower) SOFT_SKILLS |}.

Record education_entry := EducationEntry {
  degree : pystr;
  level : pystr
}.

Definition extract_education (text : pystr) : list education_entry :=
  flat_map
    (fun pattern =>
       map (fun m =>
              let g := group0 text m in
              {| degree := g;
                 level := if contains (str "bachelor") (lower g)
                             || contains (str "b.") (lower g)
                          then str "undergraduate"
                          else str "graduate" |})
           (finditer true pattern text))
    degree_patterns.

(** The digits of the matched years are ASCII digits, so [int] does not
    fail on them and the handler of the source is not entered. *)
Definition extract_experience_years (text : pystr) : Z :=
  let years :=
    flat_map
      (fun m =>
         let start_year_prefix := group text m 1 in
         let start_year_suffix := group text m 2 in
         let end_part := group text m 3 in
         let start_year := int_of_digits (start_year_prefix ++ start_year_suffix) in
         let end_year :=
           if contains (str "present") (lower end_part)
              || contains (str "current") (lower end_part)
           then 2025%Z
           else int_of_digits end_part in
         let year_diff := (end_year - start_year)%Z in
         if (0 <? year_diff)%Z then [year_diff] else [])
      (finditer true year_pattern text) in
  fold_right Z.add 0%Z years.

Record sections := Sections {
  sec_contact_info : bool;
  sec_summary : bool;
  sec_experience : bool;
  sec_education : bool;
  sec_skills : bool;
  sec_projects : bool
}.

(** [sections.values()] *)
Definition section_values (s : sections) : list bool :=
  [ sec_contact_info s; sec_summary s; sec_experience s; sec_education s;
    sec_skills s; sec_projects s ].

Definition check_resume_sections (text : pystr) : sections :=
  let text_lower := lower text in
  {| sec_contact_info :=
       found false (alt [lit "@"; lit "phone"; lit "email";
                         seq [times digit 3; sep_opt; times digit 3]]) text;
     sec_summary :=
       found false (alt [lit "summary"; lit "objective"; lit "profile"]) text_lower;
     sec_experience :=
       found false (alt [lit "experience"; lit "work history"; lit "employment"]) text_lower;
     sec_education :=
       found false (alt [lit "education"; lit "degree"; lit "university"; lit "college"])
             text_lower;
     sec_skills :=
       found false (alt [lit "skills"; lit "technologies"; lit "technical skills"]) text_lower;
     sec_projects :=
       found false (alt [lit "projects"; lit "portfolio"]) text_lower |}.

Definition stop_words : gset pystr :=
  list_to_set (map str ["the"; "and"; "for"; "with"; "this"; "that"; "will";
                        "have"; "from"; "are"; "can"]).

Definition calculate_keyword_match (resume_text job_description : pystr) : res Z :=
  let resume_lower := lower resume_text in
  let jd_lower := lower job_description in
  let jd_words : gset pystr := list_to_set (findall false token_re jd_lower) in
  let resume_words : gset pystr := list_to_set (findall false token_re resume_lower) in
  let jd_words := jd_words ∖ stop_words in
  let matched := jd_words ∩ resume_words in
  match_ratio ←
    (if bool_decide (jd_words = ∅) then Ok (PyInt 0)
     else PyFloat <$> py_truediv (PyInt (Z.of_nat (size matched)))
                                 (PyInt (Z.of_nat (size jd_words))));
  py_int (py_mul match_ratio (PyInt 100)).

(** [sum(len(skills_list) for skills_list in skills['technical'].values())
     + len(skills['soft'])] *)
Definition total_skills_of (sk : skills) : Z :=
  (map_fold (fun _ skills_list acc => acc + len skills_list) 0 (technical sk)
   + len (soft sk))%Z.

Definition calculate_ats_score (text : pystr) (job_description : option pystr) : res Z :=
  let score := PyInt 0 in
  let max_score := 100%Z in
  (* Contact info (15 points) *)
  let contact := extract_contact_info text in
  let score := if truthy (email contact) then py_add score (PyInt 8) else score in
  let score := if truthy (phone contact) then py_add score (PyInt 7) else score in
  (* Sections present (25 points) *)
  let sections := check_resume_sections text in
  ratio ← py_truediv (PyInt (len (List.filter id (section_values sections))))
                     (PyInt (len (section_values sections)));
  let section_score := py_mul (PyFloat ratio) (PyInt 25) in
  let score := py_add score section_score in
  (* Skills presence (20 points) *)
  let skills := extract_skills text in
  let total_skills := total_skills_of skills in
  let score :=
    if (15 <? total_skills)%Z then py_add score (PyInt 20)
    else if (10 <? total_skills)%Z then py_add score (PyInt 15)
    else if (5 <? total_skills)%Z then py_add score (PyInt 10)
    else py_add score (PyInt 5) in
  (* Education (15 points) *)
  let education := extract_education text in
  let score :=
    match education with
    | _ :: _ => py_add score (PyInt 15)
    | [] => score
    end in
  (* Experience (15 points) *)
  let experience_years := extract_experience_years text in
  let score :=
    if (5 <? experience_years)%Z then py_add score (PyInt 15)
    else if (2 <? experience_years)%Z then py_add score (PyInt 10)
    else if (0 <? experience_years)%Z then py_add score (PyInt 5)
    else score in
  (* Keyword density (10 points) *)
  let word_count := len (Py.split text) in
  let score :=
    if (400 <? word_count)%Z && (word_count <? 800)%Z then py_add score (PyInt 10)
    else if (300 <? word_count)%Z && (word_count <? 1000)%Z then py_add score (PyInt 7)
    else py_add score (PyInt 3) in
  (* Job description matching (bonus if provided) *)
  score ←
    (if truthy job_description then
       match_score ← calculate_keyword_match text (default [] job_description);
       blended ← py_int (py_add (py_mul score (PyFloat (literal 7 10)))
                                (py_mul (PyInt match_score) (PyFloat (literal 3 10))));
       Ok (PyInt blended)
     else Ok score);
  n ← py_int score;
  Ok (Z.min n max_score).

End Ats.

(** ** [app/ai_service.py] *)

Module Ai.
Import Py Num Re.

(** *** The summarization capability

    The [transformers] pipeline is outside the program.  A value it
    returns is a Python object ([pyobj]); a call of it returns such an
    object or raises. *)

#[warnings="-register-all"]
Inductive pyobj :=
| ONone
| OStr (s : pystr)
| OInt (z : Z)
| OList (l : list pyobj)
| ODict (d : list (pystr * pyobj)).

(** [summarizer(text, max_length=.., min_length=.., do_sample=False)] *)
Definition summarizer := pystr -> Z -> Z -> res pyobj.

(** The module-level name [pipeline]: [None] when the import of
    [transformers] failed; otherwise the outcome of the call
    [pipeline("summarization", model="facebook/bart-large-cnn", device=-1)],
    a summarizer or an exception. *)
Definition pipeline_t := option (res summarizer).

(** The module-level cache [_summarizer]. *)
Definition cache := option summarizer.

(** [lambda text, **kwargs: [{"summary_text": text[:300] + "... (summary unavailable)"}]] *)
Definition dummy_summarizer : summarizer :=
  fun text _ _ =>
    Ok (OList [ODict [(str "summary_text",
                       OStr (take 300 text ++ str "... (summary unavailable)"))]]).

Definition get_summarizer (pipeline : pipeline_t) (_summarizer : cache)
  : summarizer * cache :=
  match _summarizer with
  | Some s => (s, _summarizer)
  | None =>
      match pipeline with
      | None => (dummy_summarizer, Some dummy_summarizer)
      | Some (Ok s) => (s, Some s)
      | Some (Raise _) => (dummy_summarizer, Some dummy_summarizer)
      end
  end.

(** [x[0]] *)
Definition index0 (x : pyobj) : res pyobj :=
  match x with
  | OList (y :: _) => Ok y
  | OList [] => Raise (IndexError (str "list index out of range"))
  | OStr (c :: _) => Ok (OStr [c])
  | OStr [] => Raise (IndexError (str "string index out of range"))
  | ODict _ => Raise (KeyError (str "0"))
  | ONone => Raise (TypeError (str "'NoneType' object is not subscriptable"))
  | OInt _ => Raise (TypeError (str "'int' object is not subscriptable"))
  end.

Fixpoint assoc (key : pystr) (d : list (pystr * pyobj)) : option pyobj :=
  match d with
  | [] => None
  | (k, v) :: d' => if bool_decide (k = key) then Some v else assoc key d'
  end.

(** [x[key]] for a string [key] *)
Definition item (x : pyobj) (key : pystr) : res pyobj :=
  match x with
  | ODict d =>
      match assoc key d with
      | Some v => Ok v
      | None => Raise (KeyError key)
      end
  | OList _ => Raise (TypeError (str "list indices must be integers or slices, not str"))
  | OStr _ => Raise (TypeError (str "string indices must be integers, not 'str'"))
  | ONone => Raise (TypeError (str "'NoneType' object is not subscriptable"))
  | OInt _ => Raise (TypeError (str "'int' object is not subscriptable"))
  end.

(** [x.split()] *)
Definition obj_split (x : pyobj) : res (list pystr) :=
  match x with
  | OStr s => Ok (Py.split s)
  | _ => Raise (AttributeError (str "object has no attribute 'split'"))
  end.

(** [round(x, 2)]: the decimal with two places nearest to [x], ties to
    the even one, then the binary64 number nearest to that decimal. *)
Definition py_round2 (x : spec_float) : res spec_float :=
  match x with
  | S754_finite s m e =>
      match e with
      | Zneg p =>
          let num := (100 * Zpos m)%Z in
          let den := (2 ^ Zpos p)%Z in
          let q := (num / den)%Z in
          let r := (num mod den)%Z in
          let q := if (den <? 2 * r)%Z || ((den =? 2 * r)%Z && Z.odd q)
                   then (q + 1)%Z else q in
          if (q =? 0)%Z then Ok (S754_zero s)
          else int_truediv (if s then - q else q)%Z 100
      | _ => Ok x
      end
  | _ => Ok x
  end.

(** A value of the dictionary returned by [summarize_text]. *)
Inductive pyval :=
| VNone
| VStr (s : pystr)
| VInt (z : Z)
| VFloat (f : spec_float).

Definition dict := gmap pystr pyval.

(** The body of the [try] block of [summarize_text]; the second component
    is the cache after the body. *)
Definition summarize_body (pipeline : pipeline_t) (_summarizer : cache)
    (text : pystr) (max_length min_length : Z) : res dict * cache :=
  (* Handle short texts *)
  if (len (Py.split text) <? 30)%Z then
    (Ok (list_to_map
           [ (str "summary", VStr text);
             (str "note", VStr (str "Text is too short to summarize effectively"));
             (str "original_length", VInt (len (Py.split text)));
             (str "summary_length", VInt (len (Py.split text))) ]),
     _summarizer)
  else
    (* Get summarizer *)
    let '(summarizer, _summarizer) := get_summarizer pipeline _summarizer in
    (* Truncate if necessary *)
    let words := Py.split text in
    let text := if (900 <? len words)%Z then join (str " ") (take 900 words) else text in
    (* Generate summary *)
    (result ← summarizer text max_length min_length;
     first ← index0 result;
     summary ← item first (str "summary_text");
     summary_words ← obj_split summary;
     ratio ← py_truediv (PyInt (len summary_words)) (PyInt (len (Py.split text)));
     rounded ← py_round2 ratio;
     Ok (list_to_map
           [ (str "summary", match summary with OStr s => VStr s | _ => VNone end);
             (str "original_length", VInt (len (Py.split text)));
             (str "summary_length", VInt (len summary_words));
             (str "compression_ratio", VFloat rounded) ]),
     _summarizer).

Definition summarize_text (pipeline : pipeline_t) (_summarizer : cache)
    (text : pystr) (max_length min_length : Z) : res dict * cache :=
  let '(body, _summarizer) :=
    summarize_body pipeline _summarizer text max_length min_length in
  (try_except body
     (fun e =>
        Ok (list_to_map
              [ (str "summary", VNone);
                (str "error", VStr (exn_str e));
                (str "note", VStr (str "Summarization failed")) ])),
   _summarizer).

(** *** Action items and decisions *)

Definition nl : regex := Chr (one newline).

(** [\s*(.*?)(?:\n\n|\Z)], with [.] under [re.DOTALL] *)
Definition block_tail : regex :=
  seq [star space; Group 1 (Rep any 0 None false); alt [seq [nl; nl]; EndZ]].

(** [X?:?] after a literal, then the block *)
Definition header (s : string) : regex :=
  seq [lit s; opt (one (c1 "s")); opt (one (c1 ":")); block_tail].

Definition action_patterns : list regex :=
  [ (* (?i)action items?:?\s*(.*?)(?:\n\n|\Z) *)
    header "action item";
    (* (?i)to[- ]do:?\s*(.*?)(?:\n\n|\Z) *)
    seq [lit "to"; Chr (cls [CChar (c1 "-"); CChar (c1 " ")]); lit "do";
         opt (one (c1 ":")); block_tail];
    (* (?i)tasks?:?\s*(.*?)(?:\n\n|\Z) *)
    header "task";
    (* (?i)next steps?:?\s*(.*?)(?:\n\n|\Z) *)
    header "next step" ].

Definition bullet : char := 8226%N.

(** [\n[-•*]|\n\d+\.] *)
Definition item_delimiter : regex :=
  alt [ seq [nl; Chr (cls [CChar (c1 "-"); CChar bullet; CChar (c1 "*")])];
        seq [nl; plus digit; lit "."] ].

(** [[^.!?\n]] *)
Definition clause_char : charset :=
  ncls [CChar (c1 "."); CChar (c1 "!"); CChar (c1 "?"); CChar newline].

(** [(?i)(?:w1|w2|...)\s+([^.!?\n]{10,hi})] *)
Definition trigger (words : list string) (hi : nat) : regex :=
  seq [alt (map lit words); plus space; Group 1 (between clause_char 10 hi)].

Definition verb_patterns : list regex :=
  [ trigger ["need to"; "must"; "should"; "will"; "going to"; "have to"] 100;
    trigger ["complete"; "finish"; "prepare"; "review"; "update"; "send"; "schedule"] 100 ].

(** [item in items] *)
Definition mem (item : pystr) (items : list pystr) : bool :=
  bool_decide (item ∈ items).

(** The loop "Remove duplicates while preserving order". *)
Fixpoint unique_ci (seen : gset pystr) (items : list pystr) : list pystr :=
  match items with
  | [] => []
  | item :: items' =>
      let item_lower := lower item in
      if bool_decide (item_lower ∈ seen)
      then unique_ci seen items'
      else item :: unique_ci ({[item_lower]} ∪ seen) items'
  end.

Definition extract_action_items (text : pystr) : list pystr :=
  (* Extract using patterns *)
  let action_items :=
    flat_map
      (fun pattern =>
         flat_map
           (fun m =>
              let items_text := group text m 1 in
              let items := Re.split false item_delimiter items_text in
              flat_map
                (fun item =>
                   let item := strip item in
                   if (10 <? len item)%Z then [item] else [])
                items)
           (finditer true pattern text))
      action_patterns in
  (* Also look for verb-based action patterns *)
  let action_items :=
    fold_left
      (fun action_items pattern =>
         fold_left
           (fun action_items m =>
              let item := strip (group0 text m) in
              match item with
              | [] => action_items
              | _ :: _ =>
                  if mem item action_items then action_items
                  else action_items ++ [item]
              end)
           (finditer true pattern text) action_items)
      verb_patterns action_items in
  (* Remove duplicates while preserving order *)
  let unique_items := unique_ci ∅ action_items in
  take 10 unique_items.

Definition decision_patterns : list regex :=
  [ (* (?i)(?:decided|agreed|approved|concluded)\s+(?:to|that|on)\s+([^.!?\n]{10,150}) *)
    seq [ alt (map lit ["decided"; "agreed"; "approved"; "concluded"]);
          plus space;
          alt (map lit ["to"; "that"; "on"]);
          plus space;
          Group 1 (between clause_char 10 150) ];
    (* (?i)(?:decision|resolution|agreement):?\s*([^.!?\n]{10,150}) *)
    seq [ alt (map lit ["decision"; "resolution"; "agreement"]);
          opt (one (c1 ":"));
          star space;
          Group 1 (between clause_char 10 150) ];
    (* (?i)(?:we will|we shall|it was decided)\s+([^.!?\n]{10,150}) *)
    trigger ["we will"; "we shall"; "it was decided"] 150 ].

Definition extract_key_decisions (text : pystr) : list pystr :=
  let decisions :=
    fold_left
      (fun decisions pattern =>
         fold_left
           (fun decisions m =>
              let decision := strip (group0 text m) in
              match decision with
              | [] => decisions
              | _ :: _ =>
                  if mem decision decisions then decisions
                  else decisions ++ [decision]
              end)
           (finditer true pattern text) decisions)
      decision_patterns [] in
  take 5 decisions.

(** *** Readability *)

(** [[.!?]+] *)
Definition sentence_end : regex :=
  plus (cls [CChar (c1 "."); CChar (c1 "!"); CChar (c1 "?")]).

(** [[s.strip() for s in re.split(r'[.!?]+', text) if s.strip()]] *)
Definition sentences_of (text : pystr) : list pystr :=
  List.filter (fun s => match s with [] => false | _ :: _ => true end)
              (map strip (Re.split false sentence_end text)).

Definition calculate_simple_readability (text : pystr) : res Z :=
  let sentences := sentences_of text in
  match sentences with
  | [] => Ok 50%Z
  | _ :: _ =>
      (* Average words per sentence *)
      let words := Py.split text in
      avg_sentence_length ←
        PyFloat <$> py_truediv (PyInt (len words)) (PyInt (len sentences));
      (* Penalize very long sentences *)
      let length_score :=
        py_max (PyInt 0)
               (py_sub (PyInt 100)
                       (py_mul (py_sub avg_sentence_length (PyInt 15)) (PyInt 2))) in
      (* Check for complex words (>7 characters) *)
      let complex_words := List.filter (fun w => (7 <? len w)%Z) words in
      complexity_ratio ←
        match words with
        | _ :: _ => PyFloat <$> py_truediv (PyInt (len complex_words)) (PyInt (len words))
        | [] => Ok (PyInt 0)
        end;
      let complexity_score :=
        py_max (PyInt 0) (py_sub (PyInt 100) (py_mul complexity_ratio (PyInt 100))) in
      (* Combined score *)
      half ← py_truediv (py_add length_score complexity_score) (PyInt 2);
      readability ← py_int (PyFloat half);
      Ok (Z.max 0 (Z.min 100 readability))
  end.

End Ai.

(** ** The ATS score as a function of its sub-factors

    [calculate_ats_score] adds the points of six sub-factors and blends the
    sum with the keyword match.  The definitions below name the points of
    each block of the function, and [combine] is the arithmetic of the
    function on these points, in the order of the source. *)

Module AtsFactors.
Import Py Num Re Ats.

(** "Contact info (15 points)" *)
Definition contact_points (text : pystr) : Z :=
  let contact := extract_contact_info text in
  ((if truthy (email contact) then 8 else 0)
   + (if truthy (phone contact) then 7 else 0))%Z.

(** [sum(sections.values())] *)
Definition sections_present (text : pystr) : Z :=
  len (List.filter id (section_values (check_resume_sections text))).

(** "Skills presence (20 points)" *)
Definition skills_points (text : pystr) : Z :=
  let total_skills := total_skills_of (extract_skills text) in
  if (15 <? total_skills)%Z then 20%Z
  else if (10 <? total_skills)%Z then 15%Z
  else if (5 <? total_skills)%Z then 10%Z
  else 5%Z.

(** "Education (15 points)" *)
Definition education_points (text : pystr) : Z :=
  match extract_education text with
  | _ :: _ => 15%Z
  | [] => 0%Z
  end.

(** "Experience (15 points)" *)
Definition experience_points (text : pystr) : Z :=
  let experience_years := extract_experience_years text in
  if (5 <? experience_years)%Z then 15%Z
  else if (2 <? experience_years)%Z then 10%Z
  else if (0 <? experience_years)%Z then 5%Z
  else 0%Z.

(** [len(text.split())] *)
Definition word_count (text : pystr) : Z := len (Py.split text).

(** "Keyword density (10 points)" *)
Definition word_count_points (text : pystr) : Z :=
  if (400 <? word_count text)%Z && (word_count text <? 800)%Z then 10%Z
  else if (300 <? word_count text)%Z && (word_count text <? 1000)%Z then 7%Z
  else 3%Z.

(** "Job description matching": the keyword match when a job description
    is supplied. *)
Definition keyword_points (text : pystr) (job_description : option pystr)
  : res (option Z) :=
  if truthy job_description
  then Some <$> calculate_keyword_match text (default [] job_description)
  else Ok None.

(** [score += p], which the source skips when a block gives no points. *)
Definition add_points (score : pynum) (p : Z) : pynum :=
  if (p =? 0)%Z then score else py_add score (PyInt p).

(** The sum of the six blocks, before the blending. *)
Definition base_score (c k sk ed ex wc : Z) : res pynum :=
  ratio ← py_truediv (PyInt k) (PyInt 6);
  let score := py_add (PyInt c) (py_mul (PyFloat ratio) (PyInt 25)) in
  Ok (add_points (add_points (add_points (add_points score sk) ed) ex) wc).

(** The blending with the keyword match [m]: the value of [score] when
    the last statement is reached. *)
Definition blend (score : pynum) (m : option Z) : res pynum :=
  match m with
  | Some match_score =>
      blended ← py_int (py_add (py_mul score (PyFloat (literal 7 10)))
                               (py_mul (PyInt match_score) (PyFloat (literal 3 10))));
      Ok (PyInt blended)
  | None => Ok score
  end.

(** The blending and the last statement, [min(int(score), max_score)]. *)
Definition finish (score : pynum) (m : option Z) : res Z :=
  score ← blend score m;
  n ← py_int score;
  Ok (Z.min n 100).

Definition combine (c k sk ed ex wc : Z) (m : option Z) : res Z :=
  score ← base_score c k sk ed ex wc;
  finish score m.

(** The points that the table of the specification gives to a word
    count, with the bounds of each range in the range. *)
Definition word_count_points_spec (n : Z) : Z :=
  if (400 <=? n)%Z && (n <=? 800)%Z then 10%Z
  else if (300 <=? n)%Z && (n <=? 1000)%Z then 7%Z
  else 3%Z.

End AtsFactors.

(** ** Bounds of binary64 values

    The results of the float arithmetic of the source are bounded through
    the values of the numbers.  A value is kept as an integer: the value
    times [2 ^ scale], where [scale] exceeds the exponent of the smallest
    subnormal number. *)

Module FloatBounds.
Import Py Num.
Local Open Scope Z_scope.

(** The digits shifted out are all zero. *)
Definition exact_rec (mrs : shr_record) : bool := negb (shr_r mrs) && negb (shr_s mrs).

(** The exponent of the smallest subnormal number, and the exponent of
    the last digit of a number with [e] digits before the point. *)
Definition femin : Z := -1074.
Definition fx (e : Z) : Z := Z.max (e - 53) femin.

Definition scale : Z := 2200.

(** The value [m * 2 ^ e], times [2 ^ scale]. *)
Definition SV (m e : Z) : Z := m * 2 ^ (e + scale).

(** The exponent of the last digit of a scaled value [X], and the scaled
    values that a binary64 number has. *)
Definition cexp (X : Z) : Z := Z.max (Zdigits2 X - 53) (femin + scale).
Definition repr (B : Z) : Prop := (2 ^ cexp (Z.abs B) | B).
Definition reprb (B : Z) : bool := (B mod 2 ^ cexp (Z.abs B) =? 0).

(** A zero or a finite number of sign [s] with its absolute value between
    [LO] and [HI]. *)
Definition absin (s : bool) (f : spec_float) (LO HI : Z) : Prop :=
  match f with
  | S754_zero s' => s' = s /\ LO <= 0 <= HI
  | S754_finite s' p E =>
      s' = s /\ bounded prec emax p E = true /\ LO <= SV (Zpos p) E <= HI
  | _ => False
  end.

Definition sgn (s : bool) : Z := if s then -1 else 1.

(** The value of a finite number, times [2 ^ scale]. *)
Definition fval (f : spec_float) : Z :=
  match f with
  | S754_finite s m e => sgn s * SV (Zpos m) e
  | _ => 0
  end.

(** A zero or a finite number of the format. *)
Definition valid (f : spec_float) : Prop :=
  match f with
  | S754_zero _ => True
  | S754_finite _ m e => bounded prec emax m e = true
  | _ => False
  end.

(** A number of the format with its scaled value between [LO] and [HI]. *)
Definition within (f : spec_float) (LO HI : Z) : Prop :=
  valid f /\ LO <= fval f <= HI.

(** A Python number between two integers. *)
Definition nin (x : pynum) (lo hi : Z) : Prop :=
  match x with
  | PyInt z => lo <= z <= hi
  | PyFloat f => within f (lo * 2 ^ scale) (hi * 2 ^ scale)
  end.

(** [f > 0] *)
Definition is_pos (f : spec_float) : bool :=
  match f with
  | S754_finite false _ _ => true
  | _ => false
  end.

End FloatBounds.

(** ** The score table *)

Module ScoreTable.
Import Py Num Re Ats AtsFactors.
Local Open Scope Z_scope.

Definition contact_levels : list Z := [0; 7; 8; 15].
Definition section_levels : list Z := [0; 1; 2; 3; 4; 5; 6].
Definition skills_levels : list Z := [5; 10; 15; 20].
Definition education_levels : list Z := [0; 15].
Definition experience_levels : list Z := [0; 5; 10; 15].
Definition word_levels : list Z := [3; 7; 10].
Definition match_levels : list Z := map Z.of_nat (List.seq 0 101).

(** Six times the sum of the points before the blending. *)
Definition key (c k sk ed ex wc : Z) : Z := 6 * (c + sk + ed + ex + wc) + 25 * k.

Definition tuples : list (Z * Z * Z * Z * Z * Z) :=
  flat_map (fun c => flat_map (fun k => flat_map (fun sk => flat_map (fun ed =>
  flat_map (fun ex => map (fun wc => (c, k, sk, ed, ex, wc)) word_levels)
    experience_levels) education_levels) skills_levels) section_levels) contact_levels.

(** The sum of the points as a binary64 number, for every value of [key]
    that the levels reach, in increasing order of the key. *)
Definition base_table : list (Z * spec_float) :=
  Eval vm_compute in
    omap (fun n =>
            let kk := 48 + Z.of_nat n in
            match List.find (fun '(c, k, sk, ed, ex, wc) => key c k sk ed ex wc =? kk) tuples with
            | Some (c, k, sk, ed, ex, wc) =>
                match base_score c k sk ed ex wc with
                | Ok (PyFloat b) => Some (kk, b)
                | _ => None
                end
            | None => None
            end)
         (List.seq 0 553).

Fixpoint lookup_key (kk : Z) (l : list (Z * spec_float)) : option spec_float :=
  match l with
  | [] => None
  | (k, b) :: l' => if k =? kk then Some b else lookup_key kk l'
  end.

Definition float_eqb (a b : spec_float) : bool :=
  match a, b with
  | S754_finite s m e, S754_finite s' m' e' =>
      Bool.eqb s s' && (m =? m')%positive && (e =? e')
  | S754_zero s, S754_zero s' => Bool.eqb s s'
  | _, _ => false
  end.

Definition base_entry_ok (c k sk ed ex wc : Z) : bool :=
  match base_score c k sk ed ex wc, lookup_key (key c k sk ed ex wc) base_table with
  | Ok (PyFloat b), Some b' => float_eqb b b'
  | _, _ => false
  end.

(** [0.7], and [match_score * 0.3] for the scores 0 to 100. *)
Definition c07 : spec_float := Eval vm_compute in literal 7 10.
Definition Qs : list spec_float :=
  Eval vm_compute in map (fun m => fmul (of_Z m) (literal 3 10)) match_levels.

(** [min(int(x), 100)], and -1 where [int] raises. *)
Definition value (x : spec_float) : Z :=
  match py_int (PyFloat x) with
  | Ok n => Z.min n 100
  | Raise _ => -1
  end.

(** The scores for a sum of points: without a job description first, then
    for the match scores 0 to 100. *)
Definition row (b : spec_float) : list Z :=
  let p := fmul b c07 in
  value b :: map (fun q => value (fadd p q)) Qs.

Fixpoint row_mono (r : list Z) : bool :=
  match r with
  | a :: (b :: _) as tl => (a <=? b) && row_mono tl
  | _ => true
  end.

Fixpoint rows_le (r1 r2 : list Z) : bool :=
  match r1, r2 with
  | a :: r1', b :: r2' => (a <=? b) && rows_le r1' r2'
  | [], [] => true
  | _, _ => false
  end.

Definition row_ok (r : list Z) : bool :=
  match r with
  | plain :: blended =>
      (8 <=? plain) && (plain <=? 100)
      && forallb (fun x => (5 <=? x) && (x <=? 100)) blended
      && row_mono blended
      && (length blended =? 101)%nat
  | [] => false
  end.

Fixpoint sorted_rows (l : list (Z * list Z)) : bool :=
  match l with
  | (k1, r1) :: ((k2, r2) :: _) as tl => (k1 <? k2) && rows_le r1 r2 && sorted_rows tl
  | _ => true
  end.

Definition rows : list (Z * list Z) :=
  Eval vm_compute in map (fun kb => (fst kb, row (snd kb))) base_table.

(** The points of the six blocks, at the levels that the source gives. *)
Definition points_ok (c k sk ed ex wc : Z) : Prop :=
  In c contact_levels /\ In k section_levels /\ In sk skills_levels
  /\ In ed education_levels /\ In ex experience_levels /\ In wc word_levels.

(** The column of a row for a keyword match. *)
Definition col (m : option Z) : nat :=
  match m with
  | None => 0%nat
  | Some a => S (Z.to_nat a)
  end.

Definition match_ok (m : option Z) : Prop :=
  match m with
  | None => True
  | Some a => 0 <= a <= 100
  end.

(** The order of the keyword matches: both absent, or both present. *)
Definition match_le (m1 m2 : option Z) : Prop :=
  match m1, m2 with
  | None, None => True
  | Some a, Some b => a <= b
  | _, _ => False
  end.

End ScoreTable.

(** ** The sub-factors of the ATS score *)

Module Factors.
Import Py Num Re Ats AtsFactors.

(** The sub-factors of the score. *)
Inductive factor :=
| Contact | Sections | Skills | Education | Experience | WordCount | KeywordMatch.

#[global] Instance factor_eq_dec : EqDecision factor.
Proof. solve_decision. Defined.

(** The value of a sub-factor on an input. *)
Inductive value :=
| VContact (has_email has_phone : bool)
| VSections (present : Z)
| VSkills (total_skills : Z)
| VEducation (has_education : bool)
| VExperience (experience_years : Z)
| VWordCount (tier : Z)
| VKeywordMatch (match_score : res (option Z)).

Definition factor_value (f : factor) (text : pystr) (job_description : option pystr)
  : value :=
  match f with
  | Contact => VContact (truthy (email (extract_contact_info text)))
                        (truthy (phone (extract_contact_info text)))
  | Sections => VSections (sections_present text)
  | Skills => VSkills (total_skills_of (extract_skills text))
  | Education => VEducation (match extract_education text with [] => false | _ => true end)
  | Experience => VExperience (extract_experience_years text)
  | WordCount => VWordCount (word_count_points text)
  | KeywordMatch => VKeywordMatch (keyword_points text job_description)
  end.

(** What a sub-factor contributes: its points, for the sections the number
    of the sections found, which the points [25 * present / 6] grow with,
    and for the keyword match the match score, where there is one. *)
Definition factor_points (f : factor) (text : pystr) (job_description : option pystr)
  : option Z :=
  match f with
  | Contact => Some (contact_points text)
  | Sections => Some (sections_present text)
  | Skills => Some (skills_points text)
  | Education => Some (education_points text)
  | Experience => Some (experience_points text)
  | WordCount => Some (word_count_points text)
  | KeywordMatch =>
      match keyword_points text job_description with
      | Ok m => m
      | Raise _ => None
      end
  end.

(** At least as many points: both absent, or both present and ordered. *)
Definition points_le (p1 p2 : option Z) : Prop :=
  match p1, p2 with
  | None, None => True
  | Some a, Some b => (a <= b)%Z
  | _, _ => False
  end.

(** Two texts that differ in the skills alone. *)
Definition text_one_skill : pystr := str "python".
Definition text_six_skills : pystr := str "python java sql docker react aws".

End Factors.

(** ** The sub-scores of [calculate_simple_readability] *)

Module Readability.
Import Py Num Ai.

(** [len(words) / len(sentences)] *)
Definition average_sentence_length (text : pystr) : res pynum :=
  PyFloat <$> py_truediv (PyInt (len (Py.split text))) (PyInt (len (sentences_of text))).

(** [max(0, 100 - (avg_sentence_length - 15) * 2)] *)
Definition length_score (avg_sentence_length : pynum) : pynum :=
  py_max (PyInt 0)
         (py_sub (PyInt 100) (py_mul (py_sub avg_sentence_length (PyInt 15)) (PyInt 2))).

(** [len(complex_words) / len(words) if words else 0] *)
Definition complexity_ratio (text : pystr) : res pynum :=
  let words := Py.split text in
  match words with
  | _ :: _ =>
      PyFloat <$> py_truediv (PyInt (len (List.filter (fun w => (7 <? len w)%Z) words)))
                             (PyInt (len words))
  | [] => Ok (PyInt 0)
  end.

(** [max(0, 100 - complexity_ratio * 100)] *)
Definition complexity_score (complexity_ratio : pynum) : pynum :=
  py_max (PyInt 0) (py_sub (PyInt 100) (py_mul complexity_ratio (PyInt 100))).

(** [max(0, min(100, readability))] *)
Definition clamp (readability : Z) : Z := Z.max 0 (Z.min 100 readability).

(** The length sub-score in the words of the specification: 100, less 2
    points for each word of the average above 15, and not below 0. *)
Definition length_score_spec (avg_sentence_length : pynum) : pynum :=
  py_max (PyInt 0)
         (py_sub (PyInt 100)
                 (py_mul (py_max (PyInt 0) (py_sub avg_sentence_length (PyInt 15)))
                         (PyInt 2))).

(** The score in the words of the specification. *)
Definition readability_spec (text : pystr) : res Z :=
  match sentences_of text with
  | [] => Ok 50%Z
  | _ :: _ =>
      avg ← average_sentence_length text;
      ratio ← complexity_ratio text;
      half ← py_truediv (py_add (length_score_spec avg) (complexity_score ratio)) (PyInt 2);
      readability ← py_int (PyFloat half);
      Ok (clamp readability)
  end.

(** A text of one sentence of one long word. *)
Definition text_one_long_word : pystr := str "Internationalization.".

End Readability.

(** ** The failures of [summarize_text] *)

Module Summarize.
Import Py Num Ai.

(** The summarization capability is unavailable: [transformers] could not
    be imported, or the model could not be loaded. *)
Definition unavailable (pipeline : pipeline_t) : Prop :=
  pipeline = None \/ exists e, pipeline = Some (Raise e).

(** The text that is given to the summarizer: at most 900 words. *)
Definition truncated (text : pystr) : pystr :=
  let words := Py.split text in
  if (900 <? len words)%Z then join (str " ") (take 900 words) else text.

(** The result of the handler of [summarize_text]. *)
Definition failure (e : exn) : dict :=
  list_to_map
    [ (str "summary", VNone);
      (str "error", VStr (exn_str e));
      (str "note", VStr (str "Summarization failed")) ].

(** A text of 30 words. *)
Definition text_30_words : pystr := concat (repeat (str "word ") 30).

End Summarize.

(** ** [app/ats_service.py]: suggestions and the complete analysis *)

Module AtsReport.
Import Py Num Re Ats.

(** [str(n)] for an [int] *)
Definition str_of_Z (n : Z) : pystr := str (NilZero.string_of_int (Z.to_int n)).

(** The double quote, which the texts of the suggestions contain. *)
Definition dq : pystr := [34%N].

(** A suggestion: a dictionary with the four keys below. *)
Record suggestion := Suggestion {
  priority : pystr;
  category : pystr;
  issue : pystr;
  suggestion_text : pystr
}.

(** [\d+%|\$\d+|\d+\+] *)
Definition number_re : regex :=
  alt [ seq [plus digit; Chr (one (c1 "%"))];
        seq [Chr (one (c1 "$")); plus digit];
        seq [plus digit; Chr (one (c1 "+"))] ].

Definition missing_email : suggestion :=
  {| priority := str "high";
     category := str "contact";
     issue := str "Missing email address";
     suggestion_text :=
       str "Add a professional email address at the top of your resume" |}.

Definition missing_phone : suggestion :=
  {| priority := str "high";
     category := str "contact";
     issue := str "Missing phone number";
     suggestion_text := str "Include a phone number for easy contact" |}.

Definition no_summary : suggestion :=
  {| priority := str "medium";
     category := str "structure";
     issue := str "No professional summary";
     suggestion_text :=
       str "Add a 2-3 sentence professional summary at the top highlighting your key strengths" |}.

Definition no_skills_section : suggestion :=
  {| priority := str "high";
     category := str "structure";
     issue := str "No skills section";
     suggestion_text :=
       str "Create a dedicated " ++ dq ++ str "Skills" ++ dq
       ++ str " section listing your technical and soft skills" |}.

Definition no_projects : suggestion :=
  {| priority := str "medium";
     category := str "content";
     issue := str "No projects section";
     suggestion_text :=
       str "Add a " ++ dq ++ str "Projects" ++ dq
       ++ str " section showcasing your practical work and achievements" |}.

Definition limited_skills (total_skills : Z) : suggestion :=
  {| priority := str "medium";
     category := str "skills";
     issue := str "Limited skills listed";
     suggestion_text :=
       str "You have only " ++ str_of_Z total_skills
       ++ str " skills listed. Add more relevant technical and soft skills (aim for 12-15)" |}.

Definition no_numbers : suggestion :=
  {| priority := str "medium";
     category := str "content";
     issue := str "Lack of quantifiable achievements";
     suggestion_text :=
       str "Add numbers and metrics to your accomplishments (e.g., " ++ dq
       ++ str "Increased efficiency by 30%" ++ dq ++ str ", " ++ dq
       ++ str "Managed $50K budget" ++ dq ++ str ")" |}.

(** [suggestions.append(s)] under [if c] *)
Definition append_if (c : bool) (s : suggestion) (suggestions : list suggestion)
  : list suggestion :=
  if c then suggestions ++ [s] else suggestions.

Definition get_improvement_suggestions_ats (text : pystr) (sections : sections)
    (skills : skills) (contact : contact_info) : list suggestion :=
  let suggestions := [] in
  (* Contact info *)
  let suggestions := append_if (negb (truthy (email contact))) missing_email suggestions in
  let suggestions := append_if (negb (truthy (phone contact))) missing_phone suggestions in
  (* Sections *)
  let suggestions := append_if (negb (sec_summary sections)) no_summary suggestions in
  let suggestions := append_if (negb (sec_skills sections)) no_skills_section suggestions in
  let suggestions := append_if (negb (sec_projects sections)) no_projects suggestions in
  (* Skills count *)
  let total_skills := total_skills_of skills in
  let suggestions :=
    append_if (total_skills <? 8)%Z (limited_skills total_skills) suggestions in
  (* Quantification check *)
  let numbers := findall false number_re text in
  let suggestions := append_if (len numbers <? 3)%Z no_numbers suggestions in
  suggestions.

(** The dictionary that [analyze_resume] returns; [total_count] is the
    entry of that name of the inner dictionary [skills]. *)
Record analysis := Analysis {
  document_type : pystr;
  ats_score : Z;
  contact_info_of : contact_info;
  skills_of : skills;
  total_count : Z;
  education : list education_entry;
  experience_years : Z;
  sections_present : sections;
  sections_score : pystr;
  keyword_match_score : option Z;
  suggestions : list suggestion;
  suggestion_count : Z;
  word_count : Z;
  analyzed_at : pystr
}.

(** [now] is [datetime.utcnow().isoformat()], read when the dictionary is
    built. *)
Definition analyze_resume (now : pystr) (text : pystr) (job_description : option pystr)
  : res analysis :=
  (* Extract all information *)
  let contact := extract_contact_info text in
  let skills := extract_skills text in
  let education := extract_education text in
  let experience_years := extract_experience_years text in
  let sections := check_resume_sections text in
  ats_score ← calculate_ats_score text job_description;
  (* Generate suggestions *)
  let suggestions := get_improvement_suggestions_ats text sections skills contact in
  (* Keyword match if job description provided *)
  keyword_match ←
    (if truthy job_description
     then Some <$> calculate_keyword_match text (default [] job_description)
     else Ok None);
  Ok {| document_type := str "resume";
        ats_score := ats_score;
        contact_info_of := contact;
        skills_of := skills;
        total_count := total_skills_of skills;
        education := education;
        experience_years := experience_years;
        sections_present := sections;
        sections_score :=
          str_of_Z (len (List.filter id (section_values sections))) ++ str "/"
          ++ str_of_Z (len (section_values sections));
        keyword_match_score := keyword_match;
        suggestions := suggestions;
        suggestion_count := len suggestions;
        word_count := len (Py.split text);
        analyzed_at := now |}.

End AtsReport.

(** ** The keywords of [calculate_keyword_match] *)

Module Keywords.
Import Py Num Re Ats.

(** [set(re.findall(r'\b[a-z]{3,}\b', text.lower()))] *)
Definition keywords (text : pystr) : gset pystr :=
  list_to_set (findall false token_re (lower text)).

(** The keywords of a job description, without the words to ignore. *)
Definition jd_keywords (job_description : pystr) : gset pystr :=
  keywords job_description ∖ stop_words.

End Keywords.

(** ** The effect of a job description on a row of the score table *)

Module JobDescription.
Import Py Num.
Local Open Scope Z_scope.

(** Every blended score of the row is the plain score less 30 at the
    least and plus 27 at the most; the one for the match 0 is the plain
    score less 3 at the most, the one for the match 100 is the plain
    score at the least. *)
Definition jd_effect_ok (r : list Z) : bool :=
  match r with
  | plain :: blended =>
      forallb (fun x => (plain - 30 <=? x) && (x <=? plain + 27)) blended
      && (nth 0 blended 0 <=? plain - 3)
      && (plain <=? nth 100 blended 0)
  | [] => false
  end.

End JobDescription.

(** ** A resume that draws no suggestion *)

Module Examples.
Import Py.

Definition complete_resume : pystr :=
  str "jane@example.com 555-123-4567 summary skills projects python java sql docker react aws git linux 30% 40% 50%".

End Examples.

(** ** What a match consumes *)

Module Consumed.
Import Py Re.

(** The state [st'] is [st] after the characters [a]. *)
Definition advances (st st' : mstate) (a : pystr) : Prop :=
  ms_rest st = a ++ ms_rest st'
  /\ ms_pos st' = (ms_pos st + length a)%nat
  /\ ms_prev st' = match last a with Some c => Some c | None => ms_prev st end.

(** A character of a phone number: a digit, [-] or [.]. *)
Definition phone_char (c : char) : bool :=
  is_digit c || (c =? c1 "-")%N || (c =? c1 ".")%N.

(** Two states at the same place of the text. *)
Definition same_place (st st' : mstate) : Prop :=
  ms_prev st = ms_prev st' /\ ms_rest st = ms_rest st' /\ ms_pos st = ms_pos st'.

(** Two continuations that succeed at the same places. *)
Definition same_success (k k' : mstate -> option mstate) : Prop :=
  forall st st', same_place st st' -> (is_Some (k st) <-> is_Some (k' st')).

(** A text with an email address, and one with a phone number. *)
Definition text_with_email : pystr := str "Write to jane@example.com today".
Definition text_with_phone : pystr := str "Call 555-123-4567 today".

End Consumed.

(** ** Words *)

Module Words.
Import Py.

(** A word: a string that is not empty and has no white space. *)
Definition is_word_str (w : pystr) : Prop :=
  w <> [] /\ Forall (fun c => is_space c = false) w.

End Words.

(* ===================================================================== *)
(** * Part II: properties                                                 *)
(* ===================================================================== *)

Section AtsDecomposition.
Import Py Num Re Ats AtsFactors.
Local Open Scope Z_scope.

(** The function is the arithmetic of [base_score] and [finish] on the
    points of its blocks. *)
Lemma calculate_ats_score_factors text job_description :
  calculate_ats_score text job_description =
  (score ← base_score (contact_points text) (sections_present text)
             (skills_points text) (education_points text) (experience_points text)
             (word_count_points text);
   m ← keyword_points text job_description;
   finish score m).
Proof.
  unfold calculate_ats_score, keyword_points, base_score, finish, blend,
    contact_points, sections_present, skills_points, education_points,
    experience_points, word_count_points, word_count.
  set (sk := total_skills_of _). set (ey := extract_experience_years _).
  set (wc := len (Py.split text)).
  set (sv := section_values _).
  assert (Hlen : len sv = 6) by reflexivity. rewrite Hlen.
  destruct (py_truediv (PyInt (len (List.filter id sv))) (PyInt 6)) as [ratio|e];
    [|reflexivity].
  cbn [mbind res_bind].
  assert (Hc : (if truthy (phone (extract_contact_info text))
                then py_add (if truthy (email (extract_contact_info text))
                             then py_add (PyInt 0) (PyInt 8) else PyInt 0) (PyInt 7)
                else if truthy (email (extract_contact_info text))
                     then py_add (PyInt 0) (PyInt 8) else PyInt 0)
               = PyInt ((if truthy (email (extract_contact_info text)) then 8 else 0)
                        + (if truthy (phone (extract_contact_info text)) then 7 else 0))).
  { destruct (truthy (email _)), (truthy (phone _)); reflexivity. }
  rewrite Hc. clear Hc.
  set (s0 := py_add _ (py_mul (PyFloat ratio) (PyInt 25))).
  assert (Hk : forall s, (if 15 <? sk then py_add s (PyInt 20)
                     else if 10 <? sk then py_add s (PyInt 15)
                     else if 5 <? sk then py_add s (PyInt 10)
                     else py_add s (PyInt 5))
                    = add_points s (if 15 <? sk then 20 else if 10 <? sk then 15
                                    else if 5 <? sk then 10 else 5)).
  { intros s. destruct (15 <? sk), (10 <? sk), (5 <? sk); reflexivity. }
  rewrite Hk. clear Hk.
  set (s1 := add_points s0 _).
  assert (He : match extract_education text with
               | [] => s1 | _ :: _ => py_add s1 (PyInt 15) end
               = add_points s1 (match extract_education text with
                                | [] => 0 | _ :: _ => 15 end)).
  { destruct (extract_education text); reflexivity. }
  rewrite He. clear He.
  set (s2 := add_points s1 _).
  assert (Hx : (if 5 <? ey then py_add s2 (PyInt 15)
                else if 2 <? ey then py_add s2 (PyInt 10)
                else if 0 <? ey then py_add s2 (PyInt 5) else s2)
               = add_points s2 (if 5 <? ey then 15 else if 2 <? ey then 10
                                else if 0 <? ey then 5 else 0)).
  { destruct (5 <? ey), (2 <? ey), (0 <? ey); reflexivity. }
  rewrite Hx. clear Hx.
  set (s3 := add_points s2 _).
  assert (Hw : (if (400 <? wc) && (wc <? 800) then py_add s3 (PyInt 10)
                else if (300 <? wc) && (wc <? 1000) then py_add s3 (PyInt 7)
                else py_add s3 (PyInt 3))
               = add_points s3 (if (400 <? wc) && (wc <? 800) then 10
                                else if (300 <? wc) && (wc <? 1000) then 7 else 3)).
  { destruct ((400 <? wc) && (wc <? 800)), ((300 <? wc) && (wc <? 1000)); reflexivity. }
  rewrite Hw. clear Hw.
  set (s4 := add_points s3 _).
  destruct (truthy job_description); [|reflexivity].
  destruct (calculate_keyword_match text (default [] job_description)); reflexivity.
Qed.

End AtsDecomposition.

(** ** Strings *)

Section StringFacts.
Import Py.

Lemma startswith_iff (p s : pystr) :
  startswith p s = true <-> exists post, s = p ++ post.
Proof.
  revert s. induction p as [|a p IH]; intros s; simpl.
  - split; [intros _; exists s; reflexivity | reflexivity].
  - destruct s as [|b s].
    + split; [discriminate | intros [post H]; discriminate].
    + rewrite andb_true_iff, N.eqb_eq, IH. split.
      * intros [-> [post ->]]. exists post. reflexivity.
      * intros [post H]. injection H as -> ->. split; [reflexivity | eauto].
Qed.

(** [p in s] holds exactly when [p] is a substring of [s]. *)
Lemma contains_iff (p s : pystr) :
  contains p s = true <-> exists pre post, s = pre ++ p ++ post.
Proof.
  induction s as [|c s IH]; simpl; rewrite orb_true_iff, startswith_iff.
  - split.
    + intros [[post H]|H]; [|discriminate]. exists [], post. exact H.
    + intros [pre [post H]]. left. destruct pre; [|discriminate].
      exists post. exact H.
  - rewrite IH. split.
    + intros [[post H]|[pre [post H]]].
      * exists [], post. exact H.
      * exists (c :: pre), post. rewrite H. reflexivity.
    + intros [pre [post H]]. destruct pre as [|c' pre].
      * left. exists post. exact H.
      * right. injection H as -> ->. exists pre, post. reflexivity.
Qed.

(** A string occurs in a text without regard to case when a substring of
    the text lower-cases to it. *)
Definition occurs_ci (k text : pystr) : Prop :=
  exists pre mid post, text = pre ++ mid ++ post /\ lower mid = k.

Lemma contains_lower_iff (k text : pystr) :
  contains k (lower text) = true <-> occurs_ci k text.
Proof.
  rewrite contains_iff. unfold occurs_ci, lower. split.
  - intros [pre' [post' H]].
    apply List.map_eq_app in H as [pre [rest [-> [Hpre H]]]].
    apply List.map_eq_app in H as [mid [post [-> [Hmid Hpost]]]].
    exists pre, mid, post. split; [reflexivity | exact Hmid].
  - intros [pre [mid [post [-> Hmid]]]].
    exists (map lower_char pre), (map lower_char post).
    rewrite !List.map_app, Hmid. reflexivity.
Qed.

End StringFacts.

(** ** [extract_skills] *)

Section ExtractSkills.
Import Py Ats.

(** One round of the loop over [TECH_SKILLS.items()]. *)
Let step (text_lower : pystr) (acc : gmap pystr (list pystr))
    (entry : pystr * list pystr) : gmap pystr (list pystr) :=
  let '(category, skills_list) := entry in
  let found := List.filter (fun skill => contains skill text_lower) skills_list in
  match found with
  | [] => acc
  | _ :: _ => <[category := found]> acc
  end.

Lemma fold_step_lookup text_lower (table : list (pystr * list pystr)) acc category :
  NoDup (map fst table) ->
  fold_left (step text_lower) table acc !! category =
  match List.find (fun entry => bool_decide (fst entry = category)) table with
  | Some (_, skills_list) =>
      match List.filter (fun skill => contains skill text_lower) skills_list with
      | [] => acc !! category
      | found => Some found
      end
  | None => acc !! category
  end.
Proof.
  revert acc. induction table as [|[c sl] table IH]; intros acc Hnd; [reflexivity|].
  apply NoDup_cons in Hnd as [Hc Hnd]. cbn [fold_left List.find fst].
  rewrite IH by exact Hnd. case_bool_decide as Heq.
  - subst c.
    assert (Hnone : List.find (fun entry => bool_decide (fst entry = category)) table = None).
    { destruct (List.find _ table) as [[c' sl']|] eqn:Hf; [|reflexivity].
      apply List.find_some in Hf as [Hin Hb]. apply bool_decide_eq_true in Hb.
      simpl in Hb. subst c'. exfalso. apply Hc.
      apply list_elem_of_In. apply (List.in_map fst) in Hin. exact Hin. }
    rewrite Hnone. unfold step. cbv zeta.
    destruct (List.filter _ sl); [reflexivity | apply lookup_insert_eq].
  - assert (Hacc : step text_lower acc (c, sl) !! category = acc !! category).
    { unfold step. cbv zeta. destruct (List.filter _ sl); [reflexivity|].
      apply lookup_insert_ne. exact Heq. }
    rewrite Hacc. reflexivity.
Qed.

Lemma TECH_SKILLS_NoDup : NoDup (map fst TECH_SKILLS).
Proof. apply (bool_decide_eq_true_1 (NoDup (map fst TECH_SKILLS))). vm_compute. reflexivity. Qed.

Lemma find_TECH_SKILLS category skills_list :
  (category, skills_list) ∈ TECH_SKILLS ->
  List.find (fun entry => bool_decide (fst entry = category)) TECH_SKILLS
  = Some (category, skills_list).
Proof.
  intros Hin. unfold TECH_SKILLS in *.
  repeat (apply elem_of_cons in Hin as [Hin|Hin];
          [injection Hin as -> ->; vm_compute; reflexivity|]).
  apply elem_of_nil in Hin. destruct Hin.
Qed.

Lemma technical_lookup text category :
  technical (extract_skills text) !! category =
  match List.find (fun entry => bool_decide (fst entry = category)) TECH_SKILLS with
  | Some (_, skills_list) =>
      match List.filter (fun skill => contains skill (lower text)) skills_list with
      | [] => None
      | found => Some found
      end
  | None => None
  end.
Proof.
  unfold extract_skills. cbn [technical].
  pose proof (fold_step_lookup (lower text) TECH_SKILLS ∅ category TECH_SKILLS_NoDup) as H.
  rewrite lookup_empty in H. exact H.
Qed.

(** C10: the technical mapping of [extract_skills] has a key for a
    category exactly when a skill of the vocabulary of the category is a
    substring of the lower-cased text; a key that is present is a category
    of [TECH_SKILLS] and holds the matched skills of that category, in the
    order of the vocabulary, a list that is not empty. *)
Theorem extract_skills_technical_keys text category skills_list :
  (category, skills_list) ∈ TECH_SKILLS ->
  (is_Some (technical (extract_skills text) !! category) <->
   exists skill, skill ∈ skills_list /\
     exists pre post, lower text = pre ++ skill ++ post)
  /\ (forall c found, technical (extract_skills text) !! c = Some found ->
        found <> [] /\
        exists vocabulary, (c, vocabulary) ∈ TECH_SKILLS /\
          found = List.filter (fun skill => contains skill (lower text)) vocabulary).
Proof.
  intros Hin. split.
  - rewrite technical_lookup, (find_TECH_SKILLS _ _ Hin).
    destruct (List.filter _ skills_list) as [|x l] eqn:Hf.
    + split; [intros [? H]; discriminate|].
      intros [skill [Hs Hsub]]. apply contains_iff in Hsub.
      assert (Hx : In skill (List.filter (fun skill => contains skill (lower text)) skills_list)).
      { apply List.filter_In. split; [apply list_elem_of_In; exact Hs | exact Hsub]. }
      rewrite Hf in Hx. destruct Hx.
    + split; [intros _ | intros _; eexists; reflexivity].
      assert (Hx : In x (List.filter (fun skill => contains skill (lower text)) skills_list)).
      { rewrite Hf. left. reflexivity. }
      apply List.filter_In in Hx as [Hx1 Hx2]. exists x. split.
      * apply list_elem_of_In. exact Hx1.
      * apply contains_iff. exact Hx2.
  - intros c found. rewrite technical_lookup.
    destruct (List.find _ TECH_SKILLS) as [[c' vocabulary]|] eqn:Hfind; [|discriminate].
    apply List.find_some in Hfind as [Hin' Hc]. apply bool_decide_eq_true in Hc.
    simpl in Hc. subst c'.
    destruct (List.filter _ vocabulary) as [|x l] eqn:Hf; [discriminate|].
    intros H. injection H as <-. split; [discriminate|].
    exists vocabulary. split; [apply list_elem_of_In; exact Hin' | symmetry; exact Hf].
Qed.

Lemma extract_skills_technical_keys_witness :
  (str "languages",
   map str ["python"; "java"; "javascript"; "typescript"; "c++"; "c#"; "ruby";
            "php"; "swift"; "kotlin"; "go"; "rust"; "scala"]) ∈ TECH_SKILLS
  /\ is_Some (technical (extract_skills (str "Python and Rust")) !! str "languages").
Proof.
  assert (H : (str "languages",
               map str ["python"; "java"; "javascript"; "typescript"; "c++"; "c#";
                        "ruby"; "php"; "swift"; "kotlin"; "go"; "rust"; "scala"])
              ∈ TECH_SKILLS) by (unfold TECH_SKILLS; apply list_elem_of_here).
  split; [exact H|].
  apply (proj1 (extract_skills_technical_keys (str "Python and Rust") _ _ H)).
  exists (str "python"). split.
  - apply list_elem_of_here.
  - exists [], (str " and rust"). reflexivity.
Defined.

End ExtractSkills.

(** ** [re.search] *)

Section SearchFacts.
Import Py Re.

(** The pattern matches somewhere in the text: at the end of a prefix
    [pre], with the last character of [pre] before the position. *)
Definition occurs_re (ic : bool) (r : regex) (text : pystr) : Prop :=
  exists pre rest, text = pre ++ rest /\
    is_Some (rmatch ic r Some (MState (last pre) rest (length pre) [])).

(** The character before the position after reading [a] from a position
    that has [prev] before it. *)
Definition prev_after (prev : option char) (a : pystr) : option char :=
  match last a with
  | Some c => Some c
  | None => prev
  end.

Lemma prev_after_cons prev c a : prev_after prev (c :: a) = prev_after (Some c) a.
Proof.
  unfold prev_after. destruct a as [|d a]; [reflexivity|].
  rewrite last_cons. destruct (last (d :: a)) eqn:H; [reflexivity|].
  apply last_None in H. discriminate.
Qed.

Lemma search_from_iff ic r prev rest pos :
  is_Some (search_from ic r prev rest pos) <->
  exists a b, rest = a ++ b /\
    is_Some (rmatch ic r Some (MState (prev_after prev a) b (pos + length a) [])).
Proof.
  revert prev pos. induction rest as [|c rest IH]; intros prev pos; simpl.
  - destruct (rmatch ic r Some (MState prev [] pos [])) eqn:Hm.
    + split; [intros _ | intros _; eexists; reflexivity].
      exists [], []. split; [reflexivity|]. simpl.
      rewrite Nat.add_0_r. unfold prev_after. simpl. rewrite Hm. eexists; reflexivity.
    + split; [intros [? H]; discriminate|].
      intros [a [b [Hab H]]]. symmetry in Hab. apply app_eq_nil in Hab as [-> ->].
      simpl in H. rewrite Nat.add_0_r in H. unfold prev_after in H. simpl in H.
      rewrite Hm in H. destruct H as [? H]. discriminate.
  - destruct (rmatch ic r Some (MState prev (c :: rest) pos [])) eqn:Hm.
    + split; [intros _ | intros _; eexists; reflexivity].
      exists [], (c :: rest). split; [reflexivity|]. simpl.
      rewrite Nat.add_0_r. unfold prev_after. simpl. rewrite Hm. eexists; reflexivity.
    + rewrite IH. split.
      * intros [a [b [-> H]]]. exists (c :: a), b. split; [reflexivity|].
        rewrite prev_after_cons. simpl length.
        replace (pos + S (length a)) with (S pos + length a) by lia. exact H.
      * intros [a [b [Hab H]]]. destruct a as [|c' a].
        -- simpl in *. subst b. rewrite Nat.add_0_r in H.
           unfold prev_after in H. simpl in H. rewrite Hm in H.
           destruct H as [? H]. discriminate.
        -- injection Hab as <- ->. exists a, b. split; [reflexivity|].
           rewrite prev_after_cons in H. simpl length in H.
           replace (pos + S (length a)) with (S pos + length a) in H by lia. exact H.
Qed.

(** [re.search] finds a match exactly when the pattern matches somewhere
    in the text. *)
Lemma search_iff ic r text :
  is_Some (search ic r text) <-> occurs_re ic r text.
Proof.
  unfold search, occurs_re. rewrite fmap_is_Some, search_from_iff.
  unfold prev_after. split.
  - intros [a [b [-> H]]]. exists a, b. split; [reflexivity|].
    simpl in H. destruct (last a); exact H.
  - intros [a [b [-> H]]]. exists a, b. split; [reflexivity|].
    simpl. destruct (last a); exact H.
Qed.

End SearchFacts.

(** ** [detect_document_type] *)

Section DetectDocumentType.
Import Py Re Ats.
Local Open Scope Z_scope.

Lemma found_iff ic r text : found ic r text = true <-> occurs_re ic r text.
Proof.
  rewrite <- search_iff. unfold found.
  destruct (search ic r text); split; intros H; try reflexivity; try discriminate.
  - eexists; reflexivity.
  - destruct H as [? H]. discriminate.
Qed.

#[local] Instance occurs_re_dec ic r text : Decision (occurs_re ic r text).
Proof.
  destruct (found ic r text) eqn:H.
  - left. apply found_iff. exact H.
  - right. intros H'. apply found_iff in H'. congruence.
Defined.

#[local] Instance occurs_ci_dec k text : Decision (occurs_ci k text).
Proof.
  destruct (contains k (lower text)) eqn:H.
  - left. apply contains_lower_iff. exact H.
  - right. intros H'. apply contains_lower_iff in H'. congruence.
Defined.

(** The keyword count of the source is the number of keywords that occur
    in the text without regard to case. *)
Lemma count_hits_ci keywords text :
  count_hits keywords (lower text)
  = Z.of_nat (length (filter (fun k => occurs_ci k text) keywords)).
Proof.
  unfold count_hits, len. f_equal.
  induction keywords as [|k keywords IH]; [reflexivity|].
  rewrite filter_cons. simpl.
  destruct (contains k (lower text)) eqn:H.
  - rewrite decide_True by (apply contains_lower_iff; exact H).
    simpl. rewrite IH. reflexivity.
  - rewrite decide_False; [exact IH|].
    intros H'. apply contains_lower_iff in H'. congruence.
Qed.

(** C2: the classifier compares the number of resume keywords that occur
    in the text without regard to case, plus 2 when an email or a phone
    pattern occurs somewhere in the text, with the number of transcript
    keywords that occur; the label is 'resume' exactly when the first is
    strictly greater, 'transcript' otherwise, so on every tie, and no other
    label is returned. *)
Theorem detect_document_type_spec (text : pystr) :
  let contact_bonus :=
    if bool_decide (occurs_re false email_re text \/ occurs_re false phone_re text)
    then 2 else 0 in
  let resume_score :=
    Z.of_nat (length (filter (fun k => occurs_ci k text) resume_keywords))
    + contact_bonus in
  let transcript_score :=
    Z.of_nat (length (filter (fun k => occurs_ci k text) transcript_keywords)) in
  (detect_document_type text = str "resume" <-> transcript_score < resume_score)
  /\ (detect_document_type text = str "transcript" <-> resume_score <= transcript_score)
  /\ (resume_score = transcript_score -> detect_document_type text = str "transcript")
  /\ (detect_document_type text = str "resume"
      \/ detect_document_type text = str "transcript").
Proof.
  intros contact_bonus resume_score transcript_score.
  assert (Hd : detect_document_type text =
               if transcript_score <? resume_score then str "resume" else str "transcript").
  { unfold detect_document_type, resume_score, transcript_score, contact_bonus.
    rewrite !count_hits_ci.
    assert (Hb : found false email_re text || found false phone_re text
                 = bool_decide (occurs_re false email_re text \/ occurs_re false phone_re text)).
    { destruct (found false email_re text) eqn:He, (found false phone_re text) eqn:Hp; simpl;
        symmetry.
      - apply bool_decide_eq_true. left. apply found_iff. exact He.
      - apply bool_decide_eq_true. left. apply found_iff. exact He.
      - apply bool_decide_eq_true. right. apply found_iff. exact Hp.
      - apply bool_decide_eq_false. intros [H|H]; apply found_iff in H; congruence. }
    rewrite Hb. destruct (bool_decide _); [reflexivity|].
    rewrite Z.add_0_r. reflexivity. }
  rewrite Hd. destruct (transcript_score <? resume_score) eqn:Hlt.
  - apply Z.ltb_lt in Hlt.
    split; [split; [intros _; exact Hlt | reflexivity]|].
    split; [split; [discriminate | intros H; exfalso; lia]|].
    split; [intros H; exfalso; lia | left; reflexivity].
  - apply Z.ltb_ge in Hlt.
    split; [split; [discriminate | intros H; exfalso; lia]|].
    split; [split; [intros _; exact Hlt | reflexivity]|].
    split; [reflexivity | right; reflexivity].
Qed.

End DetectDocumentType.

(** ** [summarize_text] *)

Section SummarizeText.
Import Py Num Ai.
Local Open Scope Z_scope.

(** C6: on a text of fewer than 30 words [summarize_text] returns, and
    raises nothing: the summary is the text itself, both lengths are the
    word count, the note says that the text is too short to summarize, and
    there is no error entry.  The cache is left as it was. *)
Theorem summarize_text_short pipeline _summarizer text max_length min_length :
  len (Py.split text) < 30 ->
  exists d note,
    summarize_text pipeline _summarizer text max_length min_length = (Ok d, _summarizer)
    /\ d !! str "summary" = Some (VStr text)
    /\ d !! str "original_length" = Some (VInt (len (Py.split text)))
    /\ d !! str "summary_length" = Some (VInt (len (Py.split text)))
    /\ d !! str "note" = Some (VStr note)
    /\ contains (str "too short to summarize") note = true
    /\ d !! str "error" = None.
Proof.
  intros Hshort. apply Z.ltb_lt in Hshort.
  unfold summarize_text, summarize_body. rewrite Hshort. cbn [try_except].
  eexists. exists (str "Text is too short to summarize effectively").
  split; [reflexivity|].
  repeat split; vm_compute; reflexivity.
Qed.

Lemma summarize_text_short_witness :
  len (Py.split (str "Budget approved")) < 30
  /\ exists d note,
       summarize_text None None (str "Budget approved") 150 50 = (Ok d, None)
       /\ d !! str "summary" = Some (VStr (str "Budget approved"))
       /\ d !! str "original_length" = Some (VInt (len (Py.split (str "Budget approved"))))
       /\ d !! str "summary_length" = Some (VInt (len (Py.split (str "Budget approved"))))
       /\ d !! str "note" = Some (VStr note)
       /\ contains (str "too short to summarize") note = true
       /\ d !! str "error" = None.
Proof.
  split; [reflexivity|].
  apply (summarize_text_short None None (str "Budget approved") 150 50).
  reflexivity.
Defined.

End SummarizeText.

(** ** Action items and decisions *)

Section ActionItems.
Import Py Re Ai.

Lemma unique_ci_spec seen items :
  NoDup (lower <$> unique_ci seen items)
  /\ (forall x, x ∈ unique_ci seen items -> lower x ∉ seen)
  /\ unique_ci seen items `sublist_of` items.
Proof.
  revert seen. induction items as [|item items IH]; intros seen; simpl.
  - split; [constructor | split; [intros x Hx; inversion Hx | constructor]].
  - case_bool_decide as Hseen.
    + destruct (IH seen) as [H1 [H2 H3]].
      split; [exact H1 | split; [exact H2 | constructor; exact H3]].
    + destruct (IH ({[lower item]} ∪ seen)) as [H1 [H2 H3]].
      split; [|split].
      * rewrite fmap_cons. constructor; [|exact H1].
        intros Hin. apply list_elem_of_fmap in Hin as [y [Hy Hin]].
        apply H2 in Hin. apply Hin. rewrite <- Hy.
        apply elem_of_union_l, elem_of_singleton. reflexivity.
      * intros x Hx. apply elem_of_cons in Hx as [->|Hx]; [exact Hseen|].
        apply H2 in Hx. intros H. apply Hx, elem_of_union_r. exact H.
      * constructor. exact H3.
Qed.

(** [extract_action_items] returns at most 10 items, no two of them equal
    without regard to case. *)
Lemma extract_action_items_cap text :
  (length (extract_action_items text) <= 10)%nat
  /\ NoDup (lower <$> extract_action_items text).
Proof.
  unfold extract_action_items. split.
  - apply firstn_le_length.
  - rewrite fmap_take. eapply sublist_NoDup; [|apply sublist_take].
    apply unique_ci_spec.
Qed.

(** One round of the loops of [extract_key_decisions]. *)
Lemma append_new_NoDup (text : pystr) (ms : list rmatch_obj) (acc : list pystr) :
  NoDup acc ->
  NoDup (fold_left
           (fun decisions m =>
              let decision := strip (group0 text m) in
              match decision with
              | [] => decisions
              | _ :: _ =>
                  if mem decision decisions then decisions
                  else decisions ++ [decision]
              end) ms acc).
Proof.
  revert acc. induction ms as [|m ms IH]; intros acc Hnd; [exact Hnd|].
  cbn [fold_left]. apply IH. cbv zeta.
  destruct (strip (group0 text m)) as [|c s] eqn:Hs; [exact Hnd|].
  unfold mem. case_bool_decide as Hin; [exact Hnd|].
  apply NoDup_app. split; [exact Hnd|]. split.
  - intros x Hx Hx'. apply list_elem_of_singleton in Hx'. subst x. exact (Hin Hx).
  - apply NoDup_singleton.
Qed.

Lemma append_new_patterns_NoDup (text : pystr) (ps : list regex) (acc : list pystr) :
  NoDup acc ->
  NoDup (fold_left
           (fun decisions pattern =>
              fold_left
                (fun decisions m =>
                   let decision := strip (group0 text m) in
                   match decision with
                   | [] => decisions
                   | _ :: _ =>
                       if mem decision decisions then decisions
                       else decisions ++ [decision]
                   end)
                (finditer true pattern text) decisions) ps acc).
Proof.
  revert acc. induction ps as [|p ps IH]; intros acc Hnd; [exact Hnd|].
  cbn [fold_left]. apply IH. apply append_new_NoDup. exact Hnd.
Qed.

(** [extract_key_decisions] returns at most 5 decisions, no two of them
    the same string. *)
Lemma extract_key_decisions_cap text :
  (length (extract_key_decisions text) <= 5)%nat
  /\ NoDup (extract_key_decisions text).
Proof.
  unfold extract_key_decisions. split; [apply firstn_le_length|].
  eapply sublist_NoDup; [|apply sublist_take].
  apply append_new_patterns_NoDup. constructor.
Qed.

(** C3: on two lines that differ in case only, [extract_key_decisions]
    returns both lines, two entries that are equal without regard to
    case: its test [decision not in decisions] compares the strings as
    they are, where [extract_action_items] compares them lower-cased. *)
Theorem extract_key_decisions_case_duplicates :
  extract_key_decisions
    (str "we will ship the product" ++ [newline] ++ str "We will ship the product")
  = [str "we will ship the product"; str "We will ship the product"]
  /\ lower (str "we will ship the product") = lower (str "We will ship the product")
  /\ extract_action_items
       (str "we will ship the product" ++ [newline] ++ str "We will ship the product")
     = [str "will ship the product"].
Proof. vm_compute. repeat split; reflexivity. Qed.

End ActionItems.

(** ** The word-count block of [calculate_ats_score] *)

Section WordCount.
Import Py Num Re Ats AtsFactors.
Local Open Scope Z_scope.

(** A text of exactly 400 words. *)
Definition text_400_words : pystr := concat (repeat (str "a ") 400).

(** C5, as stated, fails on a text of 400 words: the source gives it the
    7 points of the range 300-1000, where the table of the specification
    gives the bound 400 the 10 points of the range 400-800. *)
Lemma word_count_400_counterexample :
  word_count text_400_words = 400
  /\ calculate_ats_score text_400_words None = Ok 12
  /\ (score ← base_score (contact_points text_400_words)
                (sections_present text_400_words) (skills_points text_400_words)
                (education_points text_400_words) (experience_points text_400_words)
                (word_count_points_spec (word_count text_400_words));
      finish score None) = Ok 15.
Proof. vm_compute. repeat split; reflexivity. Qed.

(** C5, amended: the word count gives 10 points when it is strictly
    between 400 and 800, 7 points when it is strictly between 300 and 1000
    and not strictly between 400 and 800, and 3 points otherwise; so the
    bounds 400 and 800 receive 7 points and the bounds 300 and 1000
    receive 3. *)
Theorem word_count_points_strict text job_description :
  calculate_ats_score text job_description =
    (score ← base_score (contact_points text) (sections_present text)
               (skills_points text) (education_points text)
               (experience_points text) (word_count_points text);
     m ← keyword_points text job_description;
     finish score m)
  /\ (400 < word_count text < 800 -> word_count_points text = 10)
  /\ (300 < word_count text <= 400 \/ 800 <= word_count text < 1000 ->
      word_count_points text = 7)
  /\ (word_count text <= 300 \/ 1000 <= word_count text -> word_count_points text = 3).
Proof.
  split; [apply calculate_ats_score_factors|]. unfold word_count_points.
  destruct (400 <? word_count text) eqn:H1, (word_count text <? 800) eqn:H2,
    (300 <? word_count text) eqn:H3, (word_count text <? 1000) eqn:H4;
    cbn [andb];
    try apply Z.ltb_lt in H1; try apply Z.ltb_ge in H1;
    try apply Z.ltb_lt in H2; try apply Z.ltb_ge in H2;
    try apply Z.ltb_lt in H3; try apply Z.ltb_ge in H3;
    try apply Z.ltb_lt in H4; try apply Z.ltb_ge in H4;
    repeat split; intros; try lia; auto.
Qed.

End WordCount.

(** ** Bounds of binary64 values *)

Section FloatBoundsFacts.
Import Py Num FloatBounds.
Local Open Scope Z_scope.

Lemma digits2_pos_bounds p :
  2 ^ (Zpos (digits2_pos p) - 1) <= Zpos p < 2 ^ Zpos (digits2_pos p).
Proof.
  induction p as [p IH|p IH|]; cbn [digits2_pos].
  - assert (H : 2 ^ Zpos (digits2_pos p) = 2 * 2 ^ (Zpos (digits2_pos p) - 1)).
    { rewrite <- Z.pow_succ_r by lia. f_equal. lia. }
    rewrite Pos2Z.inj_succ, Z.pow_succ_r by lia.
    replace (Z.succ (Zpos (digits2_pos p)) - 1) with (Zpos (digits2_pos p)) by lia. lia.
  - assert (H : 2 ^ Zpos (digits2_pos p) = 2 * 2 ^ (Zpos (digits2_pos p) - 1)).
    { rewrite <- Z.pow_succ_r by lia. f_equal. lia. }
    rewrite Pos2Z.inj_succ, Z.pow_succ_r by lia.
    replace (Z.succ (Zpos (digits2_pos p)) - 1) with (Zpos (digits2_pos p)) by lia. lia.
  - simpl. lia.
Qed.

Lemma Zdigits2_bounds m :
  0 < m -> 0 < Zdigits2 m /\ 2 ^ (Zdigits2 m - 1) <= m < 2 ^ Zdigits2 m.
Proof.
  destruct m as [|p|p]; try lia. intros _. simpl. split; [lia|]. apply digits2_pos_bounds.
Qed.

Lemma pow2_pos k : 0 <= k -> 0 < 2 ^ k.
Proof. intros. apply Z.pow_pos_nonneg; lia. Qed.

Lemma pow2_le a b : 0 <= a <= b -> 2 ^ a <= 2 ^ b.
Proof. intros. apply Z.pow_le_mono_r; lia. Qed.

Lemma pow2_lt a b : 0 <= a < b -> 2 ^ a < 2 ^ b.
Proof. intros. apply Z.pow_lt_mono_r; lia. Qed.

Lemma pow2_add a b : 0 <= a -> 0 <= b -> 2 ^ (a + b) = 2 ^ a * 2 ^ b.
Proof. intros. apply Z.pow_add_r; lia. Qed.

(** m < 2^k iff digits m <= k *)
Lemma Zdigits2_le_iff m k : 0 < m -> 0 <= k -> (Zdigits2 m <= k <-> m < 2 ^ k).
Proof.
  intros Hm Hk. destruct (Zdigits2_bounds m Hm) as [Hd [Hlo Hhi]]. split.
  - intros H. pose proof (pow2_le (Zdigits2 m) k). lia.
  - intros H. destruct (Z_le_gt_dec (Zdigits2 m) k) as [|Hgt]; [assumption|].
    pose proof (pow2_le k (Zdigits2 m - 1)). lia.
Qed.

Lemma Zdigits2_mono m m' : 0 < m <= m' -> Zdigits2 m <= Zdigits2 m'.
Proof.
  intros H. destruct (Zdigits2_bounds m') as [Hd [Hlo Hhi]]; [lia|].
  apply Zdigits2_le_iff; lia.
Qed.

Lemma Zdigits2_unique m k : 0 < m -> 2 ^ (k - 1) <= m < 2 ^ k -> Zdigits2 m = k.
Proof.
  intros Hm [Hlo Hhi]. destruct (Zdigits2_bounds m Hm) as [Hd [Hlo' Hhi']].
  assert (0 < k).
  { destruct (Z_lt_le_dec 0 k) as [|Hk]; [assumption|]. exfalso.
    destruct (Z.eq_dec k 0) as [->|]; [simpl in Hhi; lia|].
    rewrite Z.pow_neg_r in Hhi by lia. lia. }
  destruct (Z.lt_trichotomy (Zdigits2 m) k) as [H1|[H1|H1]]; [|assumption|].
  - pose proof (pow2_le (Zdigits2 m) (k - 1)). lia.
  - pose proof (pow2_le k (Zdigits2 m - 1)). lia.
Qed.

Lemma Zdigits2_mul_pow m k : 0 < m -> 0 <= k -> Zdigits2 (m * 2 ^ k) = Zdigits2 m + k.
Proof.
  intros Hm Hk. destruct (Zdigits2_bounds m Hm) as [Hd [Hlo Hhi]].
  pose proof (pow2_pos k Hk).
  apply Zdigits2_unique; [nia|].
  replace (Zdigits2 m + k - 1) with ((Zdigits2 m - 1) + k) by lia.
  rewrite !pow2_add by lia. nia.
Qed.

(** iter_pos as a nat iteration *)
Lemma iter_pos_nat {A} (f : A -> A) p x :
  SpecFloat.iter_pos f p x = Nat.iter (Pos.to_nat p) f x.
Proof.
  revert x. induction p as [p IH|p IH|]; intros x; cbn [SpecFloat.iter_pos].
  - rewrite !IH, Pos2Nat.inj_xI.
    replace (S (2 * Pos.to_nat p)) with (Pos.to_nat p + S (Pos.to_nat p))%nat by lia.
    rewrite Nat.iter_add, Nat.iter_succ_r. reflexivity.
  - rewrite !IH, Pos2Nat.inj_xO.
    replace (2 * Pos.to_nat p)%nat with (Pos.to_nat p + Pos.to_nat p)%nat by lia.
    rewrite Nat.iter_add. reflexivity.
  - reflexivity.
Qed.

Lemma loc_exact_iff mrs : loc_of_shr_record mrs = loc_Exact <-> exact_rec mrs = true.
Proof. destruct mrs as [m [|] [|]]; simpl; unfold exact_rec; simpl; split; congruence. Qed.

Lemma shr_1_spec mrs :
  0 <= shr_m mrs ->
  shr_m (shr_1 mrs) = shr_m mrs / 2
  /\ (exact_rec (shr_1 mrs) = true <-> exact_rec mrs = true /\ shr_m mrs mod 2 = 0).
Proof.
  destruct mrs as [m r s]. simpl. intros Hm. unfold exact_rec.
  destruct m as [|[p|p|]|]; try lia; simpl shr_m; simpl shr_r; simpl shr_s.
  - split; [reflexivity|]. destruct r, s; simpl; intuition congruence.
  - split; [rewrite Pos2Z.inj_xI; apply Z.div_unique with 1; lia|].
    rewrite Pos2Z.inj_xI. replace ((2 * Z.pos p + 1) mod 2) with 1 by (apply Z.mod_unique with (Z.pos p); lia).
    destruct r, s; simpl; intuition (congruence || lia).
  - split; [rewrite Pos2Z.inj_xO; apply Z.div_unique with 0; lia|].
    rewrite Pos2Z.inj_xO. replace ((2 * Z.pos p) mod 2) with 0 by (apply Z.mod_unique with (Z.pos p); lia).
    destruct r, s; simpl; intuition (congruence || lia).
  - split; [reflexivity|]. change (1 mod 2) with 1.
    destruct r, s; simpl; intuition (congruence || lia).
Qed.

Lemma mod_pow2_succ m k : 0 <= m -> 0 <= k ->
  (m mod 2 ^ (k + 1) = 0 <-> m mod 2 ^ k = 0 /\ (m / 2 ^ k) mod 2 = 0).
Proof.
  intros Hm Hk. pose proof (pow2_pos k Hk) as Hp.
  rewrite pow2_add by lia. change (2 ^ 1) with 2.
  rewrite Z.rem_mul_r by lia. 
  pose proof (Z.mod_pos_bound m (2 ^ k) Hp). pose proof (Z.mod_pos_bound (m / 2 ^ k) 2 ltac:(lia)).
  nia.
Qed.

Lemma shr_iter_spec n mrs :
  0 <= shr_m mrs ->
  shr_m (Nat.iter n shr_1 mrs) = shr_m mrs / 2 ^ Z.of_nat n
  /\ (exact_rec (Nat.iter n shr_1 mrs) = true <->
      exact_rec mrs = true /\ shr_m mrs mod 2 ^ Z.of_nat n = 0).
Proof.
  intros Hm. induction n as [|n [IH1 IH2]].
  - simpl. rewrite Z.div_1_r, Z.mod_1_r. intuition.
  - change (Nat.iter (S n) shr_1 mrs) with (shr_1 (Nat.iter n shr_1 mrs)).
    assert (Hq : 0 <= shr_m (Nat.iter n shr_1 mrs)).
    { rewrite IH1. apply Z.div_pos; [lia | apply pow2_pos; lia]. }
    destruct (shr_1_spec _ Hq) as [H1 H2]. rewrite H1, H2, IH1, IH2.
    rewrite Nat2Z.inj_succ. unfold Z.succ. split.
    + rewrite pow2_add by lia. change (2 ^ 1) with 2. rewrite Z.div_div by (try apply pow2_pos; lia). reflexivity.
    + rewrite (mod_pow2_succ (shr_m mrs) (Z.of_nat n)) by lia. tauto.
Qed.

(** shr by n >= 0 *)
Lemma shr_spec mrs e n :
  0 <= shr_m mrs -> 0 <= n ->
  let '(mrs', e') := shr mrs e n in
  shr_m mrs' = shr_m mrs / 2 ^ n /\ e' = e + n
  /\ (exact_rec mrs' = true <-> exact_rec mrs = true /\ shr_m mrs mod 2 ^ n = 0).
Proof.
  intros Hm Hn. unfold shr. destruct n as [|p|p]; try lia.
  - rewrite Z.div_1_r, Z.mod_1_r. split; [reflexivity|]. split; [lia|]. intuition.
  - rewrite iter_pos_nat. destruct (shr_iter_spec (Pos.to_nat p) mrs Hm) as [H1 H2].
    rewrite positive_nat_Z in *. split; [exact H1|]. split; [reflexivity | exact H2].
Qed.

Lemma fexp_fx e : fexp prec emax e = fx e.
Proof. reflexivity. Qed.

Lemma rne_cases q l :
  round_nearest_even q l = q \/ (round_nearest_even q l = q + 1 /\ l <> loc_Exact).
Proof.
  destruct l as [|[| |]]; simpl;
    [left; reflexivity | | left; reflexivity | right; split; [reflexivity | discriminate]].
  destruct (Z.even q); [left; reflexivity | right; split; [reflexivity | discriminate]].
Qed.

Lemma exact_rec_of_loc m l : exact_rec (shr_record_of_loc m l) = true <-> l = loc_Exact.
Proof. destruct l as [|[| |]]; simpl; unfold exact_rec; simpl; split; congruence. Qed.

Lemma shr_m_of_loc m l : shr_m (shr_record_of_loc m l) = m.
Proof. destruct l as [|[| |]]; reflexivity. Qed.

Lemma shr_fexp_spec m e l :
  0 <= m -> e <= fx (Zdigits2 m + e) ->
  let n := fx (Zdigits2 m + e) - e in
  let '(mrs, e') := shr_fexp prec emax m e l in
  shr_m mrs = m / 2 ^ n /\ e' = fx (Zdigits2 m + e)
  /\ (loc_of_shr_record mrs = loc_Exact <-> l = loc_Exact /\ m mod 2 ^ n = 0).
Proof.
  intros Hm He n. unfold shr_fexp. rewrite fexp_fx. fold n.
  pose proof (shr_spec (shr_record_of_loc m l) e n) as H.
  rewrite shr_m_of_loc in H. specialize (H Hm ltac:(unfold n; lia)).
  destruct (shr (shr_record_of_loc m l) e n) as [mrs e'].
  destruct H as [H1 [H2 H3]]. split; [exact H1|]. split; [unfold n in *; lia|].
  rewrite loc_exact_iff, H3, exact_rec_of_loc. reflexivity.
Qed.

(** The first shift and the rounding. *)
Lemma stage1 m e l :
  0 <= m -> e <= fx (Zdigits2 m + e) ->
  let E1 := fx (Zdigits2 m + e) in
  let n := E1 - e in
  let q := m / 2 ^ n in
  let '(mrs, e') := shr_fexp prec emax m e l in
  let m1 := round_nearest_even (shr_m mrs) (loc_of_shr_record mrs) in
  e' = E1
  /\ (m1 = q \/ (m1 = q + 1 /\ ~ (l = loc_Exact /\ m mod 2 ^ n = 0)))
  /\ 0 <= q < 2 ^ 53
  /\ (femin < E1 -> 0 < m -> 2 ^ 52 <= q)
  /\ (m = 0 -> E1 = femin).
Proof.
  intros Hm He E1 n q.
  pose proof (shr_fexp_spec m e l Hm He) as H. cbv zeta in H.
  destruct (shr_fexp prec emax m e l) as [mrs e']. destruct H as [H1 [H2 H3]].
  fold E1 in H2. fold E1 n in H1, H3. fold q in H1.
  assert (Hn : 0 <= n) by (unfold n, E1; lia).
  pose proof (pow2_pos n Hn) as Hpn.
  split; [exact H2|]. split; [|split; [|split]].
  - rewrite H1. destruct (rne_cases q (loc_of_shr_record mrs)) as [Hr|[Hr Hl]];
      [left; exact Hr | right]. split; [exact Hr|]. rewrite <- H3. exact Hl.
  - split; [apply Z.div_pos; lia|].
    destruct (Z.eq_dec m 0) as [->|Hm0]; [unfold q; rewrite Z.div_0_l by lia; lia|].
    destruct (Zdigits2_bounds m ltac:(lia)) as [Hd [Hlo Hhi]].
    apply Z.div_lt_upper_bound; [lia|].
    rewrite <- pow2_add by lia.
    pose proof (pow2_le (Zdigits2 m) (n + 53)). unfold n, E1, fx in *. lia.
  - intros HE Hm0.
    destruct (Zdigits2_bounds m Hm0) as [Hd [Hlo Hhi]].
    apply Z.div_le_lower_bound; [lia|].
    rewrite <- pow2_add by lia.
    replace (n + 52) with (Zdigits2 m - 1) by (unfold n, E1, fx in *; lia). exact Hlo.
  - intros ->. simpl in E1. unfold E1, fx in *. simpl in He. unfold fx in He. lia.
Qed.

(** The second shift puts the mantissa back in range after a carry. *)
Lemma stage2 m1 E1 :
  0 <= m1 <= 2 ^ 53 -> femin <= E1 ->
  (femin < E1 -> 0 < m1 -> 2 ^ 52 <= m1) ->
  let '(mrs, E) := shr_fexp prec emax m1 E1 loc_Exact in
  let M := shr_m mrs in
  0 <= M < 2 ^ 53
  /\ M * 2 ^ (E - E1) = m1 /\ E1 <= E
  /\ (0 < M -> fx (Zdigits2 M + E) = E)
  /\ (femin < E -> 0 < M -> 2 ^ 52 <= M).
Proof.
  intros [Hm0 Hm1] HE Hnorm.
  destruct (Z.eq_dec m1 0) as [->|Hnz].
  { unfold shr_fexp. rewrite fexp_fx. simpl Zdigits2. unfold shr.
    destruct (fx (0 + E1) - E1) eqn:Hn; try (unfold fx in Hn; lia);
      simpl; (split; [lia|]; split; [lia|]; split; [lia|]; split; intros; lia). }
  destruct (Zdigits2_bounds m1 ltac:(lia)) as [Hd [Hlo Hhi]].
  destruct (Z.eq_dec m1 (2 ^ 53)) as [->|Hne].
  - assert (Hdig : Zdigits2 (2 ^ 53) = 54) by reflexivity.
    pose proof (shr_fexp_spec (2 ^ 53) E1 loc_Exact ltac:(lia)) as H.
    rewrite Hdig in H. specialize (H ltac:(unfold fx; lia)). cbv zeta in H.
    destruct (shr_fexp prec emax (2 ^ 53) E1 loc_Exact) as [mrs E].
    destruct H as [H1 [H2 _]].
    replace (fx (54 + E1) - E1) with 1 in H1 by (unfold fx; lia).
    change (2 ^ 53 / 2 ^ 1) with (2 ^ 52) in H1. cbv zeta. rewrite H1.
    rewrite H2. replace (fx (54 + E1)) with (E1 + 1) by (unfold fx; lia).
    replace (E1 + 1 - E1) with 1 by lia.
    split; [lia|]. split; [reflexivity|]. split; [lia|]. split.
    + intros _. change (Zdigits2 (2 ^ 52)) with 53. unfold fx. lia.
    + intros _ _. lia.
  - assert (Hd53 : Zdigits2 m1 <= 53) by (apply Zdigits2_le_iff; lia).
    unfold shr_fexp. rewrite fexp_fx. unfold shr.
    assert (Hn : fx (Zdigits2 m1 + E1) - E1 <= 0) by (unfold fx; lia).
    destruct (fx (Zdigits2 m1 + E1) - E1) eqn:Hneq; try lia; cbv zeta; simpl shr_m;
      rewrite Z.sub_diag, Z.mul_1_r;
      (split; [lia|]; split; [reflexivity|]; split; [lia|]; split; [|exact Hnorm]).
    + intros _. lia.
    + intros _. destruct (Z_le_gt_dec E1 femin) as [Hle|Hgt].
      * unfold fx. lia.
      * specialize (Hnorm ltac:(lia) ltac:(lia)).
        assert (Zdigits2 m1 = 53) by (apply Zdigits2_unique; lia).
        unfold fx. lia.
Qed.

Lemma pow2_divide a b : 0 <= a <= b -> (2 ^ a | 2 ^ b).
Proof.
  intros H. exists (2 ^ (b - a)). rewrite <- pow2_add by lia. f_equal. lia.
Qed.

Lemma femin_val : femin = -1074.
Proof. reflexivity. Qed.

Lemma scale_val : scale = 2200.
Proof. reflexivity. Qed.

Lemma cexp_ge X : femin + scale <= cexp X.
Proof. unfold cexp. lia. Qed.

Lemma cexp_mono X Y : 0 < X <= Y -> cexp X <= cexp Y.
Proof. intros H. unfold cexp. pose proof (Zdigits2_mono X Y H). lia. Qed.

Lemma cexp_SV m e :
  0 < m -> 0 <= e + scale -> cexp (SV m e) = fx (Zdigits2 m + e) + scale.
Proof.
  intros Hm He. unfold cexp, SV. rewrite Zdigits2_mul_pow by lia. unfold fx. lia.
Qed.

Lemma repr_divide B k : repr B -> 0 <= B -> 0 <= k <= cexp B -> (2 ^ k | B).
Proof.
  intros Hr HB Hk. unfold repr in Hr. rewrite Z.abs_eq in Hr by lia.
  eapply Z.divide_trans; [apply pow2_divide; exact Hk | exact Hr].
Qed.

Lemma digits_lt_pow X : 0 <= X -> X < 2 ^ Zdigits2 X.
Proof.
  intros H. destruct (Z.eq_dec X 0) as [->|]; [reflexivity|].
  apply Zdigits2_bounds. lia.
Qed.

Lemma Zdigits2_nonneg X : 0 <= Zdigits2 X.
Proof. destruct X; simpl; lia. Qed.

(** Arithmetic of the grid [g] of the rounded value. *)

Lemma grid_floor q P t m :
  0 < P -> 0 < t -> q * P <= m < (q + 1) * P ->
  q * (P * t) <= m * t < (q + 1) * (P * t).
Proof.
  intros HP Ht [H1 H2]. split.
  - rewrite Z.mul_assoc. apply Z.mul_le_mono_nonneg_r; lia.
  - rewrite Z.mul_assoc. apply Z.mul_lt_mono_pos_r; lia.
Qed.

Lemma grid_upper q g X K m1 :
  0 < g -> q * g <= X -> X <= K * g ->
  (m1 = q \/ (m1 = q + 1 /\ X <> q * g) \/ (m1 = q + 1 /\ X < K * g)) ->
  m1 * g <= K * g.
Proof.
  intros Hg H1 H2 Hm. apply Z.mul_le_mono_nonneg_r; [lia|].
  assert (HqK : q <= K).
  { apply (Z.mul_le_mono_pos_r _ _ g Hg). lia. }
  destruct Hm as [->|[[-> Hne]|[-> Hlt]]]; [exact HqK| |].
  - destruct (Z.eq_dec q K) as [->|]; [|lia]. exfalso. apply Hne. lia.
  - destruct (Z.eq_dec q K) as [->|]; [|lia]. exfalso. lia.
Qed.

Lemma grid_lower q g X k m1 :
  0 < g -> k * g <= X -> X < (q + 1) * g -> q <= m1 -> k * g <= m1 * g.
Proof.
  intros Hg H1 H2 Hm. apply Z.mul_le_mono_nonneg_r; [lia|].
  assert (k < q + 1); [|lia].
  apply (Z.mul_lt_mono_pos_r g); lia.
Qed.

Lemma grid_normal c g q m1 LO :
  0 < g -> LO < c * g -> c <= q -> q <= m1 -> LO <= m1 * g.
Proof.
  intros Hg H1 H2 H3.
  assert (c * g <= m1 * g) by (apply Z.mul_le_mono_nonneg_r; lia). lia.
Qed.

Lemma no_overflow p E HI :
  femin < E -> 2 ^ 52 <= Zpos p -> SV (Zpos p) E <= HI -> HI < 2 ^ (1024 + scale) ->
  E <= 971.
Proof.
  intros HE Hp Hv Hov. pose proof scale_val as Hs. pose proof femin_val as Hf.
  destruct (Z_le_gt_dec E 971) as [|Hbig]; [assumption|]. exfalso.
  assert (H1 : 2 ^ (1024 + scale) <= SV (Z.pos p) E); [|lia].
  unfold SV.
  replace (1024 + scale) with (52 + (972 + scale)) by lia.
  rewrite pow2_add by lia.
  apply Z.mul_le_mono_nonneg; [apply Z.lt_le_incl, pow2_pos; lia | exact Hp | |].
  - apply Z.lt_le_incl, pow2_pos. lia.
  - apply pow2_le. lia.
Qed.

Lemma round_aux_bounds s m e l LO HI :
  0 <= m -> - scale <= e -> e <= fx (Zdigits2 m + e) ->
  0 <= LO -> repr LO -> repr HI -> HI < 2 ^ (1024 + scale) ->
  LO <= SV m e -> (SV m e < HI \/ (SV m e = HI /\ l = loc_Exact)) ->
  absin s (binary_round_aux prec emax s m e l) LO HI.
Proof.
  intros Hm He Hfx HLO0 HrLO HrHI Hov Hlo Hhi.
  pose proof scale_val as Hs. pose proof femin_val as Hf.
  unfold binary_round_aux.
  pose proof (stage1 m e l Hm Hfx) as S1. cbv zeta in S1.
  destruct (shr_fexp prec emax m e l) as [mrs e'].
  set (E1 := fx (Zdigits2 m + e)) in *. set (n := E1 - e) in *.
  set (q := m / 2 ^ n) in *.
  set (m1 := round_nearest_even (shr_m mrs) (loc_of_shr_record mrs)) in *.
  destruct S1 as [-> [Hm1 [Hq [Hnorm Hzero]]]].
  assert (HE1 : femin <= E1) by (unfold E1, fx; lia).
  assert (Hn : 0 <= n) by (unfold n; lia).
  assert (Hm1r : 0 <= m1 <= 2 ^ 53) by lia.
  assert (Hq1 : q <= m1) by lia.
  assert (Hnorm1 : femin < E1 -> 0 < m1 -> 2 ^ 52 <= m1).
  { intros H1 H2. destruct (Z.eq_dec m 0) as [Hz|Hz]; [specialize (Hzero Hz); lia|].
    specialize (Hnorm H1 ltac:(lia)). lia. }
  pose proof (stage2 m1 E1 Hm1r HE1 Hnorm1) as S2.
  destruct (shr_fexp prec emax m1 E1 loc_Exact) as [mrs2 E]. cbv zeta in S2.
  set (M := shr_m mrs2) in *.
  destruct S2 as [HM [HMv [HEE [Hcan HnormM]]]].
  (* the grid of the result *)
  assert (Hgs : 0 <= E1 + scale) by lia.
  pose proof (pow2_pos (E1 + scale) Hgs) as Hg.
  pose proof (pow2_pos (e + scale) ltac:(lia)) as Ht.
  pose proof (pow2_pos n Hn) as Hpn.
  assert (Hgt : 2 ^ (E1 + scale) = 2 ^ n * 2 ^ (e + scale)).
  { rewrite <- pow2_add by lia. f_equal. unfold n. lia. }
  assert (Hqm : q * 2 ^ n <= m < (q + 1) * 2 ^ n).
  { unfold q. pose proof (Z.mul_div_le m (2 ^ n) Hpn).
    pose proof (Z.mul_succ_div_gt m (2 ^ n) Hpn). lia. }
  pose proof (grid_floor q (2 ^ n) (2 ^ (e + scale)) m Hpn Ht Hqm) as HX.
  rewrite <- Hgt in HX. fold (SV m e) in HX.
  assert (HX0 : 0 <= SV m e) by (unfold SV; apply Z.mul_nonneg_nonneg; lia).
  (* the value of the result *)
  assert (HV : SV M E = m1 * 2 ^ (E1 + scale)).
  { unfold SV. rewrite <- HMv.
    replace (E + scale) with ((E - E1) + (E1 + scale)) by lia.
    rewrite pow2_add by lia. ring. }
  assert (HcE : m <> 0 -> cexp (SV m e) = E1 + scale).
  { intros Hz. apply cexp_SV; lia. }
  assert (Hexact : SV m e = q * 2 ^ (E1 + scale) -> m mod 2 ^ n = 0).
  { intros Heq. unfold SV in Heq. rewrite Hgt, Z.mul_assoc in Heq.
    apply Z.mul_cancel_r in Heq; [|lia]. rewrite Heq. apply Z.mod_mul. lia. }
  assert (HSp : m <> 0 -> 0 < SV m e).
  { intros Hz. unfold SV. apply Z.mul_pos_pos; lia. }
  clearbody E1 q m1 M. clear Hqm Hgt Hpn Ht.
  (* upper bound *)
  assert (Hup : m1 * 2 ^ (E1 + scale) <= HI).
  { assert (HgHI : (2 ^ (E1 + scale) | HI)).
    { destruct (Z.eq_dec HI 0) as [->|HHI]; [apply Z.divide_0_r|].
      apply repr_divide; [exact HrHI | lia |].
      split; [lia|].
      destruct (Z.eq_dec m 0) as [Hz|Hz].
      - rewrite (Hzero Hz). apply cexp_ge.
      - rewrite <- (HcE Hz). apply cexp_mono. specialize (HSp Hz). lia. }
    destruct HgHI as [K HK]. rewrite HK.
    apply (grid_upper q _ (SV m e)); [exact Hg | lia | lia |].
    destruct Hm1 as [->|[-> Hne]]; [left; reflexivity|].
    destruct Hhi as [Hhi|[Hhi Hex]]; [right; right; split; [reflexivity | lia]|].
    right; left. split; [reflexivity|]. intros Heq. apply Hne. split; [exact Hex|].
    apply Hexact. exact Heq. }
  (* lower bound *)
  assert (Hlow : LO <= m1 * 2 ^ (E1 + scale)).
  { destruct (Z_lt_le_dec (cexp LO) (E1 + scale)) as [Hc|Hc].
    - pose proof (cexp_ge LO) as Hcg.
      assert (Hz : m <> 0) by (intros Hz; specialize (Hzero Hz); lia).
      specialize (Hnorm ltac:(lia) ltac:(lia)).
      pose proof (digits_lt_pow LO HLO0) as HdL.
      pose proof (Zdigits2_nonneg LO) as Hd0.
      assert (Hd : Zdigits2 LO <= 52 + (E1 + scale)) by (unfold cexp in Hc; lia).
      pose proof (pow2_le (Zdigits2 LO) (52 + (E1 + scale)) ltac:(lia)) as Hp.
      rewrite pow2_add in Hp by lia.
      apply (grid_normal (2 ^ 52) _ q); [exact Hg | lia | lia | exact Hq1].
    - assert (HgLO : (2 ^ (E1 + scale) | LO)).
      { apply repr_divide; [exact HrLO | exact HLO0 | lia]. }
      destruct HgLO as [k Hk]. rewrite Hk.
      apply (grid_lower q _ (SV m e)); [exact Hg | lia | lia | exact Hq1]. }
  (* the result *)
  rewrite <- HV in Hup, Hlow.
  destruct M as [|p|p]; [| |lia].
  - split; [reflexivity|]. unfold SV in Hlow. lia.
  - assert (HEle : E <= 971).
    { destruct (Z_le_gt_dec E femin) as [|HgtE]; [lia|].
      apply (no_overflow p E HI); [lia | apply HnormM; lia | exact Hup | exact Hov]. }
    replace (E <=? emax - prec) with true
      by (symmetry; apply Z.leb_le; unfold emax, prec; lia).
    split; [reflexivity|]. split; [|lia].
    unfold bounded, canonical_mantissa. apply andb_true_iff. split.
    + apply Z.eqb_eq. rewrite fexp_fx. apply (Hcan ltac:(lia)).
    + apply Z.leb_le. unfold emax, prec. lia.
Qed.

(** ** Valid numbers and their scaled values *)

Lemma bounded_inv m e :
  bounded prec emax m e = true ->
  fx (Zpos (digits2_pos m) + e) = e /\ femin <= e <= 971.
Proof.
  unfold bounded, canonical_mantissa. rewrite andb_true_iff, Z.eqb_eq, Z.leb_le, fexp_fx.
  intros [H1 H2]. unfold emax, prec in H2. split; [exact H1|].
  unfold fx in H1. pose proof femin_val. lia.
Qed.

Lemma SV_pos m e : 0 < m -> 0 <= e + scale -> 0 < SV m e.
Proof. intros. unfold SV. apply Z.mul_pos_pos; [lia | apply pow2_pos; lia]. Qed.

Lemma absin_pos f LO HI : absin false f LO HI -> within f LO HI.
Proof.
  destruct f as [s|s| |s m e]; simpl; try tauto.
  - intros [_ H]. split; [exact I | exact H].
  - intros [-> [Hb H]]. split; [exact Hb|]. simpl. unfold sgn. lia.
Qed.

Lemma absin_neg f LO HI : absin true f LO HI -> within f (- HI) (- LO).
Proof.
  destruct f as [s|s| |s m e]; simpl; try tauto.
  - intros [_ H]. split; [exact I | simpl; lia].
  - intros [-> [Hb H]]. split; [exact Hb|]. simpl. unfold sgn. lia.
Qed.

Lemma repr_0 : repr 0.
Proof. apply Z.divide_0_r. Qed.

Lemma repr_opp B : repr B -> repr (- B).
Proof. unfold repr. rewrite Z.abs_opp. apply Z.divide_opp_r. Qed.

Lemma repr_max0 B : repr B -> repr (Z.max B 0).
Proof. intros H. destruct (Z.max_spec B 0) as [[_ ->]|[_ ->]]; [apply repr_0 | exact H]. Qed.

(** An exact number and its sign, rounded. *)
Lemma round_aux_signed s m e LO HI :
  0 <= m -> - scale <= e -> e <= fx (Zdigits2 m + e) ->
  repr LO -> repr HI -> - 2 ^ (1024 + scale) < LO -> HI < 2 ^ (1024 + scale) ->
  LO <= sgn s * SV m e <= HI ->
  within (binary_round_aux prec emax s m e loc_Exact) LO HI.
Proof.
  intros Hm He Hfx HrLO HrHI HovL HovH Hb.
  assert (HX0 : 0 <= SV m e).
  { unfold SV. apply Z.mul_nonneg_nonneg; [lia|]. apply Z.lt_le_incl, pow2_pos. lia. }
  destruct s; unfold sgn in *.
  - assert (H : within (binary_round_aux prec emax true m e loc_Exact)
                    (- - LO) (- Z.max (- HI) 0)).
    { apply absin_neg. apply round_aux_bounds; try assumption; try lia.
      - apply repr_max0, repr_opp, HrHI.
      - apply repr_opp, HrLO.
      - destruct (Z.eq_dec (SV m e) (- LO)); [right; split; [assumption | reflexivity] | left; lia]. }
    destruct H as [H1 H2]. split; [exact H1 | lia].
  - assert (H : within (binary_round_aux prec emax false m e loc_Exact) (Z.max LO 0) HI).
    { apply absin_pos. apply round_aux_bounds; try assumption; try lia.
      - apply repr_max0, HrLO.
      - destruct (Z.eq_dec (SV m e) HI); [right; split; [assumption | reflexivity] | left; lia]. }
    destruct H as [H1 H2]. split; [exact H1 | lia].
Qed.

(** *** [binary_round] and [binary_normalize] *)

Lemma iter_xO p d : Zpos (Pos.iter xO p d) = Zpos p * 2 ^ Zpos d.
Proof.
  induction d as [|d IH] using Pos.peano_ind.
  - simpl. rewrite Pos2Z.inj_xO. change (2 ^ 1) with 2. lia.
  - rewrite Pos.iter_succ, Pos2Z.inj_xO, IH, Pos2Z.inj_succ, Z.pow_succ_r by lia. ring.
Qed.

Lemma shl_align_spec p e e' :
  let '(p', e2) := shl_align p e e' in
  e2 = Z.min e e' /\ Zpos p' = Zpos p * 2 ^ (e - e2).
Proof.
  unfold shl_align. destruct (e' - e) as [|d|d] eqn:Hd.
  - split; [lia|]. rewrite Z.sub_diag. simpl. lia.
  - split; [lia|]. rewrite Z.sub_diag. simpl. lia.
  - split; [lia|]. rewrite iter_xO. f_equal. f_equal. lia.
Qed.

Lemma SV_shift p k e :
  0 <= k -> 0 <= e - k + scale -> SV (p * 2 ^ k) (e - k) = SV p e.
Proof.
  intros Hk He. unfold SV. rewrite <- Z.mul_assoc, <- pow2_add by lia.
  f_equal. f_equal. lia.
Qed.

Lemma binary_round_inr s p e LO HI :
  - scale <= e ->
  repr LO -> repr HI -> - 2 ^ (1024 + scale) < LO -> HI < 2 ^ (1024 + scale) ->
  LO <= sgn s * SV (Zpos p) e <= HI ->
  within (binary_round prec emax s p e) LO HI.
Proof.
  intros He HrLO HrHI HovL HovH Hb. pose proof scale_val. pose proof femin_val.
  unfold binary_round. rewrite fexp_fx.
  pose proof (shl_align_spec p e (fx (Zpos (digits2_pos p) + e))) as Hs.
  destruct (shl_align p e (fx (Zpos (digits2_pos p) + e))) as [p' e2].
  destruct Hs as [He2 Hp'].
  assert (Hfx : femin <= fx (Z.pos (digits2_pos p) + e)) by (unfold fx; lia).
  assert (Hk : 0 <= e - e2) by lia.
  assert (HSV : SV (Zpos p') e2 = SV (Zpos p) e).
  { rewrite Hp'. replace e2 with (e - (e - e2)) at 2 by lia.
    apply SV_shift; lia. }
  assert (Hdig : Zdigits2 (Zpos p') + e2 = Zpos (digits2_pos p) + e).
  { rewrite Hp', Zdigits2_mul_pow by lia. simpl. lia. }
  apply round_aux_signed; [lia | lia | | exact HrLO | exact HrHI | exact HovL | exact HovH |].
  - rewrite Hdig. simpl. lia.
  - rewrite HSV. exact Hb.
Qed.

Lemma binary_normalize_inr m e sz LO HI :
  - scale <= e ->
  repr LO -> repr HI -> - 2 ^ (1024 + scale) < LO -> HI < 2 ^ (1024 + scale) ->
  LO <= SV m e <= HI ->
  within (binary_normalize prec emax m e sz) LO HI.
Proof.
  intros He HrLO HrHI HovL HovH Hb. unfold binary_normalize.
  destruct m as [|p|p].
  - split; [exact I|]. simpl. unfold SV in Hb. lia.
  - apply binary_round_inr; try assumption. unfold sgn. rewrite Z.mul_1_l. exact Hb.
  - apply binary_round_inr; try assumption. unfold sgn.
    replace (-1 * SV (Z.pos p) e) with (SV (Z.neg p) e); [exact Hb|].
    unfold SV. rewrite Z.mul_assoc. reflexivity.
Qed.

(** *** Addition and subtraction *)

Lemma aligned_value s m e ez :
  ez <= e -> 0 <= ez + scale ->
  SV (cond_Zopp s (Zpos (fst (shl_align m e ez)))) ez = sgn s * SV (Zpos m) e.
Proof.
  intros Hez Hs. pose proof (shl_align_spec m e ez) as H.
  destruct (shl_align m e ez) as [p' e2]. destruct H as [He2 Hp']. simpl fst.
  assert (He2' : e2 = ez) by lia. clear He2. subst e2.
  assert (HSV : SV (Zpos p') ez = SV (Zpos m) e).
  { rewrite Hp'. replace ez with (e - (e - ez)) at 2 by lia. apply SV_shift; lia. }
  unfold cond_Zopp, sgn. destruct s.
  - rewrite <- HSV. unfold SV. lia.
  - rewrite <- HSV. unfold SV. lia.
Qed.

Lemma SV_add a b e : SV (a + b) e = SV a e + SV b e.
Proof. unfold SV. ring. Qed.

Lemma SV_sub a b e : SV (a - b) e = SV a e - SV b e.
Proof. unfold SV. ring. Qed.

Lemma fadd_inr x y a b c d LO HI :
  within x a b -> within y c d ->
  repr LO -> repr HI -> - 2 ^ (1024 + scale) < LO -> HI < 2 ^ (1024 + scale) ->
  LO <= a + c -> b + d <= HI ->
  within (fadd x y) LO HI.
Proof.
  intros [Hfx Hx] [Hfy Hy] HrLO HrHI HovL HovH HL HH.
  pose proof scale_val. pose proof femin_val.
  destruct x as [sx|sx| |sx mx ex], y as [sy|sy| |sy my ey]; simpl in Hfx, Hfy;
    try contradiction; simpl in Hx, Hy.
  - unfold fadd, SFadd. destruct sx, sy; (split; [exact I | simpl; lia]).
  - unfold fadd, SFadd. split; [exact Hfy | simpl; lia].
  - unfold fadd, SFadd. split; [exact Hfx | simpl; lia].
  - unfold fadd, SFadd.
    destruct (bounded_inv _ _ Hfx) as [_ Hex]. destruct (bounded_inv _ _ Hfy) as [_ Hey].
    apply binary_normalize_inr; [lia | exact HrLO | exact HrHI | exact HovL | exact HovH |].
    rewrite SV_add, !aligned_value by lia. lia.
Qed.

Lemma fsub_inr x y a b c d LO HI :
  within x a b -> within y c d ->
  repr LO -> repr HI -> - 2 ^ (1024 + scale) < LO -> HI < 2 ^ (1024 + scale) ->
  LO <= a - d -> b - c <= HI ->
  within (fsub x y) LO HI.
Proof.
  intros [Hfx Hx] [Hfy Hy] HrLO HrHI HovL HovH HL HH.
  pose proof scale_val. pose proof femin_val.
  destruct x as [sx|sx| |sx mx ex], y as [sy|sy| |sy my ey]; simpl in Hfx, Hfy;
    try contradiction; simpl in Hx, Hy.
  - unfold fsub, SFsub. destruct sx, sy; (split; [exact I | simpl; lia]).
  - unfold fsub, SFsub. split; [exact Hfy|]. simpl. unfold sgn in *. destruct sy; simpl; lia.
  - unfold fsub, SFsub. split; [exact Hfx | simpl; lia].
  - unfold fsub, SFsub.
    destruct (bounded_inv _ _ Hfx) as [_ Hex]. destruct (bounded_inv _ _ Hfy) as [_ Hey].
    apply binary_normalize_inr; [lia | exact HrLO | exact HrHI | exact HovL | exact HovH |].
    rewrite SV_sub, !aligned_value by lia. lia.
Qed.

(** *** Multiplication by a positive number *)

Lemma Zdigits2_mul a b :
  0 < a -> 0 < b -> Zdigits2 a + Zdigits2 b - 1 <= Zdigits2 (a * b).
Proof.
  intros Ha Hb.
  destruct (Zdigits2_bounds a Ha) as [Hda [Hla _]].
  destruct (Zdigits2_bounds b Hb) as [Hdb [Hlb _]].
  destruct (Z_le_gt_dec (Zdigits2 a + Zdigits2 b - 1) (Zdigits2 (a * b))) as [|Hgt];
    [assumption|]. exfalso.
  assert (Hlt : a * b < 2 ^ (Zdigits2 a + Zdigits2 b - 2)).
  { pose proof (Zdigits2_nonneg (a * b)).
    apply Zdigits2_le_iff; [apply Z.mul_pos_pos; lia | lia | lia]. }
  replace (Zdigits2 a + Zdigits2 b - 2) with ((Zdigits2 a - 1) + (Zdigits2 b - 1)) in Hlt by lia.
  rewrite pow2_add in Hlt by lia.
  assert (2 ^ (Zdigits2 a - 1) * 2 ^ (Zdigits2 b - 1) <= a * b); [|lia].
  apply Z.mul_le_mono_nonneg; try assumption; apply Z.lt_le_incl, pow2_pos; lia.
Qed.

Lemma SV_mul a ea b eb :
  0 <= ea + scale -> 0 <= eb + scale -> 0 <= ea + eb + scale ->
  SV (a * b) (ea + eb) * 2 ^ scale = SV a ea * SV b eb.
Proof.
  intros Ha Hb Hab. unfold SV. pose proof scale_val.
  replace (a * b * 2 ^ (ea + eb + scale) * 2 ^ scale)
    with (a * b * (2 ^ (ea + eb + scale) * 2 ^ scale)) by ring.
  rewrite <- pow2_add by lia.
  replace (a * 2 ^ (ea + scale) * (b * 2 ^ (eb + scale)))
    with (a * b * (2 ^ (ea + scale) * 2 ^ (eb + scale))) by ring.
  rewrite <- pow2_add by lia. f_equal. f_equal. lia.
Qed.

Lemma fmul_inr x y a b LO HI :
  within x a b -> valid y -> 0 < fval y ->
  repr LO -> repr HI -> - 2 ^ (1024 + scale) < LO -> HI < 2 ^ (1024 + scale) ->
  LO * 2 ^ scale <= a * fval y -> b * fval y <= HI * 2 ^ scale ->
  within (fmul x y) LO HI.
Proof.
  intros [Hfx Hx] Hfy Hy HrLO HrHI HovL HovH HL HH.
  pose proof scale_val as Hsc. pose proof femin_val as Hfe.
  pose proof (pow2_pos scale ltac:(lia)) as Hps.
  destruct y as [sy|sy| |sy my ey]; cbn [valid fval] in Hfy, Hy, HL, HH;
    try contradiction; try lia.
  destruct (bounded_inv _ _ Hfy) as [Hcy Hey].
  assert (sy = false).
  { destruct sy; [|reflexivity]. exfalso. unfold sgn in Hy.
    pose proof (SV_pos (Zpos my) ey ltac:(lia) ltac:(lia)). lia. }
  subst sy. change (sgn false) with 1 in Hy, HL, HH. rewrite Z.mul_1_l in Hy, HL, HH.
  set (Y := SV (Z.pos my) ey) in *.
  destruct x as [sx|sx| |sx mx ex]; simpl in Hfx; try contradiction; simpl in Hx.
  - unfold fmul, SFmul. split; [exact I|]. simpl.
    assert (LO * 2 ^ scale <= 0) by (apply Z.le_trans with (a * Y); [lia | apply Z.mul_nonpos_nonneg; lia]).
    assert (0 <= HI * 2 ^ scale) by (apply Z.le_trans with (b * Y); [apply Z.mul_nonneg_nonneg; lia | lia]).
    split.
    + destruct (Z_le_gt_dec LO 0); [assumption|]. exfalso.
      assert (0 < LO * 2 ^ scale) by (apply Z.mul_pos_pos; lia). lia.
    + destruct (Z_le_gt_dec 0 HI); [assumption|]. exfalso.
      assert (HI * 2 ^ scale < 0) by (apply Z.mul_neg_pos; lia). lia.
  - unfold fmul, SFmul. destruct (bounded_inv _ _ Hfx) as [Hcx Hex].
    rewrite xorb_false_r.
    apply round_aux_signed; [lia | lia | | exact HrLO | exact HrHI | exact HovL | exact HovH |].
    + rewrite Pos2Z.inj_mul.
      pose proof (Zdigits2_mul (Zpos mx) (Zpos my) ltac:(lia) ltac:(lia)) as Hd.
      simpl Zdigits2 in Hd at 1 2. unfold fx in *. lia.
    + rewrite Pos2Z.inj_mul.
      pose proof (SV_mul (Zpos mx) ex (Zpos my) ey ltac:(lia) ltac:(lia) ltac:(lia)) as Hm.
      fold Y in Hm. set (X := SV (Z.pos mx * Z.pos my) (ex + ey)) in *.
      set (Vx := SV (Z.pos mx) ex) in *.
      assert (HaY : a * Y <= sgn sx * Vx * Y) by (apply Z.mul_le_mono_nonneg_r; lia).
      assert (HbY : sgn sx * Vx * Y <= b * Y) by (apply Z.mul_le_mono_nonneg_r; lia).
      assert (Heq : sgn sx * X * 2 ^ scale = sgn sx * Vx * Y).
      { rewrite <- !Z.mul_assoc. f_equal. exact Hm. }
      split.
      * apply (Z.mul_le_mono_pos_r _ _ (2 ^ scale) Hps). lia.
      * apply (Z.mul_le_mono_pos_r _ _ (2 ^ scale) Hps). lia.
Qed.

(** *** Division *)

Lemma new_location_exact nb r : new_location nb r = loc_Exact <-> r = 0.
Proof.
  unfold new_location, new_location_even, new_location_odd.
  destruct (Z.even nb); destruct (Z.eqb_spec r 0) as [->|Hr];
    split; try reflexivity; try discriminate; try (intros; contradiction).
Qed.

Lemma fx_mono a b : a <= b -> fx a <= fx b.
Proof. unfold fx. lia. Qed.

Lemma div_core_spec m1 e1 m2 e2 :
  0 < m1 -> 0 < m2 ->
  let '(q, e', l) := SFdiv_core_binary prec emax m1 e1 m2 e2 in
  exists r,
    0 <= e1 - e2 - e'
    /\ m1 * 2 ^ (e1 - e2 - e') = q * m2 + r /\ 0 <= r < m2
    /\ (l = loc_Exact <-> r = 0) /\ 0 <= q
    /\ e' <= fx (Zdigits2 q + e')
    /\ Z.min femin (e1 - e2) <= e'.
Proof.
  intros Hm1 Hm2. unfold SFdiv_core_binary. rewrite fexp_fx.
  set (e' := Z.min (fx (Zdigits2 m1 + e1 - (Zdigits2 m2 + e2))) (e1 - e2)).
  set (s := e1 - e2 - e').
  assert (Hs : 0 <= s) by (unfold s, e'; lia).
  set (m' := match s with Z.pos _ => Z.shiftl m1 s | 0 => m1 | Z.neg _ => 0 end).
  assert (Hm' : m' = m1 * 2 ^ s).
  { unfold m'. destruct s as [|p|p] eqn:Hse; [simpl; lia | | lia].
    apply Z.shiftl_mul_pow2. lia. }
  pose proof (Z_div_mod m' m2 ltac:(lia)) as Hdm.
  destruct (Z.div_eucl m' m2) as [q r]. destruct Hdm as [Hdm Hr].
  exists r. cbv beta iota. change (e1 - e2 - e') with s. rewrite <- Hm'.
  pose proof (pow2_pos s Hs) as Hps.
  assert (Hm'pos : 0 < m') by (rewrite Hm'; apply Z.mul_pos_pos; lia).
  assert (Hq : 0 <= q).
  { destruct (Z_le_gt_dec 0 q); [assumption|]. exfalso.
    assert (m2 * q <= m2 * (-1)) by (apply Z.mul_le_mono_nonneg_l; lia). lia. }
  split; [exact Hs|]. split; [lia|]. split; [exact Hr|].
  split; [apply new_location_exact|]. split; [exact Hq|]. split.
  - (* enough digits in the quotient *)
    assert (Hdq : Zdigits2 m1 + s - Zdigits2 m2 <= Zdigits2 q).
    { pose proof (Zdigits2_nonneg q) as Hdq0.
      destruct (Z_le_gt_dec (Zdigits2 m1 + s - Zdigits2 m2) (Zdigits2 q)) as [|Hgt];
        [assumption|]. exfalso.
      destruct (Zdigits2_bounds m1 Hm1) as [Hd1 [Hl1 Hh1]].
      destruct (Zdigits2_bounds m2 Hm2) as [Hd2 [Hl2 Hh2]].
      set (k := Zdigits2 m1 + s - Zdigits2 m2 - 1) in *.
      assert (Hk : 0 <= k) by (unfold k; lia).
      assert (Hqk : q < 2 ^ k).
      { destruct (Z.eq_dec q 0) as [->|Hq0]; [apply pow2_pos; exact Hk|].
        apply Zdigits2_le_iff; [lia | exact Hk | unfold k; lia]. }
      (* m' < (q + 1) * m2 <= 2^k * 2^d2 = 2^(d1 - 1 + s) <= m' *)
      assert (H1 : m' < (q + 1) * m2) by lia.
      assert (H2 : (q + 1) * m2 <= 2 ^ k * 2 ^ Zdigits2 m2).
      { apply Z.mul_le_mono_nonneg; lia. }
      rewrite <- pow2_add in H2 by lia.
      replace (k + Zdigits2 m2) with ((Zdigits2 m1 - 1) + s) in H2 by (unfold k; lia).
      rewrite pow2_add in H2 by lia.
      assert (H3 : 2 ^ (Zdigits2 m1 - 1) * 2 ^ s <= m1 * 2 ^ s).
      { apply Z.mul_le_mono_nonneg_r; lia. }
      lia. }
    apply Z.le_trans with (fx (Zdigits2 m1 + e1 - (Zdigits2 m2 + e2))); [unfold e'; lia|].
    apply fx_mono. unfold s in Hdq. lia.
  - unfold e', fx. lia.
Qed.

Lemma div_round_inr m1 e1 m2 e2 HI :
  0 < m1 -> 0 < m2 -> 0 <= e1 - e2 + scale ->
  repr HI -> HI < 2 ^ (1024 + scale) ->
  m1 * 2 ^ (e1 - e2 + scale) <= HI * m2 ->
  let '(q, e', l) := SFdiv_core_binary prec emax m1 e1 m2 e2 in
  within (binary_round_aux prec emax false q e' l) 0 HI.
Proof.
  intros Hm1 Hm2 He HrHI Hov Hb. pose proof scale_val. pose proof femin_val.
  pose proof (div_core_spec m1 e1 m2 e2 Hm1 Hm2) as Hc.
  destruct (SFdiv_core_binary prec emax m1 e1 m2 e2) as [[q e'] l].
  destruct Hc as [r [Hs [Heq [Hr [Hex [Hq [Hfx Hmin]]]]]]].
  assert (He' : 0 <= e' + scale) by lia.
  pose proof (pow2_pos (e' + scale) He') as HT.
  assert (HN : m1 * 2 ^ (e1 - e2 + scale) = (q * m2 + r) * 2 ^ (e' + scale)).
  { rewrite <- Heq, <- Z.mul_assoc, <- pow2_add by lia. f_equal. f_equal. lia. }
  assert (Hle : SV q e' * m2 + r * 2 ^ (e' + scale) <= HI * m2).
  { unfold SV. rewrite <- Hb || idtac. rewrite HN in Hb. lia. }
  assert (HrT : 0 <= r * 2 ^ (e' + scale)) by (apply Z.mul_nonneg_nonneg; lia).
  assert (HSV : SV q e' <= HI).
  { apply (Z.mul_le_mono_pos_r _ _ m2 Hm2). lia. }
  apply absin_pos. apply round_aux_bounds;
    [exact Hq | lia | exact Hfx | lia | apply repr_0 | exact HrHI | exact Hov | |].
  - unfold SV. apply Z.mul_nonneg_nonneg; lia.
  - destruct (Z.eq_dec (SV q e') HI) as [Heq'|Hne]; [right | left; lia].
    split; [exact Heq'|]. apply Hex.
    rewrite Heq' in Hle.
    assert (r * 2 ^ (e' + scale) = 0) by lia.
    apply Z.mul_eq_0 in H1. lia.
Qed.

Lemma int_truediv_inr a b K :
  0 <= a -> 0 < b -> a <= K * b ->
  repr (K * 2 ^ scale) -> K * 2 ^ scale < 2 ^ (1024 + scale) ->
  exists f, int_truediv a b = Ok f /\ within f 0 (K * 2 ^ scale).
Proof.
  intros Ha Hb Hab HrK Hov. pose proof scale_val.
  pose proof (pow2_pos scale ltac:(lia)) as Hps.
  unfold int_truediv.
  destruct (Z.eqb_spec b 0) as [|_]; [lia|].
  destruct (Z.eqb_spec a 0) as [->|Hne].
  - eexists. split; [reflexivity|]. split; [exact I|]. simpl.
    assert (0 <= K).
    { destruct (Z_le_gt_dec 0 K); [assumption|]. exfalso.
      assert (K * b < 0) by (apply Z.mul_neg_pos; lia). lia. }
    split; [lia | apply Z.mul_nonneg_nonneg; lia].
  - rewrite !Z.abs_eq by lia.
    replace (a <? 0) with false by (symmetry; apply Z.ltb_ge; lia).
    replace (b <? 0) with false by (symmetry; apply Z.ltb_ge; lia).
    cbn [xorb].
    pose proof (div_round_inr a 0 b 0 (K * 2 ^ scale) ltac:(lia) Hb ltac:(lia) HrK Hov) as Hd.
    assert (Hcond : a * 2 ^ (0 - 0 + scale) <= K * 2 ^ scale * b).
    { replace (0 - 0 + scale) with scale by lia.
      replace (K * 2 ^ scale * b) with (K * b * 2 ^ scale) by ring.
      apply Z.mul_le_mono_nonneg_r; lia. }
    specialize (Hd Hcond).
    destruct (SFdiv_core_binary prec emax a 0 b 0) as [[q e'] l].
    set (r := binary_round_aux prec emax false q e' l) in *.
    destruct Hd as [Hfin Hval].
    destruct r as [s|s| |s m e]; simpl in Hfin; try contradiction; simpl is_inf; cbv iota;
      eexists; (split; [reflexivity|]); (split; [exact Hfin | exact Hval]).
Qed.

Lemma fdiv_inr x y b HI :
  within x 0 b -> valid y -> 0 < fval y ->
  repr HI -> HI < 2 ^ (1024 + scale) ->
  b * 2 ^ scale <= HI * fval y ->
  within (fdiv x y) 0 HI.
Proof.
  intros [Hfx Hx] Hfy Hy HrHI Hov Hb.
  pose proof scale_val as Hsc. pose proof femin_val as Hfe.
  pose proof (pow2_pos scale ltac:(lia)) as Hps.
  destruct y as [sy|sy| |sy my ey]; cbn [valid fval] in Hfy, Hy, Hb;
    try contradiction; try lia.
  destruct (bounded_inv _ _ Hfy) as [Hcy Hey].
  assert (sy = false).
  { destruct sy; [|reflexivity]. exfalso. unfold sgn in Hy.
    pose proof (SV_pos (Zpos my) ey ltac:(lia) ltac:(lia)). lia. }
  subst sy. change (sgn false) with 1 in Hy, Hb. rewrite Z.mul_1_l in Hy, Hb.
  destruct x as [sx|sx| |sx mx ex]; cbn [valid fval] in Hfx, Hx; try contradiction.
  - unfold fdiv, SFdiv. split; [exact I|]. simpl.
    split; [lia|]. destruct (Z_le_gt_dec 0 HI); [assumption|]. exfalso.
    assert (HI * SV (Z.pos my) ey < 0) by (apply Z.mul_neg_pos; lia).
    assert (0 <= b * 2 ^ scale) by (apply Z.mul_nonneg_nonneg; lia). lia.
  - destruct (bounded_inv _ _ Hfx) as [Hcx Hex].
    assert (sx = false).
    { destruct sx; [|reflexivity]. exfalso. unfold sgn in Hx.
      pose proof (SV_pos (Zpos mx) ex ltac:(lia) ltac:(lia)). lia. }
    subst sx. change (sgn false) with 1 in Hx. rewrite Z.mul_1_l in Hx.
    unfold fdiv, SFdiv. cbn [xorb].
    pose proof (div_round_inr (Zpos mx) ex (Zpos my) ey HI ltac:(lia) ltac:(lia)
                  ltac:(lia) HrHI Hov) as Hd.
    assert (Hcond : Z.pos mx * 2 ^ (ex - ey + scale) <= HI * Z.pos my).
    { pose proof (pow2_pos (ey + scale) ltac:(lia)) as HP.
      apply (Z.mul_le_mono_pos_r _ _ (2 ^ (ey + scale)) HP).
      rewrite <- !Z.mul_assoc, <- pow2_add by lia.
      replace (ex - ey + scale + (ey + scale)) with ((ex + scale) + scale) by lia.
      rewrite pow2_add by lia. rewrite Z.mul_assoc.
      fold (SV (Zpos mx) ex). fold (SV (Zpos my) ey).
      apply Z.le_trans with (b * 2 ^ scale); [|exact Hb].
      apply Z.mul_le_mono_nonneg_r; lia. }
    specialize (Hd Hcond).
    destruct (SFdiv_core_binary prec emax (Z.pos mx) ex (Z.pos my) ey) as [[q e'] l].
    exact Hd.
Qed.

(** *** Truncation to an integer *)

Lemma py_int_inr f lo hi :
  within f (lo * 2 ^ scale) (hi * 2 ^ scale) ->
  exists n, py_int (PyFloat f) = Ok n /\ lo <= n <= hi.
Proof.
  intros [Hf Hv]. pose proof scale_val as Hsc. pose proof femin_val as Hfe.
  pose proof (pow2_pos scale ltac:(lia)) as Hps.
  destruct f as [s|s| |s m e]; cbn [valid fval] in Hf, Hv; try contradiction.
  - exists 0. split; [reflexivity|]. split.
    + destruct (Z_le_gt_dec lo 0); [assumption|]. exfalso.
      assert (0 < lo * 2 ^ scale) by (apply Z.mul_pos_pos; lia). lia.
    + destruct (Z_le_gt_dec 0 hi); [assumption|]. exfalso.
      assert (hi * 2 ^ scale < 0) by (apply Z.mul_neg_pos; lia). lia.
  - destruct (bounded_inv _ _ Hf) as [_ He].
    eexists. split; [reflexivity|]. unfold trunc.
    set (v := match e with
              | Z.neg p => Z.shiftr (Z.pos m) (Z.pos p)
              | _ => Z.shiftl (Z.pos m) e
              end).
    assert (Hvb : forall lo' hi', lo' * 2 ^ scale <= SV (Zpos m) e <= hi' * 2 ^ scale ->
                  lo' <= v <= hi').
    { intros lo' hi' [H1 H2]. unfold SV in H1, H2.
      destruct (Z_le_gt_dec 0 e) as [Hpos|Hneg].
      - assert (Hv' : v = Z.pos m * 2 ^ e).
        { unfold v. destruct e as [|p|p]; try lia; apply Z.shiftl_mul_pow2; lia. }
        rewrite pow2_add, Z.mul_assoc in H1, H2 by lia. rewrite Hv'.
        split; apply (Z.mul_le_mono_pos_r _ _ (2 ^ scale) Hps); assumption.
      - assert (Hv' : v = Z.pos m / 2 ^ (- e)).
        { unfold v. destruct e as [|p|p]; try lia.
          rewrite Z.shiftr_div_pow2 by lia. reflexivity. }
        pose proof (pow2_pos (- e) ltac:(lia)) as Hpk.
        pose proof (pow2_pos (e + scale) ltac:(lia)) as Hpe.
        assert (Hsplit : 2 ^ scale = 2 ^ (- e) * 2 ^ (e + scale)).
        { rewrite <- pow2_add by lia. f_equal. lia. }
        rewrite Hsplit, Z.mul_assoc in H1, H2.
        apply Z.mul_le_mono_pos_r in H1; [|exact Hpe].
        apply Z.mul_le_mono_pos_r in H2; [|exact Hpe].
        rewrite Hv'. split.
        + apply Z.div_le_lower_bound; lia.
        + apply Z.div_le_upper_bound; lia. }
    destruct s; unfold sgn in Hv.
    + specialize (Hvb (- hi) (- lo)). lia.
    + specialize (Hvb lo hi). lia.
Qed.

(** *** Comparison with zero *)

Lemma py_max_zero f :
  valid f -> py_max (PyInt 0) (PyFloat f) = if is_pos f then PyFloat f else PyInt 0.
Proof.
  destruct f as [s|s| |s m e]; simpl; try contradiction; intros _.
  - reflexivity.
  - destruct s; reflexivity.
Qed.

Lemma is_pos_fval f : valid f -> is_pos f = true -> 0 < fval f.
Proof.
  destruct f as [s|s| |s m e]; simpl; try discriminate. intros Hb.
  destruct s; [discriminate|]. intros _. pose proof scale_val. pose proof femin_val.
  destruct (bounded_inv _ _ Hb) as [_ He]. unfold sgn.
  pose proof (SV_pos (Zpos m) e ltac:(lia) ltac:(lia)). lia.
Qed.

(** *** Constants *)

Lemma reprb_true B : reprb B = true -> repr B.
Proof.
  unfold reprb, repr. intros H. apply Z.eqb_eq in H.
  apply Z.mod_divide; [|exact H].
  pose proof (cexp_ge (Z.abs B)). pose proof scale_val. pose proof femin_val.
  pose proof (pow2_pos (cexp (Z.abs B)) ltac:(lia)). lia.
Qed.

End FloatBoundsFacts.

Ltac small := split; [apply Z.leb_le | apply Z.ltb_lt]; reflexivity.
Ltac solve_repr := apply reprb_true; vm_compute; reflexivity.
Ltac solve_lt := apply Z.ltb_lt; vm_compute; reflexivity.
Ltac in_list := repeat (first [left; reflexivity | right]).

(** ** Keyword match *)

Section KeywordMatch.
Import Py Num Re Ats AtsFactors FloatBounds.
Local Open Scope Z_scope.

Lemma repr_small k : 0 <= k < 2 ^ 53 -> repr (k * 2 ^ scale).
Proof.
  intros Hk. pose proof scale_val as Hsc. pose proof femin_val as Hfe.
  pose proof (pow2_pos scale ltac:(lia)) as Hps.
  destruct (Z.eq_dec k 0) as [->|Hk0]; [apply repr_0|].
  unfold repr. rewrite Z.abs_eq by (apply Z.mul_nonneg_nonneg; lia).
  apply Z.divide_trans with (2 ^ scale); [|apply Z.divide_factor_r].
  apply pow2_divide. pose proof (cexp_ge (k * 2 ^ scale)).
  split; [lia|]. unfold cexp. rewrite Zdigits2_mul_pow by lia.
  assert (Zdigits2 k <= 53) by (apply Zdigits2_le_iff; lia). lia.
Qed.

Lemma small_no_overflow k : 0 <= k < 2 ^ 53 -> k * 2 ^ scale < 2 ^ (1024 + scale).
Proof.
  intros Hk. pose proof scale_val as Hsc.
  pose proof (pow2_pos scale ltac:(lia)) as Hps.
  rewrite (Z.add_comm 1024), pow2_add by lia. rewrite Z.mul_comm.
  apply Z.mul_lt_mono_pos_l; [exact Hps|].
  assert (2 ^ 53 < 2 ^ 1024) by (apply pow2_lt; lia). lia.
Qed.

Lemma of_Z_100 : valid (of_Z 100) /\ fval (of_Z 100) = 100 * 2 ^ scale.
Proof. split; vm_compute; reflexivity. Qed.

Lemma calculate_keyword_match_range resume_text job_description :
  exists m, calculate_keyword_match resume_text job_description = Ok m /\ 0 <= m <= 100.
Proof.
  unfold calculate_keyword_match.
  set (jd_words := list_to_set (findall false token_re (lower job_description)) ∖ stop_words).
  set (matched := jd_words ∩ _).
  case_bool_decide as Hempty.
  - exists 0. split; [reflexivity | lia].
  - assert (Hb : 0 < Z.of_nat (size jd_words)).
    { assert (size jd_words <> 0%nat); [|lia]. intros Hz. apply size_empty_iff in Hz.
      apply Hempty. apply leibniz_equiv. exact Hz. }
    assert (Ha : Z.of_nat (size matched) <= 1 * Z.of_nat (size jd_words)).
    { assert (size matched <= size jd_words)%nat; [|lia].
      apply subseteq_size. unfold matched. apply intersection_subseteq_l. }
    pose proof scale_val as Hsc. pose proof (pow2_pos scale ltac:(lia)) as Hps.
    destruct (int_truediv_inr (Z.of_nat (size matched)) (Z.of_nat (size jd_words)) 1
                ltac:(lia) Hb Ha (repr_small 1 ltac:(small))
                (small_no_overflow 1 ltac:(small))) as [f [Hf Hin]].
    unfold py_truediv. rewrite Hf. cbn [fmap res_fmap mbind res_bind py_mul to_float].
    destruct of_Z_100 as [Hfin Hval].
    apply py_int_inr. apply (fmul_inr f (of_Z 100) 0 (1 * 2 ^ scale)).
    + exact Hin.
    + exact Hfin.
    + rewrite Hval. apply Z.mul_pos_pos; lia.
    + rewrite Z.mul_0_l. apply repr_0.
    + apply repr_small. small.
    + rewrite Z.mul_0_l. pose proof (pow2_pos (1024 + scale) ltac:(lia)). lia.
    + apply small_no_overflow. small.
    + rewrite !Z.mul_0_l. lia.
    + rewrite Hval. lia.
Qed.

End KeywordMatch.

(** ** The score table *)

Section ScoreTableFacts.
Import Py Num Re Ats AtsFactors FloatBounds ScoreTable.
Local Open Scope Z_scope.

Lemma base_check_ok :
  forallb (fun c => forallb (fun k => forallb (fun sk => forallb (fun ed =>
  forallb (fun ex => forallb (fun wc => base_entry_ok c k sk ed ex wc)
    word_levels) experience_levels) education_levels) skills_levels)
    section_levels) contact_levels = true.
Proof. vm_compute. reflexivity. Qed.

Lemma rows_eq : rows = map (fun kb => (fst kb, row (snd kb))) base_table.
Proof. vm_compute. reflexivity. Qed.

Lemma rows_ok : forallb (fun kr => row_ok (snd kr)) rows = true.
Proof. vm_compute. reflexivity. Qed.

Lemma rows_sorted : sorted_rows rows = true.
Proof. vm_compute. reflexivity. Qed.

Lemma float_eqb_eq a b : float_eqb a b = true -> a = b.
Proof.
  destruct a as [s|s| |s m e], b as [s'|s'| |s' m' e']; simpl; try discriminate.
  - intros H. apply Bool.eqb_prop in H. congruence.
  - rewrite !andb_true_iff. intros [[H1 H2] H3].
    apply Bool.eqb_prop in H1. apply Pos.eqb_eq in H2. apply Z.eqb_eq in H3. congruence.
Qed.

Lemma base_score_table c k sk ed ex wc :
  points_ok c k sk ed ex wc ->
  exists b, lookup_key (key c k sk ed ex wc) base_table = Some b
            /\ base_score c k sk ed ex wc = Ok (PyFloat b).
Proof.
  intros [Hc [Hk [Hsk [Hed [Hex Hwc]]]]].
  pose proof base_check_ok as H.
  rewrite forallb_forall in H. specialize (H c Hc).
  rewrite forallb_forall in H. specialize (H k Hk).
  rewrite forallb_forall in H. specialize (H sk Hsk).
  rewrite forallb_forall in H. specialize (H ed Hed).
  rewrite forallb_forall in H. specialize (H ex Hex).
  rewrite forallb_forall in H. specialize (H wc Hwc).
  unfold base_entry_ok in H.
  destruct (base_score c k sk ed ex wc) as [[z|b]|e]; try discriminate.
  destruct (lookup_key (key c k sk ed ex wc) base_table) as [b'|]; [|discriminate].
  apply float_eqb_eq in H. subst b'. exists b. split; reflexivity.
Qed.

Lemma lookup_key_In kk l b : lookup_key kk l = Some b -> In (kk, b) l.
Proof.
  induction l as [|[k b'] l IH]; simpl; [discriminate|].
  destruct (Z.eqb_spec k kk) as [->|Hne].
  - intros H. injection H as ->. left. reflexivity.
  - intros H. right. apply IH. exact H.
Qed.

Lemma rows_le_refl r : rows_le r r = true.
Proof. induction r as [|a r IH]; simpl; [reflexivity|]. rewrite Z.leb_refl. exact IH. Qed.

Lemma rows_le_trans r1 r2 r3 :
  rows_le r1 r2 = true -> rows_le r2 r3 = true -> rows_le r1 r3 = true.
Proof.
  revert r2 r3. induction r1 as [|a r1 IH]; intros [|b r2] [|c r3]; simpl;
    try discriminate; try reflexivity.
  rewrite !andb_true_iff, !Z.leb_le. intros [H1 H2] [H3 H4].
  split; [lia | eapply IH; eassumption].
Qed.

Lemma rows_le_nth r1 r2 i :
  rows_le r1 r2 = true -> nth i r1 0 <= nth i r2 0.
Proof.
  revert r2 i. induction r1 as [|a r1 IH]; intros [|b r2] i; simpl; try discriminate.
  - intros _. destruct i; lia.
  - rewrite andb_true_iff, Z.leb_le. intros [H1 H2]. destruct i; [exact H1|].
    apply IH. exact H2.
Qed.

Lemma row_mono_nth r i j :
  row_mono r = true -> (i <= j < length r)%nat -> nth i r 0 <= nth j r 0.
Proof.
  revert i j. induction r as [|a r IH]; intros i j Hm Hij; simpl in Hij; [lia|].
  assert (Hr : row_mono r = true).
  { simpl in Hm. destruct r; [reflexivity|]. apply andb_true_iff in Hm. apply Hm. }
  destruct j as [|j].
  - assert (i = 0)%nat by lia. subst i. lia.
  - destruct i as [|i].
    + simpl nth at 1. apply Z.le_trans with (nth 0 r 0).
      * simpl in Hm. destruct r as [|b r]; [simpl in Hij; lia|].
        apply andb_true_iff in Hm. destruct Hm as [Hm _]. apply Z.leb_le in Hm. exact Hm.
      * apply IH; [exact Hr | lia].
    + simpl. apply IH; [exact Hr | lia].
Qed.

Lemma sorted_rows_head k1 r1 l :
  sorted_rows ((k1, r1) :: l) = true ->
  forall k2 r2, In (k2, r2) l -> k1 < k2 /\ rows_le r1 r2 = true.
Proof.
  revert k1 r1. induction l as [|[k r] l IH]; intros k1 r1 Hs k2 r2 Hin; [destruct Hin|].
  cbn [sorted_rows] in Hs. rewrite !andb_true_iff in Hs. destruct Hs as [[Hk Hr] Hs].
  apply Z.ltb_lt in Hk. destruct Hin as [Heq|Hin].
  - injection Heq as <- <-. split; assumption.
  - destruct (IH k r Hs k2 r2 Hin) as [Hk' Hr'].
    split; [lia | eapply rows_le_trans; eassumption].
Qed.

Lemma sorted_rows_tail a l : sorted_rows (a :: l) = true -> sorted_rows l = true.
Proof.
  destruct a as [k1 r1]. destruct l as [|[k2 r2] l]; [reflexivity|].
  cbn [sorted_rows]. rewrite !andb_true_iff. intros [_ H]. exact H.
Qed.

Lemma sorted_rows_pairs l :
  sorted_rows l = true ->
  forall k1 r1 k2 r2, In (k1, r1) l -> In (k2, r2) l -> k1 <= k2 ->
  rows_le r1 r2 = true.
Proof.
  induction l as [|[k r] l IH]; intros Hs k1 r1 k2 r2 H1 H2 Hle; [destruct H1|].
  pose proof (sorted_rows_head k r l Hs) as Hh.
  pose proof (sorted_rows_tail _ _ Hs) as Ht.
  destruct H1 as [E1|H1], H2 as [E2|H2].
  - injection E1 as <- <-. injection E2 as <- <-. apply rows_le_refl.
  - injection E1 as <- <-. apply (Hh k2 r2 H2).
  - injection E2 as <- <-. destruct (Hh k1 r1 H1) as [Hlt _]. lia.
  - apply (IH Ht k1 r1 k2 r2 H1 H2 Hle).
Qed.

Lemma rows_In k b : In (k, b) base_table -> In (k, row b) rows.
Proof.
  intros H. rewrite rows_eq.
  exact (in_map (fun kb => (fst kb, row (snd kb))) base_table (k, b) H).
Qed.

Lemma table_row_ok k b : In (k, b) base_table -> row_ok (row b) = true.
Proof.
  intros H. pose proof rows_ok as Ht.
  rewrite forallb_forall in Ht. exact (Ht (k, row b) (rows_In k b H)).
Qed.

Lemma table_rows_le k1 b1 k2 b2 :
  In (k1, b1) base_table -> In (k2, b2) base_table -> k1 <= k2 ->
  rows_le (row b1) (row b2) = true.
Proof.
  intros H1 H2 Hle.
  exact (sorted_rows_pairs rows rows_sorted k1 (row b1) k2 (row b2)
           (rows_In k1 b1 H1) (rows_In k2 b2 H2) Hle).
Qed.

End ScoreTableFacts.

Section ScoreCells.
Import Py Num Re Ats AtsFactors FloatBounds ScoreTable.
Local Open Scope Z_scope.

Lemma c07_eq : literal 7 10 = c07.
Proof. vm_compute. reflexivity. Qed.

Lemma Qs_eq : Qs = map (fun m => fmul (of_Z m) (literal 3 10)) match_levels.
Proof. vm_compute. reflexivity. Qed.

Lemma value_ok x : 0 <= value x -> exists n, py_int (PyFloat x) = Ok n /\ value x = Z.min n 100.
Proof.
  unfold value. destruct (py_int (PyFloat x)) as [n|e]; [|lia].
  intros _. exists n. split; reflexivity.
Qed.

Lemma nth_row_S b i :
  (i < 101)%nat ->
  nth (S i) (row b) 0
  = value (fadd (fmul b (literal 7 10)) (fmul (of_Z (Z.of_nat i)) (literal 3 10))).
Proof.
  intros Hi. unfold row. cbv zeta. cbn [nth]. rewrite Qs_eq, List.map_map, c07_eq.
  set (h := fun m => value (fadd (fmul b c07) (fmul (of_Z m) (literal 3 10)))).
  rewrite (nth_indep _ 0 (h 0)).
  2:{ unfold match_levels. rewrite !List.length_map, List.length_seq. exact Hi. }
  rewrite (map_nth h). unfold match_levels.
  change 0 with (Z.of_nat 0) at 1. rewrite (map_nth Z.of_nat).
  rewrite List.seq_nth by exact Hi. reflexivity.
Qed.

Lemma row_ok_inv r :
  row_ok r = true ->
  8 <= nth 0 r 0 <= 100
  /\ (forall i, (i < 101)%nat -> 5 <= nth (S i) r 0 <= 100)
  /\ (forall i j, (i <= j < 101)%nat -> nth (S i) r 0 <= nth (S j) r 0).
Proof.
  destruct r as [|plain blended]; [discriminate|]. unfold row_ok.
  rewrite !andb_true_iff. intros [[[[H1 H2] H3] H4] H5].
  apply Z.leb_le in H1, H2. apply Nat.eqb_eq in H5.
  split; [simpl; lia|]. split.
  - intros i Hi. cbn [nth]. rewrite forallb_forall in H3.
    assert (Hin : In (nth i blended 0) blended) by (apply nth_In; lia).
    specialize (H3 _ Hin). apply andb_true_iff in H3. destruct H3 as [Ha Hb].
    apply Z.leb_le in Ha, Hb. lia.
  - intros i j Hij. cbn [nth]. apply row_mono_nth; [exact H4 | lia].
Qed.

Lemma finish_table b m :
  row_ok (row b) = true -> match_ok m ->
  finish (PyFloat b) m = Ok (nth (col m) (row b) 0).
Proof.
  intros Hr Hm. destruct (row_ok_inv _ Hr) as [H0 [H1 _]].
  destruct m as [a|]; unfold finish, blend.
  - simpl in Hm. assert (Ha : (Z.to_nat a < 101)%nat) by lia.
    specialize (H1 (Z.to_nat a) Ha).
    assert (Ea : Z.of_nat (Z.to_nat a) = a) by lia.
    cbn [col]. rewrite (nth_row_S b _ Ha) in H1 |- *. rewrite Ea in H1 |- *.
    destruct H1 as [H1 _].
    assert (H05 : 0 <= 5) by lia.
    destruct (value_ok _ (Z.le_trans _ _ _ H05 H1)) as [n [Hn Hv]].
    cbn [py_mul py_add to_float]. rewrite Hn. cbn [mbind res_bind py_int].
    rewrite Hv. reflexivity.
  - cbn [col]. change (nth 0 (row b) 0) with (value b) in *.
    destruct H0 as [H0 _].
    assert (H08 : 0 <= 8) by lia.
    destruct (value_ok b (Z.le_trans _ _ _ H08 H0)) as [n [Hn Hv]].
    cbn [mbind res_bind]. rewrite Hn. cbn [mbind res_bind].
    rewrite Hv. reflexivity.
Qed.

Lemma combine_table c k sk ed ex wc m :
  points_ok c k sk ed ex wc -> match_ok m ->
  exists b, In (key c k sk ed ex wc, b) base_table
            /\ row_ok (row b) = true
            /\ combine c k sk ed ex wc m = Ok (nth (col m) (row b) 0).
Proof.
  intros Hp Hm. destruct (base_score_table _ _ _ _ _ _ Hp) as [b [Hl Hb]].
  apply lookup_key_In in Hl. pose proof (table_row_ok _ _ Hl) as Hr.
  exists b. split; [exact Hl|]. split; [exact Hr|].
  unfold combine. rewrite Hb. cbn [mbind res_bind].
  apply finish_table; assumption.
Qed.

Lemma combine_range c k sk ed ex wc m :
  points_ok c k sk ed ex wc -> match_ok m ->
  exists n, combine c k sk ed ex wc m = Ok n
            /\ match m with Some _ => 5 | None => 8 end <= n <= 100.
Proof.
  intros Hp Hm. destruct (combine_table _ _ _ _ _ _ m Hp Hm) as [b [_ [Hr Hc]]].
  exists (nth (col m) (row b) 0). split; [exact Hc|].
  destruct (row_ok_inv _ Hr) as [H0 [H1 _]].
  destruct m as [a|]; cbn [col].
  - simpl in Hm. apply H1. lia.
  - exact H0.
Qed.

Lemma combine_mono c1 k1 sk1 ed1 ex1 wc1 m1 c2 k2 sk2 ed2 ex2 wc2 m2 :
  points_ok c1 k1 sk1 ed1 ex1 wc1 -> points_ok c2 k2 sk2 ed2 ex2 wc2 ->
  match_ok m1 -> match_ok m2 ->
  c1 <= c2 -> k1 <= k2 -> sk1 <= sk2 -> ed1 <= ed2 -> ex1 <= ex2 -> wc1 <= wc2 ->
  match_le m1 m2 ->
  exists n1 n2, combine c1 k1 sk1 ed1 ex1 wc1 m1 = Ok n1
                /\ combine c2 k2 sk2 ed2 ex2 wc2 m2 = Ok n2
                /\ n1 <= n2.
Proof.
  intros Hp1 Hp2 Hm1 Hm2 Hc Hk Hsk Hed Hex Hwc Hm.
  destruct (combine_table _ _ _ _ _ _ m1 Hp1 Hm1) as [b1 [Hi1 [Hr1 Hc1]]].
  destruct (combine_table _ _ _ _ _ _ m2 Hp2 Hm2) as [b2 [Hi2 [Hr2 Hc2]]].
  eexists _, _. split; [exact Hc1|]. split; [exact Hc2|].
  assert (Hkey : key c1 k1 sk1 ed1 ex1 wc1 <= key c2 k2 sk2 ed2 ex2 wc2)
    by (unfold key; lia).
  pose proof (table_rows_le _ _ _ _ Hi1 Hi2 Hkey) as Hle.
  apply Z.le_trans with (nth (col m1) (row b2) 0).
  - apply rows_le_nth. exact Hle.
  - destruct (row_ok_inv _ Hr2) as [_ [_ Hmono]].
    destruct m1 as [a1|], m2 as [a2|]; simpl in Hm; try contradiction.
    + simpl in Hm1, Hm2. cbn [col]. apply Hmono. lia.
    + cbn [col]. lia.
Qed.

End ScoreCells.

Section AtsScore.
Import Py Num Re Ats AtsFactors FloatBounds ScoreTable Factors.
Local Open Scope Z_scope.

Lemma factor_points_ok text :
  points_ok (contact_points text) (sections_present text) (skills_points text)
            (education_points text) (experience_points text) (word_count_points text).
Proof.
  unfold points_ok. repeat split.
  - unfold contact_points. cbv zeta.
    destruct (truthy (email _)), (truthy (phone _)); in_list.
  - unfold sections_present, section_values.
    destruct (check_resume_sections text) as [a b c d e f]. cbn [sec_contact_info sec_summary sec_experience sec_education sec_skills sec_projects].
    destruct a, b, c, d, e, f; in_list.
  - unfold skills_points. cbv zeta. set (n := total_skills_of _).
    destruct (15 <? n), (10 <? n), (5 <? n); in_list.
  - unfold education_points. destruct (extract_education text); in_list.
  - unfold experience_points. cbv zeta. set (n := extract_experience_years _).
    destruct (5 <? n), (2 <? n), (0 <? n); in_list.
  - unfold word_count_points. set (n := word_count _).
    destruct ((400 <? n) && (n <? 800)), ((300 <? n) && (n <? 1000)); in_list.
Qed.

Lemma keyword_points_ok text job_description :
  exists m, keyword_points text job_description = Ok m /\ match_ok m
            /\ (if truthy job_description then m <> None else m = None).
Proof.
  unfold keyword_points. destruct (truthy job_description).
  - destruct (calculate_keyword_match_range text (default [] job_description))
      as [m [Hm Hr]].
    exists (Some m). rewrite Hm. split; [reflexivity|]. split; [exact Hr|discriminate].
  - exists None. split; [reflexivity|]. split; [exact I|reflexivity].
Qed.

Lemma calculate_ats_score_combine text job_description m :
  keyword_points text job_description = Ok m ->
  calculate_ats_score text job_description
  = combine (contact_points text) (sections_present text) (skills_points text)
            (education_points text) (experience_points text) (word_count_points text) m.
Proof.
  intros Hm. rewrite calculate_ats_score_factors. unfold combine.
  destruct (base_score _ _ _ _ _ _) as [score|e]; [|reflexivity].
  cbn [mbind res_bind]. rewrite Hm. reflexivity.
Qed.

(** C1: [calculate_ats_score] returns, for every text and every job
    description or none, an integer between 0 and 100; its last step
    truncates the score to an integer and takes the minimum with 100, on
    the plain path and on the path that blends in the keyword match. *)
Theorem calculate_ats_score_range text job_description :
  exists score i,
    (s ← base_score (contact_points text) (sections_present text) (skills_points text)
           (education_points text) (experience_points text) (word_count_points text);
     m ← keyword_points text job_description;
     blend s m) = Ok score
    /\ py_int score = Ok i
    /\ calculate_ats_score text job_description = Ok (Z.min i 100)
    /\ 0 <= Z.min i 100 <= 100.
Proof.
  destruct (keyword_points_ok text job_description) as [m [Hm [Hok _]]].
  pose proof (calculate_ats_score_combine text job_description m Hm) as Hc.
  destruct (combine_range _ _ _ _ _ _ m (factor_points_ok text) Hok) as [n [Hn Hr]].
  rewrite Hn in Hc. rewrite Hc. unfold combine, finish in Hn.
  destruct (base_score _ _ _ _ _ _) as [s|e]; [|discriminate].
  cbn [mbind res_bind] in Hn |- *. rewrite Hm. cbn [mbind res_bind].
  destruct (blend s m) as [score|e]; [|discriminate].
  cbn [mbind res_bind] in Hn. destruct (py_int score) as [i|e] eqn:Hi; [|discriminate].
  cbn [mbind res_bind] in Hn. injection Hn as Hn.
  exists score, i. split; [reflexivity|]. split; [exact Hi|].
  split; [congruence|]. rewrite Hn. destruct m; lia.
Qed.

(** C9: the score is at least 8 without a job description and at least 5
    with one, so it is never 0: the skills always give at least 5 points
    and the word count at least 3. The empty text reaches both bounds. *)
Theorem calculate_ats_score_lower_bound text job_description :
  (exists n, calculate_ats_score text job_description = Ok n
             /\ (if truthy job_description then 5 else 8) <= n
             /\ n <> 0)
  /\ 5 <= skills_points text
  /\ 3 <= word_count_points text
  /\ calculate_ats_score [] None = Ok 8
  /\ calculate_ats_score [] (Some (str "python")) = Ok 5.
Proof.
  split.
  - destruct (keyword_points_ok text job_description) as [m [Hm [Hok Hj]]].
    rewrite (calculate_ats_score_combine text job_description m Hm).
    destruct (combine_range _ _ _ _ _ _ m (factor_points_ok text) Hok) as [n [Hn Hr]].
    exists n. split; [exact Hn|].
    destruct (truthy job_description), m as [a|]; try congruence; lia.
  - split; [|split; [|split; vm_compute; reflexivity]].
    + unfold skills_points. cbv zeta. set (n := total_skills_of _).
      destruct (15 <? n), (10 <? n), (5 <? n); lia.
    + unfold word_count_points. set (n := word_count _).
      destruct ((400 <? n) && (n <? 800)), ((300 <? n) && (n <? 1000)); lia.
Qed.

Lemma factor_points_Some f text job_description :
  f <> KeywordMatch ->
  exists p, factor_points f text job_description = Some p.
Proof. destruct f; intros H; try congruence; eexists; reflexivity. Qed.

Lemma skills_points_total text1 text2 :
  total_skills_of (extract_skills text1) = total_skills_of (extract_skills text2) ->
  skills_points text1 = skills_points text2.
Proof. unfold skills_points. cbv zeta. intros ->. reflexivity. Qed.

Lemma experience_points_years text1 text2 :
  extract_experience_years text1 = extract_experience_years text2 ->
  experience_points text1 = experience_points text2.
Proof. unfold experience_points. cbv zeta. intros ->. reflexivity. Qed.

Lemma education_points_has text1 text2 :
  match extract_education text1 with [] => false | _ => true end
  = match extract_education text2 with [] => false | _ => true end ->
  education_points text1 = education_points text2.
Proof.
  unfold education_points.
  destruct (extract_education text1), (extract_education text2);
    intros H; try discriminate; reflexivity.
Qed.

Lemma contact_points_has text1 text2 :
  truthy (email (extract_contact_info text1)) = truthy (email (extract_contact_info text2)) ->
  truthy (phone (extract_contact_info text1)) = truthy (phone (extract_contact_info text2)) ->
  contact_points text1 = contact_points text2.
Proof. unfold contact_points. cbv zeta. intros -> ->. reflexivity. Qed.

(** Equal values of a sub-factor give equal points. *)
Lemma factor_value_points f text1 jd1 text2 jd2 :
  factor_value f text1 jd1 = factor_value f text2 jd2 ->
  factor_points f text1 jd1 = factor_points f text2 jd2.
Proof.
  destruct f; cbn [factor_value factor_points]; intros H.
  1: injection H as H H'. all: try injection H as H.
  - f_equal. apply contact_points_has; assumption.
  - congruence.
  - f_equal. apply skills_points_total. exact H.
  - f_equal. apply education_points_has. exact H.
  - f_equal. apply experience_points_years. exact H.
  - congruence.
  - rewrite H. reflexivity.
Qed.

Lemma points_le_refl f text jd : points_le (factor_points f text jd) (factor_points f text jd).
Proof. destruct (factor_points f text jd); simpl; [lia|exact I]. Qed.

(** C8: two inputs that agree on the values of all the sub-factors except
    one, with at least as many points from that one on the second input,
    receive scores in the same order. *)
Theorem calculate_ats_score_monotone text1 jd1 text2 jd2 (f : factor) :
  (forall g, g <> f -> factor_value g text1 jd1 = factor_value g text2 jd2) ->
  points_le (factor_points f text1 jd1) (factor_points f text2 jd2) ->
  exists n1 n2,
    calculate_ats_score text1 jd1 = Ok n1
    /\ calculate_ats_score text2 jd2 = Ok n2
    /\ n1 <= n2.
Proof.
  intros Hagree Hf.
  assert (Hall : forall g, points_le (factor_points g text1 jd1) (factor_points g text2 jd2)).
  { intros g. destruct (decide (g = f)) as [->|Hne]; [exact Hf|].
    rewrite (factor_value_points g _ _ _ _ (Hagree g Hne)). apply points_le_refl. }
  destruct (keyword_points_ok text1 jd1) as [m1 [Hm1 [Hok1 _]]].
  destruct (keyword_points_ok text2 jd2) as [m2 [Hm2 [Hok2 _]]].
  rewrite (calculate_ats_score_combine text1 jd1 m1 Hm1).
  rewrite (calculate_ats_score_combine text2 jd2 m2 Hm2).
  apply combine_mono; try apply factor_points_ok; try assumption.
  - exact (Hall Contact).
  - exact (Hall Sections).
  - exact (Hall Skills).
  - exact (Hall Education).
  - exact (Hall Experience).
  - exact (Hall WordCount).
  - pose proof (Hall KeywordMatch) as H. cbn [factor_points] in H.
    rewrite Hm1, Hm2 in H. exact H.
Qed.

Lemma calculate_ats_score_monotone_witness :
  (forall g, g <> Skills ->
     factor_value g text_one_skill None = factor_value g text_six_skills None)
  /\ points_le (factor_points Skills text_one_skill None)
               (factor_points Skills text_six_skills None)
  /\ exists n1 n2,
       calculate_ats_score text_one_skill None = Ok n1
       /\ calculate_ats_score text_six_skills None = Ok n2
       /\ n1 <= n2.
Proof.
  assert (H1 : forall g, g <> Skills ->
            factor_value g text_one_skill None = factor_value g text_six_skills None).
  { intros g Hg. destruct g; try congruence; vm_compute; reflexivity. }
  assert (H2 : points_le (factor_points Skills text_one_skill None)
                         (factor_points Skills text_six_skills None)).
  { vm_compute. discriminate. }
  split; [exact H1|]. split; [exact H2|].
  apply (calculate_ats_score_monotone text_one_skill None text_six_skills None Skills H1 H2).
Defined.

End AtsScore.

(** ** [calculate_simple_readability] *)

Section ReadabilityFacts.
Import Py Num Re Ats AtsFactors FloatBounds Ai Readability.
Local Open Scope Z_scope.

Lemma calculate_simple_readability_parts text :
  calculate_simple_readability text =
  match sentences_of text with
  | [] => Ok 50
  | _ :: _ =>
      avg ← average_sentence_length text;
      ratio ← complexity_ratio text;
      half ← py_truediv (py_add (length_score avg) (complexity_score ratio)) (PyInt 2);
      readability ← py_int (PyFloat half);
      Ok (clamp readability)
  end.
Proof.
  unfold calculate_simple_readability, average_sentence_length, complexity_ratio.
  cbv zeta. destruct (sentences_of text) as [|s0 ss]; reflexivity.
Qed.

Lemma split_acc_length w s :
  (length (split_acc w s) <= length s + match w with [] => 0 | _ => 1 end)%nat.
Proof.
  revert w. induction s as [|c s IH]; intros w; cbn [split_acc].
  - destruct w; simpl; lia.
  - destruct (is_space c).
    + pose proof (IH []) as H. destruct w; simpl in *; lia.
    + pose proof (IH (c :: w)) as H. simpl in *. destruct w; lia.
Qed.

Lemma split_length s : len (Py.split s) <= len s.
Proof. unfold len, Py.split. pose proof (split_acc_length [] s). simpl in *. lia. Qed.


Lemma of_Z_15 : valid (of_Z 15) /\ fval (of_Z 15) = 15 * 2 ^ scale.
Proof. split; vm_compute; reflexivity. Qed.

Lemma of_Z_2 : valid (of_Z 2) /\ fval (of_Z 2) = 2 * 2 ^ scale.
Proof. split; vm_compute; reflexivity. Qed.

Lemma of_Z_inr z :
  0 <= z < 2 ^ 53 -> within (of_Z z) (z * 2 ^ scale) (z * 2 ^ scale).
Proof.
  intros Hz. pose proof scale_val as Hsc. unfold of_Z.
  pose proof (pow2_pos (1024 + scale) ltac:(lia)) as Hp.
  pose proof (pow2_pos scale ltac:(lia)) as Hps.
  apply binary_normalize_inr.
  - lia.
  - apply repr_small. exact Hz.
  - apply repr_small. exact Hz.
  - assert (0 <= z * 2 ^ scale) by (apply Z.mul_nonneg_nonneg; lia). lia.
  - apply small_no_overflow. exact Hz.
  - unfold SV. rewrite Z.add_0_l. lia.
Qed.

Lemma inr_weaken f a b LO HI : within f a b -> LO <= a -> b <= HI -> within f LO HI.
Proof. intros [Hf Hv] H1 H2. split; [exact Hf | lia]. Qed.

Lemma to_float_nin x lo hi :
  0 <= lo -> hi < 2 ^ 53 -> nin x lo hi ->
  within (to_float x) (lo * 2 ^ scale) (hi * 2 ^ scale).
Proof.
  intros Hlo Hhi. pose proof scale_val as Hsc.
  pose proof (pow2_pos scale ltac:(lia)) as Hps.
  destruct x as [z|f]; cbn [nin to_float]; [|tauto].
  intros Hz. apply (inr_weaken _ (z * 2 ^ scale) (z * 2 ^ scale)).
  - apply of_Z_inr. lia.
  - apply Z.mul_le_mono_nonneg_r; lia.
  - apply Z.mul_le_mono_nonneg_r; lia.
Qed.

Lemma length_score_nin avg :
  within avg 0 (9223372036854775808 * 2 ^ scale) ->
  nin (length_score (PyFloat avg)) 0 130.
Proof.
  intros Havg. pose proof scale_val as Hsc.
  pose proof (pow2_pos scale ltac:(lia)) as Hps.
  destruct of_Z_15 as [Hf15 Hv15]. destruct of_Z_2 as [Hf2 Hv2].
  destruct of_Z_100 as [Hf100 Hv100].
  assert (H1 : within (fsub avg (of_Z 15)) (-15 * 2 ^ scale)
                   (9223372036854775808 * 2 ^ scale)).
  { apply (fsub_inr avg (of_Z 15) 0 (9223372036854775808 * 2 ^ scale)
             (15 * 2 ^ scale) (15 * 2 ^ scale)).
    - exact Havg.
    - split; [exact Hf15 | lia].
    - solve_repr.
    - solve_repr.
    - solve_lt.
    - solve_lt.
    - lia.
    - lia. }
  assert (H2 : within (fmul (fsub avg (of_Z 15)) (of_Z 2)) (-30 * 2 ^ scale)
                   (18446744073709551616 * 2 ^ scale)).
  { apply (fmul_inr _ (of_Z 2) (-15 * 2 ^ scale) (9223372036854775808 * 2 ^ scale)).
    - exact H1.
    - exact Hf2.
    - rewrite Hv2. lia.
    - solve_repr.
    - solve_repr.
    - solve_lt.
    - solve_lt.
    - rewrite Hv2. lia.
    - rewrite Hv2. lia. }
  assert (H3 : within (fsub (of_Z 100) (fmul (fsub avg (of_Z 15)) (of_Z 2)))
                   (-36893488147419103232 * 2 ^ scale) (130 * 2 ^ scale)).
  { apply (fsub_inr (of_Z 100) _ (100 * 2 ^ scale) (100 * 2 ^ scale)
             (-30 * 2 ^ scale) (18446744073709551616 * 2 ^ scale)).
    - split; [exact Hf100 | lia].
    - exact H2.
    - solve_repr.
    - solve_repr.
    - solve_lt.
    - solve_lt.
    - lia.
    - lia. }
  unfold length_score. cbn [py_sub py_mul to_float].
  destruct H3 as [Hf3 Hv3]. rewrite (py_max_zero _ Hf3).
  destruct (is_pos _) eqn:Hp; cbn [nin]; [|lia].
  pose proof (is_pos_fval _ Hf3 Hp). split; [exact Hf3 | lia].
Qed.

Lemma complexity_score_nin r :
  within r 0 (1 * 2 ^ scale) -> nin (complexity_score (PyFloat r)) 0 100.
Proof.
  intros Hr. pose proof scale_val as Hsc.
  pose proof (pow2_pos scale ltac:(lia)) as Hps.
  destruct of_Z_100 as [Hf100 Hv100].
  assert (H1 : within (fmul r (of_Z 100)) 0 (100 * 2 ^ scale)).
  { apply (fmul_inr r (of_Z 100) 0 (1 * 2 ^ scale)).
    - exact Hr.
    - exact Hf100.
    - rewrite Hv100. lia.
    - apply repr_0.
    - solve_repr.
    - solve_lt.
    - solve_lt.
    - rewrite Hv100. lia.
    - rewrite Hv100. lia. }
  assert (H2 : within (fsub (of_Z 100) (fmul r (of_Z 100))) 0 (100 * 2 ^ scale)).
  { apply (fsub_inr (of_Z 100) _ (100 * 2 ^ scale) (100 * 2 ^ scale)
             0 (100 * 2 ^ scale)).
    - split; [exact Hf100 | lia].
    - exact H1.
    - apply repr_0.
    - solve_repr.
    - solve_lt.
    - solve_lt.
    - lia.
    - lia. }
  unfold complexity_score. cbn [py_sub py_mul to_float].
  destruct H2 as [Hf2 Hv2]. rewrite (py_max_zero _ Hf2).
  destruct (is_pos _) eqn:Hp; cbn [nin]; [|lia].
  split; [exact Hf2 | lia].
Qed.

Lemma half_inr L C :
  nin L 0 130 -> nin C 0 100 ->
  exists half, py_truediv (py_add L C) (PyInt 2) = Ok half
               /\ within half 0 (115 * 2 ^ scale).
Proof.
  intros HL HC. pose proof scale_val as Hsc.
  pose proof (pow2_pos scale ltac:(lia)) as Hps.
  destruct of_Z_2 as [Hf2 Hv2].
  assert (Hsum : within (fadd (to_float L) (to_float C)) 0 (230 * 2 ^ scale)).
  { apply (fadd_inr _ _ (0 * 2 ^ scale) (130 * 2 ^ scale)
             (0 * 2 ^ scale) (100 * 2 ^ scale)).
    - apply to_float_nin; [lia | solve_lt | exact HL].
    - apply to_float_nin; [lia | solve_lt | exact HC].
    - apply repr_0.
    - solve_repr.
    - solve_lt.
    - solve_lt.
    - lia.
    - lia. }
  assert (Hdiv : forall f, within f 0 (230 * 2 ^ scale) ->
                 exists half, py_truediv (PyFloat f) (PyInt 2) = Ok half
                              /\ within half 0 (115 * 2 ^ scale)).
  { intros f Hf. exists (fdiv f (of_Z 2)). split; [reflexivity|].
    apply (fdiv_inr f (of_Z 2) (230 * 2 ^ scale)).
    - exact Hf.
    - exact Hf2.
    - rewrite Hv2. lia.
    - solve_repr.
    - solve_lt.
    - rewrite Hv2. lia. }
  destruct L as [a|l], C as [b|c]; cbn [py_add]; try (apply Hdiv; exact Hsum).
  cbn [nin] in HL, HC. cbn [py_truediv].
  apply (int_truediv_inr (a + b) 2 115).
  - lia.
  - lia.
  - lia.
  - solve_repr.
  - solve_lt.
Qed.

(** C4, as stated, fails on a text of one sentence of one long word: the
    average sentence length 1 gives the length sub-score 128 in the source,
    and the score 64, where a sub-score that only loses points above 15
    gives 100, and the score 50. *)
Lemma readability_short_sentence_counterexample :
  calculate_simple_readability text_one_long_word = Ok 64
  /\ readability_spec text_one_long_word = Ok 50
  /\ average_sentence_length text_one_long_word = Ok (PyFloat (of_Z 1))
  /\ length_score (PyFloat (of_Z 1)) = PyFloat (of_Z 128)
  /\ length_score_spec (PyFloat (of_Z 1)) = PyInt 100.
Proof. vm_compute. repeat split; reflexivity. Qed.

(** C4, amended: the score is 50 when no sentence remains; otherwise it is
    the integer part of the average of the two sub-scores, between 0 and
    100, where the length sub-score is [100 - (avg - 15) * 2] not below 0,
    which exceeds 100 by 2 points for each word of the average below 15,
    and the complexity sub-score is 100 minus 100 times the fraction of the
    words of more than 7 characters.  No step raises, for a text of a
    length that a string can have. *)
Theorem calculate_simple_readability_spec text :
  len text < 2 ^ 63 ->
  (sentences_of text = [] -> calculate_simple_readability text = Ok 50)
  /\ (sentences_of text <> [] ->
      exists avg ratio half readability,
        average_sentence_length text = Ok avg
        /\ complexity_ratio text = Ok ratio
        /\ py_truediv (py_add (length_score avg) (complexity_score ratio)) (PyInt 2)
           = Ok half
        /\ py_int (PyFloat half) = Ok readability
        /\ calculate_simple_readability text = Ok (clamp readability)
        /\ 0 <= clamp readability <= 100).
Proof.
  intros Hlen. change (2 ^ 63) with 9223372036854775808 in Hlen.
  rewrite calculate_simple_readability_parts.
  split; [intros ->; reflexivity|]. intros Hne.
  pose proof scale_val as Hsc. pose proof (pow2_pos scale ltac:(lia)) as Hps.
  pose proof (split_length text) as Hwords.
  assert (Hs : 0 < len (sentences_of text)).
  { unfold len. destruct (sentences_of text); [congruence | simpl; lia]. }
  destruct (int_truediv_inr (len (Py.split text)) (len (sentences_of text))
              9223372036854775808) as [avg [Havg Hin]].
  { unfold len. lia. }
  { exact Hs. }
  { nia. }
  { solve_repr. }
  { solve_lt. }
  assert (Hratio : exists ratio, complexity_ratio text = Ok ratio
                                 /\ nin (complexity_score ratio) 0 100).
  { unfold complexity_ratio. cbv zeta. destruct (Py.split text) as [|w ws] eqn:Hsplit.
    - exists (PyInt 0). split; [reflexivity|]. vm_compute. split; discriminate.
    - set (words := w :: ws).
      destruct (int_truediv_inr (len (List.filter (fun w => 7 <? len w) words))
                  (len words) 1) as [r [Hr Hrin]].
      + unfold len. lia.
      + unfold len, words. simpl. lia.
      + pose proof (List.filter_length_le (fun w => 7 <? len w) words) as Hfl.
        generalize dependent (List.filter (fun w => 7 <? len w) words).
        intros l Hfl. unfold len, pystr in *. lia.
      + solve_repr.
      + solve_lt.
      + exists (PyFloat r). cbn [py_truediv]. rewrite Hr. split; [reflexivity|].
        apply complexity_score_nin. exact Hrin. }
  destruct Hratio as [ratio [Hratio HC]].
  pose proof (length_score_nin avg Hin) as HL.
  destruct (half_inr _ _ HL HC) as [half [Hhalf Hhin]].
  destruct (py_int_inr half 0 115) as [n [Hn Hnr]].
  { rewrite Z.mul_0_l. exact Hhin. }
  exists (PyFloat avg), ratio, half, n.
  assert (Hav : average_sentence_length text = Ok (PyFloat avg)).
  { unfold average_sentence_length. cbn [py_truediv]. rewrite Havg. reflexivity. }
  split; [exact Hav|]. split; [exact Hratio|]. split; [exact Hhalf|].
  split; [exact Hn|]. split.
  - destruct (sentences_of text); [congruence|].
    rewrite Hav. cbn [mbind res_bind]. rewrite Hratio. cbn [mbind res_bind].
    rewrite Hhalf. cbn [mbind res_bind]. rewrite Hn. reflexivity.
  - unfold clamp. lia.
Qed.

Lemma calculate_simple_readability_spec_witness :
  len text_one_long_word < 2 ^ 63
  /\ (sentences_of text_one_long_word = [] ->
      calculate_simple_readability text_one_long_word = Ok 50)
  /\ (sentences_of text_one_long_word <> [] ->
      exists avg ratio half readability,
        average_sentence_length text_one_long_word = Ok avg
        /\ complexity_ratio text_one_long_word = Ok ratio
        /\ py_truediv (py_add (length_score avg) (complexity_score ratio)) (PyInt 2)
           = Ok half
        /\ py_int (PyFloat half) = Ok readability
        /\ calculate_simple_readability text_one_long_word = Ok (clamp readability)
        /\ 0 <= clamp readability <= 100).
Proof.
  assert (H : len text_one_long_word < 2 ^ 63) by reflexivity.
  split; [exact H|].
  apply (calculate_simple_readability_spec text_one_long_word H).
Defined.

End ReadabilityFacts.

(** ** [summarize_text]: failures *)

Section SummarizeFailures.
Import Py Num Re Ats AtsFactors FloatBounds Ai Readability Summarize.
Local Open Scope Z_scope.

Lemma split_acc_nonempty w s :
  w <> [] \/ Exists (fun c => is_space c = false) s -> split_acc w s <> [].
Proof.
  revert w. induction s as [|c s IH]; intros w H; cbn [split_acc].
  - destruct H as [H|H]; [|inversion H]. destruct w; [congruence|discriminate].
  - destruct (is_space c) eqn:Hc.
    + destruct w; [|discriminate]. apply IH. right.
      destruct H as [H|H]; [congruence|]. inversion H; subst; [congruence|assumption].
    + apply IH. left. discriminate.
Qed.

Lemma split_acc_words w s x :
  Forall (fun c => is_space c = false) w ->
  In x (split_acc w s) ->
  exists c x', x = c :: x' /\ is_space c = false.
Proof.
  assert (Hrev : forall w : pystr, w <> [] -> Forall (fun c => is_space c = false) w ->
                 exists c x', rev w = c :: x' /\ is_space c = false).
  { intros w0 Hne Hw. destruct (rev w0) as [|c x'] eqn:Hr.
    - apply (f_equal (@rev _)) in Hr. rewrite rev_involutive in Hr. simpl in Hr. congruence.
    - exists c, x'. split; [reflexivity|].
      rewrite List.Forall_forall in Hw. apply Hw. apply List.in_rev. rewrite Hr. left. reflexivity. }
  revert w. induction s as [|c s IH]; intros w Hw Hin; cbn [split_acc] in Hin.
  - destruct w as [|a w]; [destruct Hin|].
    destruct Hin as [<-|[]]. apply Hrev; [discriminate | exact Hw].
  - destruct (is_space c) eqn:Hc.
    + destruct w as [|a w]; [apply (IH [] (List.Forall_nil _) Hin)|].
      destruct Hin as [<-|Hin]; [apply Hrev; [discriminate | exact Hw]|].
      apply (IH [] (List.Forall_nil _) Hin).
    + apply (IH (c :: w)); [|exact Hin]. constructor; assumption.
Qed.

Lemma truncated_words text :
  30 <= len (Py.split text) -> 0 < len (Py.split (truncated text)).
Proof.
  intros H. unfold truncated. cbv zeta. destruct (900 <? _) eqn:Hlong; cbv iota; [|lia].
  destruct (Py.split text) as [|x l] eqn:Hs; [exfalso; apply H; reflexivity|].
  assert (Hx : In x (Py.split text)) by (rewrite Hs; left; reflexivity).
  destruct (split_acc_words [] text x (List.Forall_nil _) Hx) as [c [x' [-> Hc]]].
  change 900%nat with (S 899). cbn [take].
  assert (Hne : Py.split (join (str " ") ((c :: x') :: take 899 l)) <> []).
  { apply split_acc_nonempty. right. cbn [join].
    destruct (take 899 l); apply Exists_cons_hd; exact Hc. }
  unfold len. destruct (Py.split (join _ _)); [congruence | cbn [length]; lia].
Qed.

Lemma py_round2_ok x : within x 0 (325 * 2 ^ scale) -> exists r, py_round2 x = Ok r.
Proof.
  intros [Hf Hv]. pose proof scale_val as Hsc. pose proof femin_val as Hfe.
  destruct x as [s|s| |s m e]; cbn [valid] in Hf; try contradiction.
  - eexists. reflexivity.
  - cbn [fval] in Hv. destruct (bounded_inv _ _ Hf) as [_ He].
    pose proof (SV_pos (Zpos m) e ltac:(lia) ltac:(lia)) as Hpos.
    assert (s = false) as -> by (destruct s; [unfold sgn in Hv; lia | reflexivity]).
    unfold sgn in Hv. cbn [py_round2].
    destruct e as [|p|p]; try (eexists; reflexivity).
    cbv zeta.
    set (den := 2 ^ Zpos p). set (num := 100 * Zpos m).
    assert (Hden : 0 < den) by (apply pow2_pos; lia).
    assert (Hm : Zpos m <= 325 * den).
    { unfold SV in Hv.
      assert (E : 2 ^ scale = 2 ^ (Zneg p + scale) * den).
      { unfold den. rewrite <- pow2_add by lia. f_equal. lia. }
      rewrite E in Hv.
      pose proof (pow2_pos (Zneg p + scale) ltac:(lia)) as Hq.
      apply (Z.mul_le_mono_pos_r _ _ (2 ^ (Zneg p + scale)) Hq). lia. }
    assert (Hq : 0 <= num / den <= 32500).
    { split; [apply Z.div_pos; unfold num; lia|].
      apply Z.div_le_upper_bound; [exact Hden|]. unfold num. lia. }
    match goal with
    | |- context [if ?c then num / den + 1 else num / den] =>
        set (q := if c then num / den + 1 else num / den);
        assert (Hq' : 0 <= q <= 32501) by (unfold q; destruct c; lia)
    end.
    destruct (q =? 0); [eexists; reflexivity|].
    destruct (int_truediv_inr q 100 326) as [r [Hr _]].
    + lia.
    + lia.
    + lia.
    + apply reprb_true. vm_compute. reflexivity.
    + apply Z.ltb_lt. vm_compute. reflexivity.
    + exists r. exact Hr.
Qed.

Lemma get_summarizer_unavailable pipeline :
  unavailable pipeline ->
  get_summarizer pipeline None = (dummy_summarizer, Some dummy_summarizer).
Proof. intros [->|[e ->]]; reflexivity. Qed.

Lemma summarize_body_unavailable pipeline text max_length min_length :
  unavailable pipeline -> 30 <= len (Py.split text) ->
  exists rounded summary,
    summary = take 300 (truncated text) ++ str "... (summary unavailable)"
    /\ summarize_body pipeline None text max_length min_length
       = (Ok (list_to_map
                [ (str "summary", VStr summary);
                  (str "original_length", VInt (len (Py.split (truncated text))));
                  (str "summary_length", VInt (len (Py.split summary)));
                  (str "compression_ratio", VFloat rounded) ]),
          Some dummy_summarizer).
Proof.
  intros Hun Hlong. pose proof (truncated_words text Hlong) as Hwords.
  unfold summarize_body. rewrite (get_summarizer_unavailable _ Hun).
  destruct (len (Py.split text) <? 30) eqn:Hshort; [apply Z.ltb_lt in Hshort; lia|].
  fold (truncated text). set (t := truncated text) in *.
  set (summary := take 300 t ++ str "... (summary unavailable)").
  assert (Hitem : item (ODict [(str "summary_text", OStr summary)]) (str "summary_text")
                  = Ok (OStr summary)).
  { unfold item, assoc. rewrite bool_decide_eq_true_2 by reflexivity. reflexivity. }
  unfold dummy_summarizer. cbn [mbind res_bind index0]. fold summary. rewrite Hitem.
  cbn [mbind res_bind obj_split py_truediv].
  assert (Hsum : len (Py.split summary) <= 325).
  { pose proof (split_length summary) as H1. unfold summary, len in *.
    rewrite length_app, length_take in *. simpl length in *. lia. }
  destruct (int_truediv_inr (len (Py.split summary)) (len (Py.split t)) 325)
    as [ratio [Hratio Hin]].
  { unfold len. lia. }
  { exact Hwords. }
  { nia. }
  { apply reprb_true. vm_compute. reflexivity. }
  { apply Z.ltb_lt. vm_compute. reflexivity. }
  rewrite Hratio. cbn [mbind res_bind].
  destruct (py_round2_ok ratio Hin) as [rounded Hrounded]. rewrite Hrounded.
  cbn [mbind res_bind]. exists rounded, summary. split; reflexivity.
Qed.

(** C7, as stated, fails when the capability is unavailable: on a text of
    30 words, with [transformers] not imported, the result has the first
    300 characters of the text and a marker as its summary, and no error
    entry. *)
Lemma summarize_text_unavailable_counterexample :
  unavailable None
  /\ len (Py.split text_30_words) = 30
  /\ exists d,
       fst (summarize_text None None text_30_words 150 50) = Ok d
       /\ d !! str "summary"
          = Some (VStr (text_30_words ++ str "... (summary unavailable)"))
       /\ d !! str "summary" <> Some VNone
       /\ d !! str "error" = None.
Proof.
  assert (Hun : unavailable None) by (left; reflexivity).
  assert (Hlen : len (Py.split text_30_words) = 30) by reflexivity.
  split; [exact Hun|]. split; [exact Hlen|].
  destruct (summarize_body_unavailable None text_30_words 150 50 Hun)
    as [rounded [summary [Hs Hb]]]; [rewrite Hlen; lia|].
  assert (Ht : take 300 (truncated text_30_words) = text_30_words)
    by (vm_compute; reflexivity).
  rewrite Ht in Hs. unfold summarize_text. rewrite Hb. cbn [try_except fst].
  eexists. split; [reflexivity|]. rewrite <- Hs.
  generalize summary rounded (len (Py.split (truncated text_30_words)))
    (len (Py.split summary)).
  intros s r a b. split; [vm_compute; reflexivity|].
  split; [vm_compute; discriminate | vm_compute; reflexivity].
Qed.

(** C7, amended: [summarize_text] returns a dictionary and raises
    nothing.  An exception of a step of its body is captured: the result
    then has the summary [None], the message of the exception as its error,
    and a note.  An unavailable capability is no failure: a text of 30
    words or more then receives, from the fallback summarizer, the first
    300 characters of the text given to it and a marker, with no error
    entry. *)
Theorem summarize_text_never_raises pipeline _summarizer text max_length min_length :
  exists d,
    fst (summarize_text pipeline _summarizer text max_length min_length) = Ok d
    /\ (forall e,
          fst (summarize_body pipeline _summarizer text max_length min_length) = Raise e ->
          d = failure e
          /\ d !! str "summary" = Some VNone
          /\ d !! str "error" = Some (VStr (exn_str e)))
    /\ (forall b,
          fst (summarize_body pipeline _summarizer text max_length min_length) = Ok b ->
          d = b)
    /\ (_summarizer = None -> unavailable pipeline -> 30 <= len (Py.split text) ->
        d !! str "summary"
        = Some (VStr (take 300 (truncated text) ++ str "... (summary unavailable)"))
        /\ d !! str "error" = None).
Proof.
  unfold summarize_text.
  destruct (summarize_body pipeline _summarizer text max_length min_length)
    as [body c] eqn:Hbody.
  cbn [fst]. destruct body as [b|e0]; cbn [try_except].
  - exists b. split; [reflexivity|]. split; [intros e He; discriminate|].
    split; [intros b' Hb; congruence|].
    intros -> Hun Hlong.
    destruct (summarize_body_unavailable pipeline text max_length min_length Hun Hlong)
      as [rounded [summary [Hs Hb]]].
    rewrite Hb in Hbody. injection Hbody as <- _. rewrite <- Hs.
    generalize summary rounded (len (Py.split (truncated text))) (len (Py.split summary)).
    intros s r a b'. split; vm_compute; reflexivity.
  - eexists. split; [reflexivity|]. split.
    + intros e He. injection He as <-. split; [reflexivity|].
      generalize (exn_str e0). intros msg. split; vm_compute; reflexivity.
    + split; [intros b Hb; discriminate|].
      intros -> Hun Hlong.
      destruct (summarize_body_unavailable pipeline text max_length min_length Hun Hlong)
        as [rounded [summary [Hs Hb]]].
      rewrite Hb in Hbody. discriminate.
Qed.

End SummarizeFailures.

(** ** [calculate_keyword_match] *)

Section KeywordMatchValues.
Import Py Num Re Ats AtsFactors FloatBounds Keywords.
Local Open Scope Z_scope.

Lemma same_quotient n p q r :
  0 < n -> n * p = q * n + r -> 0 <= r < n -> q = p /\ r = 0.
Proof.
  intros Hn Heq Hr. assert (Hd : n * (p - q) = r) by lia.
  destruct (Z_dec p q) as [[Hlt|Hgt]|Heq']; [| |lia].
  - assert (n * (p - q) <= n * (-1)) by (apply Z.mul_le_mono_nonneg_l; lia). lia.
  - assert (n * 1 <= n * (p - q)) by (apply Z.mul_le_mono_nonneg_l; lia). lia.
Qed.

(** [n / n] is [1.0]. *)
Lemma int_truediv_same n :
  0 < n ->
  exists f, int_truediv n n = Ok f /\ within f (1 * 2 ^ scale) (1 * 2 ^ scale).
Proof.
  intros Hn. pose proof scale_val as Hsc. pose proof femin_val as Hfe.
  pose proof (pow2_pos scale ltac:(lia)) as Hps.
  unfold int_truediv.
  destruct (Z.eqb_spec n 0) as [|_]; [lia|].
  rewrite !Z.abs_eq by lia. destruct (n <? 0); cbn [xorb].
  all: pose proof (div_core_spec n 0 n 0 Hn Hn) as Hc.
  all: destruct (SFdiv_core_binary prec emax n 0 n 0) as [[q e'] l].
  all: destruct Hc as [r [Hs [Heq [Hr [Hex [Hq [Hfx Hmin]]]]]]].
  all: assert (Hq1 : q = 2 ^ (0 - 0 - e') /\ r = 0).
  1,3: apply (same_quotient n); assumption.
  all: destruct Hq1 as [Hq1 Hr0].
  all: assert (HSV : SV q e' = 1 * 2 ^ scale).
  1,3: unfold SV; rewrite Hq1, <- pow2_add by lia; rewrite Z.mul_1_l; f_equal; lia.
  all: assert (Hb : absin false (binary_round_aux prec emax false q e' l)
                      (1 * 2 ^ scale) (1 * 2 ^ scale)).
  1,3: apply round_aux_bounds;
       [ exact Hq | lia | exact Hfx | lia | apply repr_small; small
       | apply repr_small; small | apply small_no_overflow; small | lia
       | right; split; [exact HSV | apply Hex; exact Hr0] ].
  all: apply absin_pos in Hb.
  all: destruct Hb as [Hv Hb];
       destruct (binary_round_aux prec emax false q e' l) as [s|s| |s m e];
       cbn [valid] in Hv; try contradiction; cbn [is_inf];
       eexists; (split; [reflexivity|]); (split; [exact Hv | exact Hb]).
Qed.

Lemma keyword_match_unfold resume_text job_description :
  calculate_keyword_match resume_text job_description =
  (match_ratio ←
     (if bool_decide (jd_keywords job_description = ∅) then Ok (PyInt 0)
      else PyFloat <$>
             py_truediv
               (PyInt (Z.of_nat (size (jd_keywords job_description ∩ keywords resume_text))))
               (PyInt (Z.of_nat (size (jd_keywords job_description)))));
   py_int (py_mul match_ratio (PyInt 100))).
Proof. reflexivity. Qed.

(** X1: the keyword match is an integer between 0 and 100 for every
    resume and every job description, and no division fails: a job
    description without a keyword gives 0. *)
Theorem calculate_keyword_match_total resume_text job_description :
  exists m,
    calculate_keyword_match resume_text job_description = Ok m
    /\ 0 <= m <= 100
    /\ (jd_keywords job_description = ∅ -> m = 0).
Proof.
  destruct (calculate_keyword_match_range resume_text job_description) as [m [Hm Hr]].
  exists m. split; [exact Hm|]. split; [exact Hr|].
  intros Hempty. rewrite keyword_match_unfold in Hm.
  rewrite bool_decide_eq_true_2 in Hm by exact Hempty.
  cbn [mbind res_bind py_mul py_int] in Hm. injection Hm as <-. reflexivity.
Qed.

(** X2: the keyword match is 100 when every keyword of the job
    description is a keyword of the resume, and 0 when none is. *)
Theorem calculate_keyword_match_extremes resume_text job_description :
  jd_keywords job_description <> ∅ ->
  (jd_keywords job_description ⊆ keywords resume_text ->
   calculate_keyword_match resume_text job_description = Ok 100)
  /\ (jd_keywords job_description ∩ keywords resume_text = ∅ ->
      calculate_keyword_match resume_text job_description = Ok 0).
Proof.
  intros Hne. rewrite keyword_match_unfold.
  rewrite bool_decide_eq_false_2 by exact Hne.
  pose proof scale_val as Hsc. pose proof (pow2_pos scale ltac:(lia)) as Hps.
  assert (Hsize : 0 < Z.of_nat (size (jd_keywords job_description))).
  { assert (size (jd_keywords job_description) <> 0%nat); [|lia].
    intros Hz. apply size_empty_iff in Hz. apply Hne. apply leibniz_equiv. exact Hz. }
  split.
  - intros Hsub.
    assert (Hall : jd_keywords job_description ∩ keywords resume_text
                   = jd_keywords job_description).
    { apply leibniz_equiv. apply subseteq_intersection_1. exact Hsub. }
    rewrite Hall. cbn [py_truediv].
    destruct (int_truediv_same _ Hsize) as [f [Hf Hin]]. rewrite Hf.
    cbn [fmap res_fmap mbind res_bind py_mul to_float].
    destruct of_Z_100 as [Hfin Hval].
    destruct (py_int_inr (fmul f (of_Z 100)) 100 100) as [n [Hn Hnr]].
    + apply (fmul_inr f (of_Z 100) (1 * 2 ^ scale) (1 * 2 ^ scale)).
      * exact Hin.
      * exact Hfin.
      * rewrite Hval. lia.
      * apply repr_small. small.
      * apply repr_small. small.
      * pose proof (pow2_pos (1024 + scale) ltac:(lia)). lia.
      * apply small_no_overflow. small.
      * rewrite Hval. lia.
      * rewrite Hval. lia.
    + rewrite Hn. f_equal. lia.
  - intros Hdis. rewrite Hdis. rewrite size_empty. cbn [py_truediv Z.of_nat].
    unfold int_truediv. destruct (Z.eqb_spec (Z.of_nat (size (jd_keywords job_description))) 0);
      [lia|].
    cbn [Z.eqb fmap res_fmap mbind res_bind py_mul to_float].
    destruct (Z.of_nat (size (jd_keywords job_description)) <? 0); reflexivity.
Qed.

Lemma calculate_keyword_match_extremes_witness :
  jd_keywords (str "python developer") <> ∅
  /\ (jd_keywords (str "python developer") ⊆ keywords (str "Senior Python developer") ->
      calculate_keyword_match (str "Senior Python developer") (str "python developer")
      = Ok 100)
  /\ (jd_keywords (str "python developer") ∩ keywords (str "Senior Python developer") = ∅ ->
      calculate_keyword_match (str "Senior Python developer") (str "python developer")
      = Ok 0).
Proof.
  assert (H : jd_keywords (str "python developer") <> ∅).
  { intros H. apply (f_equal size) in H. vm_compute in H. discriminate. }
  split; [exact H|].
  apply (calculate_keyword_match_extremes (str "Senior Python developer")
           (str "python developer") H).
Defined.

End KeywordMatchValues.

(** ** The effect of a job description on the ATS score *)

Section JobDescriptionEffect.
Import Py Num Re Ats AtsFactors FloatBounds ScoreTable Factors JobDescription.
Local Open Scope Z_scope.

Lemma rows_jd_effect : forallb (fun kr => jd_effect_ok (snd kr)) rows = true.
Proof. vm_compute. reflexivity. Qed.

Lemma jd_effect_inv r :
  jd_effect_ok r = true -> (length r = 102)%nat ->
  (forall i, (i < 101)%nat -> nth 0 r 0 - 30 <= nth (S i) r 0 <= nth 0 r 0 + 27)
  /\ nth 1 r 0 <= nth 0 r 0 - 3
  /\ nth 0 r 0 <= nth 101 r 0.
Proof.
  destruct r as [|plain blended]; [discriminate|]. unfold jd_effect_ok.
  rewrite !andb_true_iff, !Z.leb_le. intros [[H1 H2] H3] Hlen. cbn [nth].
  split; [|split; assumption].
  intros i Hi. rewrite forallb_forall in H1.
  assert (Hin : In (nth i blended 0) blended) by (apply nth_In; simpl in Hlen; lia).
  specialize (H1 _ Hin). rewrite andb_true_iff, !Z.leb_le in H1. exact H1.
Qed.

Lemma row_length b : (length (row b) = 102)%nat.
Proof. unfold row. cbv zeta. cbn [length]. rewrite List.length_map. reflexivity. Qed.

(** X3: a job description moves the score by 30 points down and 27 points
    up at the most; one of which no keyword is matched lowers the score by
    3 points at least, one of which every keyword is matched never lowers
    it. *)
Theorem calculate_ats_score_job_description text job_description :
  truthy (Some job_description) = true ->
  exists plain blended m,
    calculate_ats_score text None = Ok plain
    /\ calculate_ats_score text (Some job_description) = Ok blended
    /\ calculate_keyword_match text job_description = Ok m
    /\ plain - 30 <= blended <= plain + 27
    /\ (m = 0 -> blended <= plain - 3)
    /\ (m = 100 -> plain <= blended).
Proof.
  intros Hjd.
  destruct (calculate_keyword_match_range text job_description) as [m [Hm Hr]].
  assert (Hk0 : keyword_points text None = Ok None) by reflexivity.
  assert (Hk1 : keyword_points text (Some job_description) = Ok (Some m)).
  { unfold keyword_points. rewrite Hjd.
    change (default [] (Some job_description)) with job_description.
    rewrite Hm. reflexivity. }
  rewrite (calculate_ats_score_combine text None None Hk0).
  rewrite (calculate_ats_score_combine text (Some job_description) (Some m) Hk1).
  destruct (base_score_table _ _ _ _ _ _ (factor_points_ok text)) as [b [Hl Hb]].
  apply lookup_key_In in Hl. pose proof (table_row_ok _ _ Hl) as Hok.
  unfold combine. rewrite Hb. cbn [mbind res_bind].
  rewrite (finish_table b None Hok I), (finish_table b (Some m) Hok Hr). cbn [col].
  assert (Hjdok : jd_effect_ok (row b) = true).
  { pose proof rows_jd_effect as H. rewrite forallb_forall in H.
    exact (H (_, row b) (rows_In _ b Hl)). }
  destruct (jd_effect_inv _ Hjdok (row_length b)) as [H1 [H2 H3]].
  eexists _, _, m. split; [reflexivity|]. split; [reflexivity|]. split; [exact Hm|].
  split; [apply H1; lia|]. split.
  - intros ->. exact H2.
  - intros ->. exact H3.
Qed.

Lemma calculate_ats_score_job_description_witness :
  truthy (Some (str "python developer")) = true
  /\ exists plain blended m,
       calculate_ats_score (str "Senior Python developer") None = Ok plain
       /\ calculate_ats_score (str "Senior Python developer")
            (Some (str "python developer")) = Ok blended
       /\ calculate_keyword_match (str "Senior Python developer")
            (str "python developer") = Ok m
       /\ plain - 30 <= blended <= plain + 27
       /\ (m = 0 -> blended <= plain - 3)
       /\ (m = 100 -> plain <= blended).
Proof.
  split; [reflexivity|].
  apply (calculate_ats_score_job_description (str "Senior Python developer")
           (str "python developer")).
  reflexivity.
Defined.

End JobDescriptionEffect.

(** ** [extract_experience_years] *)

Section ExperienceYears.
Import Py Num Re Ats AtsFactors.
Local Open Scope Z_scope.

Lemma sum_positive (l : list Z) :
  Forall (fun d => 0 < d) l -> 0 <= fold_right Z.add 0 l /\ (l <> [] -> 0 < fold_right Z.add 0 l).
Proof.
  induction 1 as [|d l Hd Hl [IH1 IH2]]; simpl.
  - split; [lia | congruence].
  - split; [lia | intros _; lia].
Qed.

Lemma experience_years_ge_0 text : 0 <= extract_experience_years text.
Proof.
  unfold extract_experience_years. cbv zeta. apply sum_positive.
  apply List.Forall_flat_map. apply List.Forall_forall. intros m _.
  destruct (0 <? _) eqn:Hd; [|constructor].
  apply Z.ltb_lt in Hd. constructor; [exact Hd | constructor].
Qed.

(** X4: the years of experience are never negative: a range that ends
    before it starts, or in the year it starts, is left out of the sum.
    The experience gives no points to the score exactly when the years
    are 0. *)
Theorem extract_experience_years_nonneg text :
  0 <= extract_experience_years text
  /\ (experience_points text = 0 <-> extract_experience_years text = 0).
Proof.
  pose proof (experience_years_ge_0 text) as H. split; [exact H|].
  unfold experience_points. cbv zeta. set (y := extract_experience_years text) in *.
  destruct (5 <? y) eqn:H5; [apply Z.ltb_lt in H5; lia|].
  destruct (2 <? y) eqn:H2; [apply Z.ltb_lt in H2; lia|].
  destruct (0 <? y) eqn:H0; [apply Z.ltb_lt in H0; lia|].
  apply Z.ltb_ge in H0. lia.
Qed.

End ExperienceYears.

(** ** [get_summarizer] *)

Section SummarizerCache.
Import Py Num Ai.

(** X5: the summarizer is chosen once: [get_summarizer] leaves the
    summarizer that it returns in the cache, and every later call returns
    that summarizer and leaves the cache as it is, whatever has become of
    the pipeline. *)
Theorem get_summarizer_cached pipeline _summarizer pipeline' :
  let '(s, cache1) := get_summarizer pipeline _summarizer in
  cache1 = Some s /\ get_summarizer pipeline' cache1 = (s, cache1).
Proof.
  destruct _summarizer as [s|]; [split; reflexivity|].
  destruct pipeline as [[s|e]|]; split; reflexivity.
Qed.

End SummarizerCache.

(** ** [str.split] and [str.join] *)

Section SplitJoin.
Import Py Num Ai Summarize Words.
Local Open Scope Z_scope.

Lemma split_acc_is_word w s x :
  Forall (fun c => is_space c = false) w ->
  In x (split_acc w s) -> is_word_str x.
Proof.
  assert (Hrev : forall w : pystr, w <> [] -> Forall (fun c => is_space c = false) w ->
                 is_word_str (rev w)).
  { intros w0 Hne Hw. split.
    - intros Hr. apply (f_equal (@rev _)) in Hr. rewrite rev_involutive in Hr.
      simpl in Hr. congruence.
    - apply List.Forall_rev. exact Hw. }
  revert w. induction s as [|c s IH]; intros w Hw Hin; cbn [split_acc] in Hin.
  - destruct w as [|a w]; [destruct Hin|].
    destruct Hin as [<-|[]]. apply Hrev; [discriminate | exact Hw].
  - destruct (is_space c) eqn:Hc.
    + destruct w as [|a w]; [apply (IH [] (List.Forall_nil _) Hin)|].
      destruct Hin as [<-|Hin]; [apply Hrev; [discriminate | exact Hw]|].
      apply (IH [] (List.Forall_nil _) Hin).
    + apply (IH (c :: w)); [|exact Hin]. constructor; assumption.
Qed.

Lemma split_words text : Forall is_word_str (Py.split text).
Proof.
  apply List.Forall_forall. intros x Hx.
  apply (split_acc_is_word [] text x (List.Forall_nil _) Hx).
Qed.

Lemma split_acc_app_word acc w s :
  Forall (fun c => is_space c = false) w ->
  split_acc acc (w ++ s) = split_acc (rev w ++ acc) s.
Proof.
  revert acc. induction w as [|c w IH]; intros acc Hw; [reflexivity|].
  inversion Hw as [|? ? Hc Hw']; subst. cbn [app split_acc]. rewrite Hc.
  rewrite IH by exact Hw'. cbn [rev]. rewrite <- app_assoc. reflexivity.
Qed.

Lemma split_join ws :
  Forall is_word_str ws -> Py.split (join (str " ") ws) = ws.
Proof.
  unfold Py.split. induction 1 as [|x l [Hne Hx] Hl IH]; [reflexivity|].
  assert (Hrev : rev x <> []).
  { intros Hr. apply (f_equal (@rev _)) in Hr. rewrite rev_involutive in Hr.
    simpl in Hr. congruence. }
  destruct l as [|y l].
  - cbn [join]. rewrite <- (app_nil_r x) at 1.
    rewrite split_acc_app_word by exact Hx. rewrite app_nil_r. cbn [split_acc].
    destruct (rev x) eqn:Hr; [congruence|]. rewrite <- Hr, rev_involutive. reflexivity.
  - change (join (str " ") (x :: y :: l))
      with (x ++ str " " ++ join (str " ") (y :: l)).
    rewrite split_acc_app_word by exact Hx. rewrite app_nil_r.
    change (str " " ++ join (str " ") (y :: l))
      with (32%N :: join (str " ") (y :: l)).
    cbn [split_acc]. change (is_space 32%N) with true. cbv iota.
    destruct (rev x) eqn:Hr; [congruence|]. rewrite <- Hr, rev_involutive.
    f_equal. exact IH.
Qed.

(** X6: splitting gives words, and joining words with a space and
    splitting again gives the words back; so the text that
    [summarize_text] gives to the summarizer consists of the first 900
    words of the input. *)
Theorem split_truncated text :
  Forall is_word_str (Py.split text)
  /\ (forall n, Py.split (join (str " ") (take n (Py.split text))) = take n (Py.split text))
  /\ Py.split (truncated text) = take 900 (Py.split text)
  /\ len (Py.split (truncated text)) = Z.min (len (Py.split text)) 900.
Proof.
  pose proof (split_words text) as Hw.
  assert (Hn : forall n, Py.split (join (str " ") (take n (Py.split text)))
                         = take n (Py.split text)).
  { intros n. apply split_join. apply Forall_take. exact Hw. }
  assert (Ht : Py.split (truncated text) = take 900 (Py.split text)).
  { unfold truncated. cbv zeta. destruct (900 <? len (Py.split text)) eqn:Hlong.
    - apply Hn.
    - apply Z.ltb_ge in Hlong. rewrite take_ge; [reflexivity|]. unfold len in Hlong. lia. }
  split; [exact Hw|]. split; [exact Hn|]. split; [exact Ht|].
  rewrite Ht. unfold len. rewrite length_take. lia.
Qed.

(** X7: on a text of 30 words or more, whatever the summarizer is and
    returns, [summarize_text] returns either the dictionary of a failure or
    a dictionary in which [original_length] is the number of the words of
    the text, 900 at the most. *)
Theorem summarize_text_original_length pipeline _summarizer text max_length min_length :
  30 <= len (Py.split text) ->
  exists d,
    fst (summarize_text pipeline _summarizer text max_length min_length) = Ok d
    /\ ((exists e, d = failure e)
        \/ (d !! str "original_length"
            = Some (VInt (Z.min (len (Py.split text)) 900))
            /\ d !! str "error" = None)).
Proof.
  intros Hlong. destruct (split_truncated text) as [_ [_ [_ Hlen]]].
  unfold summarize_text, summarize_body.
  destruct (len (Py.split text) <? 30) eqn:Hshort; [apply Z.ltb_lt in Hshort; lia|].
  destruct (get_summarizer pipeline _summarizer) as [s c].
  fold (truncated text). rewrite Hlen.
  destruct (s (truncated text) max_length min_length) as [result|e];
    [|eexists; split; [reflexivity|]; left; eexists; reflexivity].
  cbn [mbind res_bind].
  destruct (index0 result) as [first|e];
    [|eexists; split; [reflexivity|]; left; eexists; reflexivity].
  cbn [mbind res_bind].
  destruct (item first (str "summary_text")) as [summary|e];
    [|eexists; split; [reflexivity|]; left; eexists; reflexivity].
  cbn [mbind res_bind].
  destruct (obj_split summary) as [summary_words|e];
    [|eexists; split; [reflexivity|]; left; eexists; reflexivity].
  cbn [mbind res_bind].
  destruct (py_truediv _ _) as [ratio|e];
    [|eexists; split; [reflexivity|]; left; eexists; reflexivity].
  cbn [mbind res_bind].
  destruct (py_round2 ratio) as [rounded|e];
    [|eexists; split; [reflexivity|]; left; eexists; reflexivity].
  cbn [mbind res_bind try_except fst].
  eexists. split; [reflexivity|]. right.
  generalize (match summary with OStr s0 => VStr s0 | _ => VNone end)
    (Z.min (len (Py.split text)) 900) (len summary_words) rounded.
  intros v a b r. split; vm_compute; reflexivity.
Qed.

Lemma summarize_text_original_length_witness :
  30 <= len (Py.split text_30_words)
  /\ exists d,
       fst (summarize_text None None text_30_words 150 50) = Ok d
       /\ ((exists e, d = failure e)
           \/ (d !! str "original_length"
               = Some (VInt (Z.min (len (Py.split text_30_words)) 900))
               /\ d !! str "error" = None)).
Proof.
  assert (H : 30 <= len (Py.split text_30_words)) by (vm_compute; discriminate).
  split; [exact H|].
  apply (summarize_text_original_length None None text_30_words 150 50 H).
Defined.

End SplitJoin.

(** ** What a match consumes *)

Section ConsumedFacts.
Import Py Re Consumed.

Lemma prev_after_app prev a b :
  prev_after (prev_after prev a) b = prev_after prev (a ++ b).
Proof.
  unfold prev_after. destruct b as [|c b] using rev_ind.
  - rewrite app_nil_r. reflexivity.
  - rewrite app_assoc, !last_snoc. reflexivity.
Qed.

Lemma advances_refl st : advances st st [].
Proof. repeat split. simpl. lia. Qed.

Lemma advances_trans st1 st2 st3 a b :
  advances st1 st2 a -> advances st2 st3 b -> advances st1 st3 (a ++ b).
Proof.
  intros [H1 [H2 H3]] [H4 [H5 H6]]. split; [|split].
  - rewrite H1, H4, app_assoc. reflexivity.
  - rewrite H5, H2, length_app. lia.
  - rewrite H6, H3. fold (prev_after (ms_prev st1) a).
    fold (prev_after (prev_after (ms_prev st1) a) b).
    fold (prev_after (ms_prev st1) (a ++ b)). apply prev_after_app.
Qed.

(** A repetition consumes characters of its class, as many as its bounds
    allow, and goes on with its continuation. *)
Lemma rep_advance ic greedy cs rest :
  forall lo hi k groups pos prev res,
    rep ic greedy cs lo hi k groups pos prev rest = Some res ->
    exists a rest',
      rest = a ++ rest'
      /\ Forall (fun c => cs_match ic cs c = true) a
      /\ (lo <= length a)%nat
      /\ (forall n, hi = Some n -> (length a <= n)%nat)
      /\ k (MState (prev_after prev a) rest' (pos + length a) groups) = Some res.
Proof.
  assert (Hstop : forall lo hi (k : mstate -> option mstate) groups pos prev rest0 res,
            match lo with O => k (MState prev rest0 pos groups) | S _ => None end = Some res ->
            exists a rest',
              rest0 = a ++ rest'
              /\ Forall (fun c => cs_match ic cs c = true) a
              /\ (lo <= length a)%nat
              /\ (forall n, hi = Some n -> (length a <= n)%nat)
              /\ k (MState (prev_after prev a) rest' (pos + length a) groups) = Some res).
  { intros lo hi k groups pos prev rest0 res H. destruct lo; [|discriminate].
    exists [], rest0. split; [reflexivity|]. split; [constructor|].
    split; [simpl; lia|]. split; [intros; simpl; lia|].
    simpl. rewrite Nat.add_0_r. exact H. }
  assert (Hstep : forall c rest0 lo hi (k : mstate -> option mstate) groups pos prev res,
            hi_allows hi = true -> cs_match ic cs c = true ->
            (exists a rest',
               rest0 = a ++ rest'
               /\ Forall (fun c => cs_match ic cs c = true) a
               /\ (pred lo <= length a)%nat
               /\ (forall n, dec_hi hi = Some n -> (length a <= n)%nat)
               /\ k (MState (prev_after (Some c) a) rest' (S pos + length a) groups)
                  = Some res) ->
            exists a rest',
              c :: rest0 = a ++ rest'
              /\ Forall (fun c => cs_match ic cs c = true) a
              /\ (lo <= length a)%nat
              /\ (forall n, hi = Some n -> (length a <= n)%nat)
              /\ k (MState (prev_after prev a) rest' (pos + length a) groups) = Some res).
  { intros c rest0 lo hi k groups pos prev res Hhi Hc [a [rest' [-> [Ha [Hlo [Hn Hk]]]]]].
    exists (c :: a), rest'. split; [reflexivity|]. split; [constructor; assumption|].
    split; [simpl; lia|]. split.
    - intros n ->. simpl in Hhi. destruct n; [discriminate|].
      specialize (Hn n eq_refl). simpl. lia.
    - rewrite prev_after_cons. simpl length.
      replace (pos + S (length a))%nat with (S pos + length a)%nat by lia. exact Hk. }
  induction rest as [|c rest IH]; intros lo hi k groups pos prev res H; cbn [rep] in H.
  - apply Hstop. exact H.
  - destruct (hi_allows hi && cs_match ic cs c) eqn:Hcond; [|apply Hstop; exact H].
    apply andb_true_iff in Hcond. destruct Hcond as [Hhi Hc].
    destruct greedy.
    + destruct (rep ic true cs (pred lo) (dec_hi hi) k groups (S pos) (Some c) rest)
        as [r|] eqn:Hr.
      * injection H as <-. apply (Hstep c rest lo hi k groups pos prev r Hhi Hc).
        apply IH. exact Hr.
      * apply Hstop. exact H.
    + destruct (match lo with O => k (MState prev (c :: rest) pos groups) | S _ => None end)
        as [r|] eqn:Hr.
      * injection H as <-. apply Hstop. exact Hr.
      * apply (Hstep c rest lo hi k groups pos prev res Hhi Hc). apply IH. exact H.
Qed.

(** A match consumes a prefix of the text and goes on with its
    continuation in the state after the prefix. *)
Lemma rmatch_advance ic r :
  forall k st res,
    rmatch ic r k st = Some res ->
    exists a st', advances st st' a /\ k st' = Some res.
Proof.
  induction r as [|cs|r1 IH1 r2 IH2|r1 IH1 r2 IH2|cs lo hi greedy|i r IH| |];
    intros k st res H; cbn [rmatch] in H.
  - exists [], st. split; [apply advances_refl | exact H].
  - destruct (ms_rest st) as [|c rest'] eqn:Hrest; [discriminate|].
    destruct (cs_match ic cs c); [|discriminate].
    eexists [c], _. split; [|exact H]. split; [exact Hrest|]. split; [simpl; lia|reflexivity].
  - apply IH1 in H. destruct H as [a1 [st1 [Ha1 H]]].
    apply IH2 in H. destruct H as [a2 [st2 [Ha2 H]]].
    exists (a1 ++ a2), st2. split; [eapply advances_trans; eassumption | exact H].
  - destruct (rmatch ic r1 k st) as [x|] eqn:H1.
    + injection H as <-. apply IH1. exact H1.
    + apply IH2. exact H.
  - apply rep_advance in H. destruct H as [a [rest' [Hrest [_ [_ [_ H]]]]]].
    eexists a, _. split; [|exact H]. split; [exact Hrest|]. split; reflexivity.
  - apply IH in H. destruct H as [a [st' [[Ha1 [Ha2 Ha3]] H]]].
    eexists a, _. split; [|exact H]. split; [exact Ha1|]. split; assumption.
  - destruct (at_boundary st); [|discriminate].
    exists [], st. split; [apply advances_refl | exact H].
  - destruct (ms_rest st) eqn:Hrest; [|discriminate].
    exists [], st. split; [apply advances_refl | exact H].
Qed.

Lemma rmatch_consumes ic r st res :
  rmatch ic r Some st = Some res -> exists a, advances st res a.
Proof.
  intros H. apply rmatch_advance in H. destruct H as [a [st' [Ha H]]].
  injection H as <-. exists a. exact Ha.
Qed.

(** The match that [re.search] returns. *)
Lemma search_from_spec ic r rest :
  forall prev pos m st,
    search_from ic r prev rest pos = Some (m, st) ->
    exists a b,
      rest = a ++ b
      /\ rmatch ic r Some (MState (prev_after prev a) b (pos + length a) []) = Some st
      /\ m = MatchObj (pos + length a) (ms_pos st) (ms_groups st).
Proof.
  induction rest as [|c rest IH]; intros prev pos m st H; cbn [search_from] in H.
  - destruct (rmatch ic r Some (MState prev [] pos [])) as [x|] eqn:Hm; [|discriminate].
    injection H as <- <-. exists [], []. split; [reflexivity|].
    simpl. rewrite Nat.add_0_r. split; [exact Hm | reflexivity].
  - destruct (rmatch ic r Some (MState prev (c :: rest) pos [])) as [x|] eqn:Hm.
    + injection H as <- <-. exists [], (c :: rest). split; [reflexivity|].
      simpl. rewrite Nat.add_0_r. split; [exact Hm | reflexivity].
    + apply IH in H. destruct H as [a [b [-> [H1 H2]]]].
      exists (c :: a), b. split; [reflexivity|].
      rewrite prev_after_cons. simpl length.
      replace (pos + S (length a))%nat with (S pos + length a)%nat by lia.
      split; assumption.
Qed.

(** The string of a match of [re.search] is a part of the text, the one
    that the match consumes. *)
Lemma search_group0 ic r text m :
  search ic r text = Some m ->
  exists pre rest st,
    text = pre ++ group0 text m ++ rest
    /\ rmatch ic r Some (MState (last pre) (group0 text m ++ rest) (length pre) [])
       = Some st
    /\ advances (MState (last pre) (group0 text m ++ rest) (length pre) []) st
         (group0 text m).
Proof.
  unfold search. intros H. apply fmap_Some in H. destruct H as [[m' st] [H ->]].
  apply search_from_spec in H. destruct H as [pre [b [-> [Hm ->]]]].
  cbn [fst]. destruct (rmatch_consumes _ _ _ _ Hm) as [a Ha].
  pose proof Ha as [Ha1 [Ha2 Ha3]]. cbn [ms_rest ms_pos ms_prev] in Ha1, Ha2, Ha3.
  assert (Hg : group0 (pre ++ b) (MatchObj (0 + length pre) (ms_pos st) (ms_groups st)) = a).
  { unfold group0, slice. cbn [m_start m_end]. rewrite Ha2, Ha1.
    replace (0 + length pre + length a - (0 + length pre))%nat with (length a) by lia.
    rewrite drop_app_length'; [|simpl; lia]. rewrite take_app_length. reflexivity. }
  rewrite Hg. exists pre, (ms_rest st), st. rewrite <- Ha1.
  assert (Hp : prev_after None pre = last pre) by (unfold prev_after; destruct (last pre); reflexivity).
  rewrite Hp in Hm. simpl in Hm. split; [reflexivity|]. split; [exact Hm|].
  split; [exact Ha1|]. split; [exact Ha2|]. cbn [ms_prev].
  rewrite Ha3, Hp. reflexivity.
Qed.

End ConsumedFacts.

(** ** The contact patterns *)

Section ContactPatterns.
Import Py Num Re Ats AtsFactors Consumed.

Lemma cs_match_one c x : cs_match false (one x) c = true <-> c = x.
Proof.
  unfold cs_match, set_has, one, cls. cbn [cs_neg cs_items existsb item_has andb orb xorb].
  rewrite !orb_false_r, N.eqb_eq. split; congruence.
Qed.

Lemma digit_not_sep c :
  is_digit c = true ->
  cs_match false (cls [CChar (c1 "-"); CChar (c1 ".")]) c = false.
Proof.
  unfold is_digit, cs_match, set_has, cls.
  cbn [cs_neg cs_items existsb item_has andb orb xorb].
  rewrite andb_true_iff, !N.leb_le. intros [H1 H2].
  change (c1 "-") with 45%N. change (c1 ".") with 46%N.
  destruct (N.eqb_spec 45 c); [lia|]. destruct (N.eqb_spec 46 c); [lia|]. reflexivity.
Qed.

Lemma cs_match_digit c : cs_match false digit c = is_digit c.
Proof.
  unfold cs_match, set_has, digit, cls. cbn [cs_neg cs_items existsb item_has andb orb xorb].
  rewrite !orb_false_r. reflexivity.
Qed.

Lemma cs_match_sep c :
  cs_match false (cls [CChar (c1 "-"); CChar (c1 ".")]) c = true ->
  c = 45%N \/ c = 46%N.
Proof.
  unfold cs_match, set_has, cls. cbn [cs_neg cs_items existsb item_has andb orb xorb].
  change (c1 "-") with 45%N. change (c1 ".") with 46%N.
  rewrite !orb_false_r, orb_true_iff, !N.eqb_eq. intros [H|H]; [left | right]; congruence.
Qed.

(** [cs{n}] on [n] characters of the class. *)
Lemma rep_times ic cs a :
  forall k groups pos prev rest,
    Forall (fun c => cs_match ic cs c = true) a ->
    rep ic true cs (length a) (Some (length a)) k groups pos prev (a ++ rest)
    = k (MState (prev_after prev a) rest (pos + length a) groups).
Proof.
  induction a as [|c a IH]; intros k groups pos prev rest Ha.
  - cbn [length app]. rewrite Nat.add_0_r.
    destruct rest as [|d rest]; reflexivity.
  - inversion Ha as [|? ? Hc Ha']; subst. cbn [length app rep hi_allows andb].
    rewrite Hc. cbn [pred dec_hi]. rewrite IH by exact Ha'.
    rewrite prev_after_cons.
    replace (pos + S (length a))%nat with (S pos + length a)%nat by lia.
    destruct (k _); reflexivity.
Qed.

(** [cs?] goes on after a character of the class where that succeeds, and
    in place otherwise. *)
Lemma rep_opt_skip ic cs k groups pos prev rest :
  match rest with
  | c :: _ => cs_match ic cs c = false
  | [] => True
  end ->
  rep ic true cs 0 (Some 1%nat) k groups pos prev rest = k (MState prev rest pos groups).
Proof.
  destruct rest as [|c rest]; [reflexivity|]. intros Hc. cbn [rep hi_allows andb].
  rewrite Hc. reflexivity.
Qed.

Lemma rep_opt_take ic cs k groups pos prev c rest :
  cs_match ic cs c = true ->
  is_Some (k (MState (Some c) rest (S pos) groups)) ->
  is_Some (rep ic true cs 0 (Some 1%nat) k groups pos prev (c :: rest)).
Proof.
  intros Hc [r Hr]. cbn [rep hi_allows andb]. rewrite Hc. cbn [pred dec_hi].
  assert (E : rep ic true cs 0 (Some 0%nat) k groups (S pos) (Some c) rest
              = k (MState (Some c) rest (S pos) groups)).
  { destruct rest as [|d rest]; reflexivity. }
  rewrite E, Hr. eexists; reflexivity.
Qed.

Lemma rmatch_alt_l ic r1 r2 k st :
  is_Some (rmatch ic r1 k st) -> is_Some (rmatch ic (Alt r1 r2) k st).
Proof. intros [x H]. cbn [rmatch]. rewrite H. eexists; reflexivity. Qed.

Lemma rmatch_alt_r ic r1 r2 k st :
  is_Some (rmatch ic r2 k st) -> is_Some (rmatch ic (Alt r1 r2) k st).
Proof. intros H. cbn [rmatch]. destruct (rmatch ic r1 k st); [eexists; reflexivity | exact H]. Qed.

(** A match of the email pattern consumes an [@]. *)
Lemma email_match st res :
  rmatch false email_re Some st = Some res ->
  exists a1 a2,
    advances st res (a1 ++ 64%N :: a2).
Proof.
  unfold email_re. cbn [seq]. change (lit "@") with (Chr (one 64%N)).
  cbn [rmatch]. destruct (at_boundary st); [|discriminate].
  intros H.
  apply rmatch_advance in H. destruct H as [a1 [st1 [Ha1 H]]].
  cbn [rmatch] in H. destruct (ms_rest st1) as [|c rest2] eqn:Hrest; [discriminate|].
  destruct (cs_match false (one 64%N) c) eqn:Hc; [|discriminate].
  apply cs_match_one in Hc. subst c.
  apply rmatch_advance in H. destruct H as [a3 [st3 [Ha3 H]]].
  cbn [rmatch] in H.
  apply rmatch_advance in H. destruct H as [a4 [st4 [Ha4 H]]].
  cbn [rmatch] in H.
  apply rmatch_advance in H. destruct H as [a5 [st5 [Ha5 H]]].
  cbn [rmatch] in H. destruct (at_boundary st5); [|discriminate]. injection H as <-.
  assert (Hat : advances st1 (MState (Some 64%N) rest2 (S (ms_pos st1)) (ms_groups st1))
                  [64%N]).
  { split; [exact Hrest|]. split; [simpl; lia | reflexivity]. }
  exists a1, (a3 ++ a4 ++ a5).
  pose proof (advances_trans _ _ _ _ _ Ha4 Ha5) as H45.
  pose proof (advances_trans _ _ _ _ _ Ha3 H45) as H35.
  pose proof (advances_trans _ _ _ _ _ Hat H35) as H25.
  exact (advances_trans _ _ _ _ _ Ha1 H25).
Qed.

(** A match of the digits of a phone number: 3 digits, 3 digits and 4
    digits, with one separator at the most after the first and the second
    run. *)
Lemma phone_digits_match k st res :
  rmatch false phone_digits k st = Some res ->
  exists d1 s1 d2 s2 d3 st',
    advances st st' (d1 ++ s1 ++ d2 ++ s2 ++ d3)
    /\ k st' = Some res
    /\ Forall (fun c => is_digit c = true) d1 /\ length d1 = 3%nat
    /\ Forall (fun c => c = 45%N \/ c = 46%N) s1 /\ (length s1 <= 1)%nat
    /\ Forall (fun c => is_digit c = true) d2 /\ length d2 = 3%nat
    /\ Forall (fun c => c = 45%N \/ c = 46%N) s2 /\ (length s2 <= 1)%nat
    /\ Forall (fun c => is_digit c = true) d3 /\ length d3 = 4%nat.
Proof.
  unfold phone_digits, times, sep_opt, opt. cbn [seq rmatch]. intros H.
  apply rep_advance in H. destruct H as [d1 [r1 [E1 [F1 [L1 [U1 H]]]]]].
  cbn [rmatch ms_groups ms_pos ms_prev ms_rest] in H.
  apply rep_advance in H. destruct H as [s1 [r2 [E2 [F2 [L2 [U2 H]]]]]].
  cbn [rmatch ms_groups ms_pos ms_prev ms_rest] in H.
  apply rep_advance in H. destruct H as [d2 [r3 [E3 [F3 [L3 [U3 H]]]]]].
  cbn [rmatch ms_groups ms_pos ms_prev ms_rest] in H.
  apply rep_advance in H. destruct H as [s2 [r4 [E4 [F4 [L4 [U4 H]]]]]].
  cbn [rmatch ms_groups ms_pos ms_prev ms_rest] in H.
  apply rep_advance in H. destruct H as [d3 [r5 [E5 [F5 [L5 [U5 H]]]]]].
  specialize (U1 _ eq_refl). specialize (U2 _ eq_refl). specialize (U3 _ eq_refl).
  specialize (U4 _ eq_refl). specialize (U5 _ eq_refl).
  assert (Hd : forall l, Forall (fun c => cs_match false digit c = true) l ->
                        Forall (fun c => is_digit c = true) l).
  { intros l. apply List.Forall_impl. intros c. rewrite cs_match_digit. tauto. }
  assert (Hs : forall l,
            Forall (fun c => cs_match false (cls [CChar (c1 "-"); CChar (c1 ".")]) c = true) l ->
            Forall (fun c => c = 45%N \/ c = 46%N) l).
  { intros l. apply List.Forall_impl. intros c. apply cs_match_sep. }
  eexists d1, s1, d2, s2, d3, _. split; [|split; [exact H|]].
  - subst r1 r2 r3 r4. split; [|split].
    + cbn [ms_rest]. rewrite E1, <- !app_assoc. reflexivity.
    + cbn [ms_pos]. rewrite !length_app. lia.
    + cbn [ms_prev]. rewrite !prev_after_app. reflexivity.
  - repeat split; auto; lia.
Qed.

(** Where the digits of a phone number begin, the pattern
    [\d{3}[-.]?\d{3}] of [check_resume_sections] matches. *)
Lemma phone_section st d1 s1 d2 tail :
  ms_rest st = d1 ++ s1 ++ d2 ++ tail ->
  Forall (fun c => is_digit c = true) d1 -> length d1 = 3%nat ->
  Forall (fun c => c = 45%N \/ c = 46%N) s1 -> (length s1 <= 1)%nat ->
  Forall (fun c => is_digit c = true) d2 -> length d2 = 3%nat ->
  is_Some (rmatch false (seq [times digit 3; sep_opt; times digit 3]) Some st).
Proof.
  intros Hrest F1 L1 F2 L2 F3 L3.
  assert (Hd : forall l, Forall (fun c => is_digit c = true) l ->
                        Forall (fun c => cs_match false digit c = true) l).
  { intros l. apply List.Forall_impl. intros c. rewrite cs_match_digit. tauto. }
  unfold times, sep_opt, opt. cbn [seq rmatch]. rewrite Hrest.
  rewrite <- L1 at 1 2. rewrite rep_times by (apply Hd; exact F1).
  cbn [rmatch ms_groups ms_pos ms_prev ms_rest].
  destruct s1 as [|c s1].
  - cbn [app]. rewrite rep_opt_skip.
    + cbn [ms_groups ms_pos ms_prev ms_rest]. rewrite <- L3 at 1 2.
      rewrite rep_times by (apply Hd; exact F3). eexists; reflexivity.
    + destruct d2 as [|x d2]; [discriminate|]. cbn [app].
      apply digit_not_sep. inversion F3; assumption.
  - destruct s1; [|simpl in L2; lia]. cbn [app]. apply rep_opt_take.
    + inversion F2 as [|? ? Hc _]; subst.
      unfold cs_match, set_has, cls. cbn [cs_neg cs_items existsb item_has andb orb xorb].
      change (c1 "-") with 45%N. change (c1 ".") with 46%N.
      destruct Hc as [->| ->]; reflexivity.
    + cbn [ms_groups ms_pos ms_prev ms_rest]. rewrite <- L3 at 1 2.
      rewrite rep_times by (apply Hd; exact F3). eexists; reflexivity.
Qed.

End ContactPatterns.

(** ** [extract_contact_info], [check_resume_sections] and the contact
    bonus of [detect_document_type] *)

Section ContactFacts.
Import Py Num Re Ats AtsFactors Consumed.
Local Open Scope Z_scope.

Lemma advances_same st st1 st2 a b :
  advances st st1 a -> advances st st2 b -> ms_rest st1 = ms_rest st2 -> a = b.
Proof.
  intros [H1 _] [H2 _] Hr. rewrite H1, Hr in H2. apply app_inv_tail in H2. exact H2.
Qed.

Lemma email_found text m :
  search false email_re text = Some m ->
  exists pre a1 a2 rest,
    text = pre ++ (a1 ++ 64%N :: a2) ++ rest
    /\ group0 text m = a1 ++ 64%N :: a2.
Proof.
  intros H. apply search_group0 in H. destruct H as [pre [rest [st [Ht [Hm Ha]]]]].
  destruct (email_match _ _ Hm) as [a1 [a2 Ha']].
  pose proof (advances_same _ _ _ _ _ Ha Ha' eq_refl) as Hg.
  exists pre, a1, a2, rest. rewrite <- Hg. split; [exact Ht | reflexivity].
Qed.

Lemma phone_found text m :
  search false phone_group_re text = Some m ->
  exists pre rest d1 s1 d2 s2 d3,
    text = pre ++ group0 text m ++ rest
    /\ group0 text m = d1 ++ s1 ++ d2 ++ s2 ++ d3
    /\ Forall (fun c => is_digit c = true) d1 /\ length d1 = 3%nat
    /\ Forall (fun c => c = 45%N \/ c = 46%N) s1 /\ (length s1 <= 1)%nat
    /\ Forall (fun c => is_digit c = true) d2 /\ length d2 = 3%nat
    /\ Forall (fun c => c = 45%N \/ c = 46%N) s2 /\ (length s2 <= 1)%nat
    /\ Forall (fun c => is_digit c = true) d3 /\ length d3 = 4%nat.
Proof.
  intros H. apply search_group0 in H. destruct H as [pre [rest [st [Ht [Hm Ha]]]]].
  unfold phone_group_re in Hm. cbn [seq rmatch] in Hm.
  destruct (at_boundary _); [|discriminate].
  apply phone_digits_match in Hm.
  destruct Hm as [d1 [s1 [d2 [s2 [d3 [st' [Ha' [Hk Hshape]]]]]]]].
  cbn [rmatch] in Hk. destruct (at_boundary _); [|discriminate]. injection Hk as <-.
  pose proof (advances_same _ _ _ _ _ Ha Ha' eq_refl) as Hg.
  exists pre, rest, d1, s1, d2, s2, d3. split; [exact Ht|]. split; [exact Hg | exact Hshape].
Qed.

Lemma occurs_re_at ic r pre rest :
  is_Some (rmatch ic r Some (MState (last pre) rest (length pre) [])) ->
  occurs_re ic r (pre ++ rest).
Proof. intros H. exists pre, rest. split; [reflexivity | exact H]. Qed.

Lemma email_section text :
  is_Some (search false email_re text) ->
  sec_contact_info (check_resume_sections text) = true.
Proof.
  intros [m Hm]. destruct (email_found _ _ Hm) as [pre [a1 [a2 [rest [Ht _]]]]].
  cbn [check_resume_sections sec_contact_info]. apply found_iff.
  rewrite Ht, <- !app_assoc. rewrite (app_assoc pre a1). cbn [app].
  apply occurs_re_at. cbn [alt]. apply rmatch_alt_l.
  change (lit "@") with (Chr (one 64%N)). cbn [rmatch ms_rest].
  rewrite (proj2 (cs_match_one 64%N 64%N) eq_refl). eexists; reflexivity.
Qed.

Lemma phone_section_found text :
  is_Some (search false phone_group_re text) ->
  sec_contact_info (check_resume_sections text) = true.
Proof.
  intros [m Hm]. destruct (phone_found _ _ Hm)
    as [pre [rest [d1 [s1 [d2 [s2 [d3 [Ht [Hg [F1 [L1 [F2 [L2 [F3 [L3 _]]]]]]]]]]]]]]].
  cbn [check_resume_sections sec_contact_info]. apply found_iff.
  rewrite Ht. apply occurs_re_at. cbn [alt].
  apply rmatch_alt_r, rmatch_alt_r, rmatch_alt_r.
  apply (phone_section _ d1 s1 d2 (s2 ++ d3 ++ rest)); try assumption.
  cbn [ms_rest]. rewrite Hg, <- !app_assoc. reflexivity.
Qed.

Lemma truthy_fmap_search (text : pystr) (o : option rmatch_obj) :
  (forall m, o = Some m -> group0 text m <> []) ->
  truthy (group0 text <$> o) = match o with Some _ => true | None => false end.
Proof.
  intros H. destruct o as [m|]; [|reflexivity]. cbn.
  specialize (H m eq_refl). destruct (group0 text m); [congruence | reflexivity].
Qed.

Lemma truthy_email text :
  truthy (email (extract_contact_info text)) = found false email_re text.
Proof.
  cbn [extract_contact_info email]. unfold found. apply truthy_fmap_search.
  intros m Hm. destruct (email_found _ _ Hm) as [pre [a1 [a2 [rest [_ ->]]]]].
  destruct a1; discriminate.
Qed.

Lemma truthy_phone text :
  truthy (phone (extract_contact_info text)) = found false phone_group_re text.
Proof.
  cbn [extract_contact_info phone]. unfold found. apply truthy_fmap_search.
  intros m Hm. destruct (phone_found _ _ Hm)
    as [pre [rest [d1 [s1 [d2 [s2 [d3 [_ [-> [_ [L1 _]]]]]]]]]]].
  destruct d1; [discriminate L1 | discriminate].
Qed.

Lemma is_Some_first {A} (x y : option A) :
  is_Some (match x with Some r => Some r | None => y end) <-> is_Some x \/ is_Some y.
Proof.
  destruct x as [r|]; split.
  - intros _. left. eexists; reflexivity.
  - intros _. eexists; reflexivity.
  - intros H. right. exact H.
  - intros [[? H]|H]; [discriminate | exact H].
Qed.

(** Whether a repetition succeeds depends on the place and on where its
    continuation succeeds, not on the groups. *)
Lemma rep_ext ic greedy cs rest :
  forall lo hi k k' groups groups' pos prev,
    same_success k k' ->
    is_Some (rep ic greedy cs lo hi k groups pos prev rest)
    <-> is_Some (rep ic greedy cs lo hi k' groups' pos prev rest).
Proof.
  induction rest as [|c rest IH]; intros lo hi k k' groups groups' pos prev Hk;
    cbn [rep].
  - destruct lo; [apply Hk; repeat split | reflexivity].
  - assert (Hstop : is_Some (match lo with
                             | O => k (MState prev (c :: rest) pos groups)
                             | S _ => None end)
                    <-> is_Some (match lo with
                                 | O => k' (MState prev (c :: rest) pos groups')
                                 | S _ => None end)).
    { destruct lo; [apply Hk; repeat split | reflexivity]. }
    destruct (hi_allows hi && cs_match ic cs c); [|exact Hstop].
    destruct greedy; rewrite !is_Some_first.
    + rewrite (IH (pred lo) (dec_hi hi) k k' groups groups' (S pos) (Some c) Hk), Hstop.
      reflexivity.
    + rewrite (IH (pred lo) (dec_hi hi) k k' groups groups' (S pos) (Some c) Hk), Hstop.
      reflexivity.
Qed.

Lemma rmatch_ext ic r :
  forall k k' st st',
    same_success k k' -> same_place st st' ->
    is_Some (rmatch ic r k st) <-> is_Some (rmatch ic r k' st').
Proof.
  induction r as [|cs|r1 IH1 r2 IH2|r1 IH1 r2 IH2|cs lo hi greedy|i r IH| |];
    intros k k' st st' Hk Hst; cbn [rmatch].
  - apply Hk. exact Hst.
  - destruct Hst as [Hp [Hr Hn]]. rewrite <- Hr.
    destruct (ms_rest st) as [|c rest']; [reflexivity|].
    destruct (cs_match ic cs c); [|reflexivity].
    apply Hk. repeat split. cbn [ms_pos]. congruence.
  - apply IH1; [|exact Hst]. intros s s' Hs. apply IH2; assumption.
  - rewrite !is_Some_first. rewrite (IH1 k k' st st' Hk Hst), (IH2 k k' st st' Hk Hst).
    reflexivity.
  - destruct Hst as [Hp [Hr Hn]]. rewrite <- Hp, <- Hr, <- Hn. apply rep_ext. exact Hk.
  - apply IH; [|exact Hst]. intros s s' [Hp [Hr Hn]]. apply Hk. repeat split; assumption.
  - destruct Hst as [Hp [Hr Hn]]. unfold at_boundary. rewrite <- Hp, <- Hr.
    destruct (xorb _ _); [apply Hk; repeat split; assumption | reflexivity].
  - destruct Hst as [Hp [Hr Hn]]. rewrite <- Hr.
    destruct (ms_rest st) eqn:E; [apply Hk; repeat split; congruence | reflexivity].
Qed.

(** The phone pattern finds the same with its group and without. *)
Lemma found_phone_group text :
  found false phone_group_re text = found false phone_re text.
Proof.
  apply eq_true_iff_eq. rewrite !found_iff. unfold occurs_re.
  assert (H : forall st,
            is_Some (rmatch false phone_group_re Some st)
            <-> is_Some (rmatch false phone_re Some st)).
  { intros st. unfold phone_group_re, phone_re. cbn [seq rmatch].
    destruct (at_boundary st); [|reflexivity].
    apply rmatch_ext; [|repeat split].
    intros s s' [Hp [Hr Hn]]. cbn [rmatch]. unfold at_boundary. cbn [ms_prev ms_rest].
    rewrite <- Hp, <- Hr.
    destruct (xorb _ _); [split; intros _; eexists; reflexivity | reflexivity]. }
  split; intros [pre [rest [Ht Hm]]]; exists pre, rest; (split; [exact Ht|]); apply H; exact Hm.
Qed.

Lemma contact_points_pos text :
  (0 <? contact_points text)
  = truthy (email (extract_contact_info text)) || truthy (phone (extract_contact_info text)).
Proof.
  unfold contact_points. cbv zeta.
  destruct (truthy (email _)), (truthy (phone _)); reflexivity.
Qed.

(** X11: where [extract_contact_info] finds an email address or a phone
    number, so that the contact block gives points to the score,
    [check_resume_sections] finds the section of the contact data. *)
Theorem contact_found_section text :
  0 < contact_points text ->
  sec_contact_info (check_resume_sections text) = true.
Proof.
  intros H. apply Z.ltb_lt in H. rewrite contact_points_pos in H.
  apply orb_true_iff in H. destruct H as [H|H].
  - rewrite truthy_email in H. apply email_section. unfold found in H.
    destruct (search false email_re text); [eexists; reflexivity | discriminate].
  - rewrite truthy_phone in H. apply phone_section_found. unfold found in H.
    destruct (search false phone_group_re text); [eexists; reflexivity | discriminate].
Qed.

Lemma contact_found_section_witness :
  0 < contact_points text_with_phone
  /\ sec_contact_info (check_resume_sections text_with_phone) = true.
Proof.
  assert (H : 0 < contact_points text_with_phone) by reflexivity.
  split; [exact H|]. apply (contact_found_section text_with_phone H).
Defined.

(** X12: [detect_document_type] and the score agree on the contact data:
    the email test and the phone test of [detect_document_type] succeed
    exactly when [extract_contact_info] returns an email address and a
    phone number that count in [calculate_ats_score], so the bonus of 2 is
    given exactly when the contact block gives points. *)
Theorem contact_bonus_consistent text :
  found false email_re text = truthy (email (extract_contact_info text))
  /\ found false phone_re text = truthy (phone (extract_contact_info text))
  /\ found false email_re text || found false phone_re text = (0 <? contact_points text).
Proof.
  rewrite contact_points_pos, truthy_email, truthy_phone, found_phone_group.
  repeat split; reflexivity.
Qed.

(** X13: the email address that [extract_contact_info] returns is a part
    of the text that contains an [@]; the phone number is a part of the
    text of 10 to 12 characters, each a digit, [-] or [.]. *)
Theorem extract_contact_info_parts text :
  (forall e, email (extract_contact_info text) = Some e ->
     In (c1 "@") e /\ exists pre rest, text = pre ++ e ++ rest)
  /\ (forall p, phone (extract_contact_info text) = Some p ->
       (10 <= length p <= 12)%nat
       /\ Forall (fun c => phone_char c = true) p
       /\ exists pre rest, text = pre ++ p ++ rest).
Proof.
  cbn [extract_contact_info email phone]. split.
  - intros e He. apply fmap_Some in He. destruct He as [m [Hm ->]].
    destruct (email_found _ _ Hm) as [pre [a1 [a2 [rest [Ht Hg]]]]].
    rewrite Hg. split; [apply in_or_app; right; left; reflexivity|].
    exists pre, rest. exact Ht.
  - intros p Hp. apply fmap_Some in Hp. destruct Hp as [m [Hm ->]].
    destruct (phone_found _ _ Hm)
      as [pre [rest [d1 [s1 [d2 [s2 [d3 [Ht [Hg [F1 [L1 [F2 [L2 [F3 [L3 [F4 [L4 [F5 L5]]]]]]]]]]]]]]]]]].
    split; [|split].
    + rewrite Hg, !length_app. lia.
    + assert (Hd : forall l, Forall (fun c => is_digit c = true) l ->
                             Forall (fun c => phone_char c = true) l).
      { intros l. apply List.Forall_impl. intros c Hc. unfold phone_char. rewrite Hc.
        reflexivity. }
      assert (Hs : forall l, Forall (fun c => c = 45%N \/ c = 46%N) l ->
                             Forall (fun c => phone_char c = true) l).
      { intros l. apply List.Forall_impl. intros c [->| ->]; reflexivity. }
      rewrite Hg. repeat (apply Forall_app; split); auto.
    + exists pre, rest. exact Ht.
Qed.

End ContactFacts.

(** ** [get_improvement_suggestions_ats] and [analyze_resume] *)

Section AtsReportFacts.
Import Py Num Re Ats AtsFactors FloatBounds ScoreTable Factors Consumed AtsReport Examples.
Local Open Scope Z_scope.

Lemma append_if_length c s l :
  length (append_if c s l) = (length l + if c then 1 else 0)%nat.
Proof. destruct c; simpl; [rewrite length_app; reflexivity | lia]. Qed.

Lemma append_if_nil c s l : append_if c s l = [] <-> c = false /\ l = [].
Proof.
  destruct c; simpl.
  - split; [intros H; destruct l; discriminate | intros [H _]; discriminate].
  - split; [intros ->; split; reflexivity | intros [_ H]; exact H].
Qed.

Lemma suggestions_length text sections skills contact :
  (length (get_improvement_suggestions_ats text sections skills contact) <= 7)%nat.
Proof.
  unfold get_improvement_suggestions_ats. cbv zeta.
  rewrite !append_if_length. cbn [length].
  repeat match goal with |- context [if ?c then 1%nat else 0%nat] => destruct c end; lia.
Qed.

Lemma suggestions_nil text sections skills contact :
  get_improvement_suggestions_ats text sections skills contact = [] <->
  truthy (email contact) = true /\ truthy (phone contact) = true
  /\ sec_summary sections = true /\ sec_skills sections = true
  /\ sec_projects sections = true
  /\ 8 <= total_skills_of skills
  /\ 3 <= len (findall false number_re text).
Proof.
  unfold get_improvement_suggestions_ats. cbv zeta.
  rewrite !append_if_nil, !negb_false_iff, !Z.ltb_ge. tauto.
Qed.

(** X8: [get_improvement_suggestions_ats] returns 7 suggestions at the
    most, and none exactly when the resume has an email address, a phone
    number, the sections summary, skills and projects, 8 skills at least
    and 3 numbers at least. *)
Theorem get_improvement_suggestions_ats_count text sections skills contact :
  (length (get_improvement_suggestions_ats text sections skills contact) <= 7)%nat
  /\ (get_improvement_suggestions_ats text sections skills contact = [] <->
      truthy (email contact) = true /\ truthy (phone contact) = true
      /\ sec_summary sections = true /\ sec_skills sections = true
      /\ sec_projects sections = true
      /\ 8 <= total_skills_of skills
      /\ 3 <= len (findall false number_re text)).
Proof. split; [apply suggestions_length | apply suggestions_nil]. Qed.

Lemma analyze_resume_fields now text job_description :
  exists a,
    analyze_resume now text job_description = Ok a
    /\ calculate_ats_score text job_description = Ok (ats_score a)
    /\ keyword_points text job_description = Ok (keyword_match_score a)
    /\ suggestions a
       = get_improvement_suggestions_ats text (check_resume_sections text)
           (extract_skills text) (extract_contact_info text)
    /\ suggestion_count a = len (suggestions a)
    /\ experience_years a = extract_experience_years text
    /\ total_count a = total_skills_of (extract_skills text)
    /\ analyzed_at a = now
    /\ sections_score a
       = str_of_Z (AtsFactors.sections_present text) ++ str "/6".
Proof.
  unfold analyze_resume. cbv zeta.
  destruct (keyword_points_ok text job_description) as [m [Hm [Hok _]]].
  pose proof (calculate_ats_score_combine text job_description m Hm) as Hc.
  destruct (combine_range _ _ _ _ _ _ m (factor_points_ok text) Hok) as [n [Hn _]].
  rewrite Hn in Hc. rewrite Hc. cbn [mbind res_bind].
  unfold keyword_points in Hm. rewrite Hm. cbn [mbind res_bind].
  eexists. split; [reflexivity|]. cbn.
  repeat split; try reflexivity. unfold keyword_points. exact Hm.
Qed.

(** X9: [analyze_resume] returns an analysis for every text and every job
    description or none: its score is that of [calculate_ats_score],
    between 0 and 100; the keyword match is absent without a job
    description and between 0 and 100 with one; the suggestions are 7 at
    the most and [suggestion_count] is their number; the years of
    experience are not negative. *)
Theorem analyze_resume_total now text job_description :
  exists a,
    analyze_resume now text job_description = Ok a
    /\ calculate_ats_score text job_description = Ok (ats_score a)
    /\ 0 <= ats_score a <= 100
    /\ match keyword_match_score a with
       | Some m => truthy job_description = true /\ 0 <= m <= 100
       | None => truthy job_description = false
       end
    /\ suggestion_count a = len (suggestions a)
    /\ 0 <= suggestion_count a <= 7
    /\ 0 <= experience_years a
    /\ analyzed_at a = now.
Proof.
  destruct (analyze_resume_fields now text job_description)
    as [a [Ha [Hs [Hk [Hsug [Hcnt [Hexp [_ [Hnow _]]]]]]]]].
  exists a. split; [exact Ha|]. split; [exact Hs|].
  destruct (keyword_points_ok text job_description) as [m [Hm [Hok Hj]]].
  rewrite Hm in Hk. injection Hk as Hk. split.
  { pose proof (calculate_ats_score_combine text job_description m Hm) as Hc.
    destruct (combine_range _ _ _ _ _ _ m (factor_points_ok text) Hok) as [n [Hn Hr]].
    rewrite Hn, Hs in Hc. injection Hc as ->. destruct m; lia. }
  split.
  { rewrite <- Hk. destruct m as [m|], (truthy job_description); try congruence.
    split; [reflexivity | exact Hok]. }
  split; [exact Hcnt|]. split.
  { rewrite Hcnt, Hsug. unfold len.
    pose proof (suggestions_length text (check_resume_sections text)
                  (extract_skills text) (extract_contact_info text)). lia. }
  split; [|exact Hnow].
  rewrite Hexp. apply experience_years_ge_0.
Qed.

(** X10: a resume that draws no suggestion scores 44 at least: it has
    the 15 points of the contact data, four sections at least, the one of
    the contact data with the email address, and 8 skills at least. *)
Theorem analyze_resume_no_suggestion now text a :
  analyze_resume now text None = Ok a ->
  suggestions a = [] ->
  44 <= ats_score a.
Proof.
  intros Ha Hnil.
  destruct (analyze_resume_fields now text None)
    as [a' [Ha' [Hs [_ [Hsug _]]]]].
  rewrite Ha in Ha'. injection Ha' as <-.
  rewrite Hsug in Hnil. apply suggestions_nil in Hnil.
  destruct Hnil as [He [Hp [Hsum [Hsk [Hpr [Htot _]]]]]].
  assert (Hk : keyword_points text None = Ok None) by reflexivity.
  rewrite (calculate_ats_score_combine text None None Hk) in Hs.
  assert (Hc : contact_points text = 15).
  { unfold contact_points. cbv zeta. rewrite He, Hp. reflexivity. }
  assert (Hci : sec_contact_info (check_resume_sections text) = true).
  { apply email_section. rewrite truthy_email in He. unfold found in He.
    destruct (search false email_re text); [eexists; reflexivity | discriminate]. }
  assert (Hsec : 4 <= AtsFactors.sections_present text).
  { unfold AtsFactors.sections_present, section_values. rewrite Hci, Hsum, Hsk, Hpr.
    destruct (sec_experience _), (sec_education _); vm_compute; discriminate. }
  assert (Hskp : 10 <= skills_points text).
  { unfold skills_points. cbv zeta. set (n := total_skills_of _) in *.
    destruct (15 <? n); [lia|]. destruct (10 <? n); [lia|].
    destruct (5 <? n) eqn:H5; [lia|]. apply Z.ltb_ge in H5. lia. }
  pose proof (factor_points_ok text) as Hok.
  destruct Hok as [H1 [H2 [H3 [H4 [H5 H6]]]]].
  assert (Hed : 0 <= education_points text).
  { unfold education_levels in H4. simpl in H4. lia. }
  assert (Hex : 0 <= experience_points text).
  { unfold experience_levels in H5. simpl in H5. lia. }
  assert (Hwc : 3 <= word_count_points text).
  { unfold word_levels in H6. simpl in H6. lia. }
  destruct (combine_mono 15 4 10 0 0 3 None
              (contact_points text) (AtsFactors.sections_present text)
              (skills_points text) (education_points text) (experience_points text)
              (word_count_points text) None) as [n1 [n2 [Hn1 [Hn2 Hle]]]].
  - unfold points_ok. repeat split; in_list.
  - exact (factor_points_ok text).
  - exact I.
  - exact I.
  - lia.
  - exact Hsec.
  - exact Hskp.
  - exact Hed.
  - exact Hex.
  - exact Hwc.
  - exact I.
  - rewrite Hn2 in Hs. injection Hs as <-.
    assert (E : combine 15 4 10 0 0 3 None = Ok 44) by (vm_compute; reflexivity).
    rewrite E in Hn1. injection Hn1 as <-. exact Hle.
Qed.

Lemma analyze_resume_no_suggestion_witness :
  exists a,
    analyze_resume (str "2025-01-01T00:00:00") complete_resume None = Ok a
    /\ suggestions a = []
    /\ 44 <= ats_score a.
Proof.
  destruct (analyze_resume_fields (str "2025-01-01T00:00:00") complete_resume None)
    as [a [Ha [_ [_ [Hsug _]]]]].
  assert (Hnil : suggestions a = []) by (rewrite Hsug; vm_compute; reflexivity).
  exists a. split; [exact Ha|]. split; [exact Hnil|].
  apply (analyze_resume_no_suggestion (str "2025-01-01T00:00:00") complete_resume a Ha Hnil).
Defined.

End AtsReportFacts.

(** ** [extract_education], the soft skills and [check_resume_sections] *)

Section EducationSkillsSections.
Import Py Num Re Ats AtsFactors.
Local Open Scope Z_scope.

Lemma finditer_nil ic r text :
  finditer ic r text = [] <-> search ic r text = None.
Proof.
  unfold finditer, search. cbn [finditer_from].
  destruct (search_from ic r None text 0) as [[m st]|]; split; intros H;
    try discriminate; reflexivity.
Qed.

Lemma finditer_occurs ic r text :
  finditer ic r text <> [] <-> occurs_re ic r text.
Proof.
  rewrite <- search_iff, finditer_nil. destruct (search ic r text); split.
  - intros _. eexists; reflexivity.
  - intros _. discriminate.
  - intros H. congruence.
  - intros [x H]. discriminate.
Qed.

Lemma flat_map_not_nil {A B} (f : A -> list B) (l : list A) :
  flat_map f l <> [] <-> exists x, In x l /\ f x <> [].
Proof.
  induction l as [|a l IH]; cbn [flat_map].
  - split; [congruence | intros [x [[] _]]].
  - split.
    + intros H. destruct (f a) as [|b bs] eqn:E.
      * cbn [app] in H. apply IH in H. destruct H as [x [Hx H]].
        exists x. split; [right; exact Hx | exact H].
      * exists a. split; [left; reflexivity | rewrite E; discriminate].
    + intros [x [[->|Hx] H]].
      * destruct (f x); [congruence | discriminate].
      * intros Hnil. apply app_eq_nil in Hnil. destruct Hnil as [_ Hnil].
        revert Hnil. apply IH. exists x. split; assumption.
Qed.

(** X16: [extract_education] returns an entry, and the education gives
    its 15 points to the score, exactly when one of the three degree
    patterns matches somewhere in the text; the level of every entry is
    [undergraduate] or [graduate]. *)
Theorem extract_education_found text :
  (extract_education text <> [] <->
   exists pattern, In pattern degree_patterns /\ occurs_re true pattern text)
  /\ (education_points text = 15 <-> extract_education text <> [])
  /\ Forall (fun e => level e = str "undergraduate" \/ level e = str "graduate")
            (extract_education text).
Proof.
  split; [|split].
  - unfold extract_education. rewrite flat_map_not_nil. split.
    + intros [p [Hp H]]. exists p. split; [exact Hp|]. apply finditer_occurs.
      intros Hnil. rewrite Hnil in H. apply H. reflexivity.
    + intros [p [Hp H]]. exists p. split; [exact Hp|]. apply finditer_occurs in H.
      destruct (finditer true p text); [congruence | discriminate].
  - unfold education_points. destruct (extract_education text); split; intros H;
      try discriminate; try congruence; reflexivity.
  - unfold extract_education. apply List.Forall_flat_map.
    apply List.Forall_forall. intros p _. apply List.Forall_map.
    apply List.Forall_forall. intros m _. cbn [level].
    destruct (_ || _); [left | right]; reflexivity.
Qed.

(** X17: the soft skills that [extract_skills] returns are the skills of
    [SOFT_SKILLS] that occur in the text without regard to case, in the
    order of [SOFT_SKILLS]. *)
Theorem extract_skills_soft text :
  (forall skill,
     skill ∈ soft (extract_skills text) <-> skill ∈ SOFT_SKILLS /\ occurs_ci skill text)
  /\ soft (extract_skills text) `sublist_of` SOFT_SKILLS.
Proof.
  cbn [extract_skills soft]. split.
  - intros skill. rewrite !list_elem_of_In, filter_In, contains_lower_iff. reflexivity.
  - generalize SOFT_SKILLS. intros l. induction l as [|x l IH]; [constructor|].
    cbn [List.filter]. destruct (contains x (lower text)); constructor; exact IH.
Qed.

(** A literal matches where the text goes on with it. *)
Lemma rmatch_lit s :
  s <> [] ->
  forall st,
    is_Some (rmatch false (lit_chars s) Some st) <-> startswith s (ms_rest st) = true.
Proof.
  induction s as [|c s IH]; [congruence|]. intros _ st.
  assert (Hc : forall x, cs_match false (one c) x = (c =? x)%N).
  { intros x. unfold cs_match, set_has, one, cls.
    cbn [cs_neg cs_items existsb item_has andb orb xorb]. rewrite !orb_false_r. reflexivity. }
  destruct s as [|d s].
  - cbn [lit_chars rmatch startswith]. destruct (ms_rest st) as [|x rest]; cbn [startswith].
    + split; [intros [? H]; discriminate | discriminate].
    + rewrite Hc. destruct (c =? x)%N; cbn [andb].
      * split; [reflexivity | intros _; eexists; reflexivity].
      * split; [intros [? H]; discriminate | discriminate].
  - change (lit_chars (c :: d :: s)) with (Seq (Chr (one c)) (lit_chars (d :: s))).
    cbn [rmatch]. destruct (ms_rest st) as [|x rest]; cbn [startswith].
    + split; [intros [? H]; discriminate | discriminate].
    + rewrite Hc. destruct (c =? x)%N; cbn [andb].
      * rewrite IH by discriminate. reflexivity.
      * split; [intros [? H]; discriminate | discriminate].
Qed.

Lemma found_lit s text :
  s <> [] -> found false (lit_chars s) text = contains s text.
Proof.
  intros Hs. apply eq_true_iff_eq. rewrite found_iff, contains_iff. unfold occurs_re. split.
  - intros [pre [rest [-> H]]]. apply (rmatch_lit s Hs) in H. cbn [ms_rest] in H.
    apply startswith_iff in H. destruct H as [post ->]. exists pre, post. reflexivity.
  - intros [pre [post ->]]. exists pre, (s ++ post). split; [reflexivity|].
    apply (rmatch_lit s Hs). cbn [ms_rest]. apply startswith_iff. exists post. reflexivity.
Qed.

Lemma found_alt r1 r2 text :
  found false (Alt r1 r2) text = found false r1 text || found false r2 text.
Proof.
  apply eq_true_iff_eq. rewrite orb_true_iff, !found_iff. unfold occurs_re. split.
  - intros [pre [rest [Ht H]]]. cbn [rmatch] in H.
    destruct (rmatch false r1 Some _) eqn:H1.
    + left. exists pre, rest. split; [exact Ht|]. rewrite H1. eexists; reflexivity.
    + right. exists pre, rest. split; [exact Ht | exact H].
  - intros [[pre [rest [Ht H]]]|[pre [rest [Ht H]]]]; exists pre, rest;
      (split; [exact Ht|]); cbn [rmatch].
    + destruct H as [x H]. rewrite H. eexists; reflexivity.
    + destruct (rmatch false r1 Some _); [eexists; reflexivity | exact H].
Qed.

Lemma found_lit_ci (s : string) text :
  str s <> [] -> found false (lit s) (lower text) = true <-> occurs_ci (str s) text.
Proof.
  intros Hs. unfold lit. rewrite (found_lit _ _ Hs). apply contains_lower_iff.
Qed.

(** X18: [check_resume_sections] finds the sections summary, experience,
    education, skills and projects exactly when one of the words of the
    section occurs in the text, in any case. *)
Theorem check_resume_sections_words text :
  (sec_summary (check_resume_sections text) = true <->
   occurs_ci (str "summary") text \/ occurs_ci (str "objective") text
   \/ occurs_ci (str "profile") text)
  /\ (sec_experience (check_resume_sections text) = true <->
      occurs_ci (str "experience") text \/ occurs_ci (str "work history") text
      \/ occurs_ci (str "employment") text)
  /\ (sec_education (check_resume_sections text) = true <->
      occurs_ci (str "education") text \/ occurs_ci (str "degree") text
      \/ occurs_ci (str "university") text \/ occurs_ci (str "college") text)
  /\ (sec_skills (check_resume_sections text) = true <->
      occurs_ci (str "skills") text \/ occurs_ci (str "technologies") text)
  /\ (sec_projects (check_resume_sections text) = true <->
      occurs_ci (str "projects") text \/ occurs_ci (str "portfolio") text).
Proof.
  cbn [check_resume_sections sec_summary sec_experience sec_education sec_skills
       sec_projects alt].
  rewrite !found_alt, !orb_true_iff.
  rewrite !found_lit_ci by discriminate.
  repeat split; try tauto.
  (* where [technical skills] occurs, [skills] occurs *)
  intros [H|[H|H]]; [left; exact H | right; exact H |].
  left. destruct H as [pre [mid [post [Ht Hl]]]].
  assert (Hc : contains (str "skills") (lower text) = true).
  { apply contains_iff. rewrite Ht. unfold lower in *. rewrite !map_app, Hl.
    exists (map lower_char pre ++ str "technical "), (map lower_char post).
    rewrite <- !app_assoc. reflexivity. }
  apply contains_lower_iff. exact Hc.
Qed.

End EducationSkillsSections.

(** ** The items of [extract_action_items] and [extract_key_decisions] *)

Section ItemsFacts.
Import Py Num Re Ai.
Local Open Scope Z_scope.

Lemma sublist_Forall {A} (P : A -> Prop) (l1 l2 : list A) :
  l1 `sublist_of` l2 -> Forall P l2 -> Forall P l1.
Proof.
  induction 1 as [|x l1 l2 _ IH|x l1 l2 _ IH]; intros H.
  - constructor.
  - inversion H; subst. constructor; [assumption | apply IH; assumption].
  - inversion H; subst. apply IH; assumption.
Qed.

(** The loop that appends the matches of a pattern that are new. *)
Lemma append_new_Forall (P : pystr -> Prop) (text : pystr) (ms : list rmatch_obj)
    (acc : list pystr) :
  (forall x : pystr, x <> [] -> P x) ->
  Forall P acc ->
  Forall P (fold_left
              (fun items m =>
                 let item := strip (group0 text m) in
                 match item with
                 | [] => items
                 | _ :: _ => if mem item items then items else items ++ [item]
                 end) ms acc).
Proof.
  intros HP. revert acc. induction ms as [|m ms IH]; intros acc Hacc; [exact Hacc|].
  cbn [fold_left]. apply IH. cbv zeta.
  destruct (strip (group0 text m)) as [|c s] eqn:Hs; [exact Hacc|].
  destruct (mem _ acc); [exact Hacc|].
  apply Forall_app. split; [exact Hacc|]. constructor; [|constructor].
  apply HP. discriminate.
Qed.

Lemma append_new_patterns_Forall (P : pystr -> Prop) (text : pystr) (ps : list regex)
    (acc : list pystr) :
  (forall x : pystr, x <> [] -> P x) ->
  Forall P acc ->
  Forall P (fold_left
              (fun items pattern =>
                 fold_left
                   (fun items m =>
                      let item := strip (group0 text m) in
                      match item with
                      | [] => items
                      | _ :: _ => if mem item items then items else items ++ [item]
                      end)
                   (finditer true pattern text) items) ps acc).
Proof.
  intros HP. revert acc. induction ps as [|p ps IH]; intros acc Hacc; [exact Hacc|].
  cbn [fold_left]. apply IH. apply append_new_Forall; assumption.
Qed.

(** X14: [extract_action_items] returns 10 items at the most, no two of
    them equal without regard to case, and none of them empty. *)
Theorem extract_action_items_items text :
  (length (extract_action_items text) <= 10)%nat
  /\ NoDup (lower <$> extract_action_items text)
  /\ Forall (fun item => item <> []) (extract_action_items text).
Proof.
  destruct (extract_action_items_cap text) as [H1 H2].
  split; [exact H1|]. split; [exact H2|].
  unfold extract_action_items. cbv zeta.
  eapply sublist_Forall; [apply sublist_take|].
  eapply sublist_Forall; [apply unique_ci_spec|].
  apply append_new_patterns_Forall; [tauto|].
  apply List.Forall_flat_map, List.Forall_forall. intros p _.
  apply List.Forall_flat_map, List.Forall_forall. intros m _.
  apply List.Forall_flat_map, List.Forall_forall. intros item _. cbv zeta.
  destruct (10 <? len (strip item)) eqn:Hl; [|constructor].
  constructor; [|constructor]. intros Hnil. rewrite Hnil in Hl. discriminate.
Qed.

(** X15: [extract_key_decisions] returns 5 decisions at the most, no two
    of them the same string, and none of them empty. *)
Theorem extract_key_decisions_items text :
  (length (extract_key_decisions text) <= 5)%nat
  /\ NoDup (extract_key_decisions text)
  /\ Forall (fun decision => decision <> []) (extract_key_decisions text).
Proof.
  destruct (extract_key_decisions_cap text) as [H1 H2].
  split; [exact H1|]. split; [exact H2|].
  unfold extract_key_decisions. cbv zeta.
  eapply sublist_Forall; [apply sublist_take|].
  apply append_new_patterns_Forall; [tauto | constructor].
Qed.

End ItemsFacts.
